(** * Sensor ingestion and statistics (function_app.py)

    A shallow embedding of the handlers [generate_http], [generate_timer]
    and [stats_http] of [function_app.py], of the generator
    [generate_sensor_readings] they call and of the SQL they send to the
    table [SensorReadings].  ([stats_sql_trigger] sends the query of
    [stats_http] and logs its result.)

    - The metric values are Python floats stored in FLOAT columns.  Their
      arithmetic is a parameter of the development (class [Arith]) with two
      instances: [binary64], the IEEE 754 double-precision arithmetic the
      code runs on (Rocq's primitive floats), and [exact], rational
      arithmetic without rounding.
    - The handlers are written in a state-and-exception monad over a
      [world]: the committed rows of the table, the transaction of the
      handler's connection, the position in the random stream, the number
      of clock readings and the log.
    - pyodbc is modelled as its documentation describes it: a connection
      opens with autocommit off, [execute] writes into the connection's
      transaction, [commit] makes the transaction's rows visible, and
      [close] rolls back whatever was not committed.  Every pyodbc call can
      raise; which ones do is decided by the [faults] oracle of the
      [context].
    - Concurrent invocations are interleaved pyodbc call by pyodbc call,
      each with a connection and a transaction of its own.
    - The load harness [parallel_test.py] is embedded with explicit state
      passing over a [bench]: the requests sent, the clock readings made,
      the printed lines, the sleeps and the calls of matplotlib.  The
      outcome of each request and the values of [time.time()] come from
      a [harness] oracle. *)

From Stdlib Require Import ZArith List String Bool Lia Permutation Sorted.
From Stdlib Require Import QArith Lqa.
From Stdlib Require Import Floats Uint63.
From Stdlib Require DecimalString DecimalZ.
Import ListNotations.

Set Implicit Arguments.

(** ** Arithmetic of the metric values *)

Class Arith (R : Type) : Type := {
  lit  : Z -> R;            (* a literal of integral value: 5.0, 18.0, ... *)
  radd : R -> R -> R;
  rsub : R -> R -> R;
  rmul : R -> R -> R;
  rdiv : R -> R -> R;
  rltb : R -> R -> bool
}.

(** IEEE 754 binary64, as CPython and the FLOAT columns compute.  The
    literals of the code and the counts of rows are integers far below
    2^53, which binary64 holds without rounding. *)
#[global] Instance binary64 : Arith float := {
  lit z := if (z <? 0)%Z
           then PrimFloat.opp (PrimFloat.of_uint63 (Uint63.of_Z (- z)))
           else PrimFloat.of_uint63 (Uint63.of_Z z);
  radd := PrimFloat.add;
  rsub := PrimFloat.sub;
  rmul := PrimFloat.mul;
  rdiv := PrimFloat.div;
  rltb := PrimFloat.ltb
}.

(** Rational arithmetic: the same operations without rounding. *)
#[global] Instance exact : Arith Q := {
  lit z := inject_Z z;
  radd := Qplus;
  rsub := Qminus;
  rmul := Qmult;
  rdiv := Qdiv;
  rltb x y := negb (Qle_bool y x)
}.

(** ** Data model *)

(** One element of the list built by [generate_sensor_readings]: a dict
    with the keys "sensor_id", "temperature", "wind", "humidity", "co2". *)
Record reading (R : Type) : Type := mkReading {
  sensor_id   : Z;
  temperature : R;
  wind        : R;
  humidity    : R;
  co2         : R
}.

(** Modelled from the spec: the CREATE TABLE statement of [SensorReadings]
    is not in the repository.  The persisted schema of the specification
    has a sensor_id (int), four metric floats and reading_time_utc (a
    timestamp), and a row read back has the field values that were
    appended: the four columns are FLOAT, which holds a Python float as it
    is.  The fields are in the column order of the INSERT statement. *)
Record row (R : Type) : Type := mkRow {
  SensorId       : Z;
  Temperature    : R;
  WindSpeed      : R;
  Humidity       : R;
  CO2            : R;
  ReadingTimeUtc : Z
}.

(** One element of the JSON array returned by [stats_http]. *)
Record sensor_stats (R : Type) : Type := mkStats {
  stats_sensor_id : Z;
  temperature_min : R;
  temperature_max : R;
  temperature_avg : R;
  wind_min        : R;
  wind_max        : R;
  wind_avg        : R;
  humidity_min    : R;
  humidity_max    : R;
  humidity_avg    : R;
  co2_min         : R;
  co2_max         : R;
  co2_avg         : R
}.

(** The pyodbc calls a handler makes.  [Execute i] is the INSERT of the
    loop's iteration [i] (from 0); [Select] is the [execute] of the
    statistics query. *)
Inductive db_call : Type :=
| Connect
| Cursor
| Execute (i : nat)
| Commit
| Close
| Select
| Fetchall.

Inductive exn : Type :=
| KeyError (key : string)     (* os.environ[key], key not set *)
| NameError (name : string)   (* a local variable read before assignment *)
| DbError (msg : string)      (* pyodbc.Error *)
| TypeError (msg : string).   (* a call with arguments the function does not take *)

(** [str(e)]. *)
Definition str_of_exn (e : exn) : string :=
  match e with
  | KeyError key => ("'" ++ key ++ "'")%string
  | NameError name =>
      ("cannot access local variable '" ++ name
         ++ "' where it is not associated with a value")%string
  | DbError msg => msg
  | TypeError msg => msg
  end.

Inductive log_arg : Type :=
| ArgNat (n : nat)
| ArgTime (t : Z)
| ArgStr (s : string).

(** [logging.info(fmt, args)] and [logging.error(fmt, args)]. *)
Inductive log_line : Type :=
| Info (fmt : string) (args : list log_arg)
| Error (fmt : string) (args : list log_arg).

(** The body of a [func.HttpResponse]. *)
Inductive body (R : Type) : Type :=
| Text (s : string)
| GenerateJson (inserted : nat) (timestamp : Z) (readings : list (reading R))
| StatsJson (data : list (sensor_stats R)).

Arguments Text {R} s.

Record HttpResponse (R : Type) : Type := mkResponse {
  status_code : Z;
  resp_body   : body R
}.

(** What a handler is run against: the environment variables, the outputs
    of [random.random()] in order, the successive readings of the clock,
    and the pyodbc calls that raise (with the message of the error). *)
Record context (R : Type) : Type := mkContext {
  environ : string -> option string;
  draws   : nat -> R;
  clock   : nat -> Z;
  faults  : db_call -> option string
}.

(** The state a handler reads and changes. *)
Record world (R : Type) : Type := mkWorld {
  table       : list (row R);            (* committed rows of SensorReadings *)
  txn         : option (list (row R));   (* the handler's connection: [None]
                                            when there is none, [Some p] when it
                                            is open with [p] written and not
                                            committed *)
  rand_pos    : nat;                     (* outputs of random.random() used *)
  clock_reads : nat;                     (* readings of the clock made *)
  logs        : list log_line
}.

(** ** The state-and-exception monad *)

Inductive result (A : Type) : Type :=
| Ok (a : A)
| Raise (e : exn).

Arguments Raise {A} e.

Definition M (R A : Type) : Type := world R -> result A * world R.

Definition ret {R A} (a : A) : M R A := fun w => (Ok a, w).

Definition raise {R A} (e : exn) : M R A := fun w => (Raise e, w).

Definition bind {R A B} (m : M R A) (k : A -> M R B) : M R B :=
  fun w => match m w with
           | (Ok a, w') => k a w'
           | (Raise e, w') => (Raise e, w')
           end.

(** [try: m except Exception as e: h e] *)
Definition try_except {R A} (m : M R A) (h : exn -> M R A) : M R A :=
  fun w => match m w with
           | (Ok a, w') => (Ok a, w')
           | (Raise e, w') => h e w'
           end.

(** [try: m finally: f]: [f] runs on both exits; an exception of [f]
    replaces the outcome of [m]. *)
Definition try_finally {R A} (m : M R A) (f : M R unit) : M R A :=
  fun w => match m w with
           | (r, w') => match f w' with
                        | (Ok _, w'') => (r, w'')
                        | (Raise e, w'') => (Raise e, w'')
                        end
           end.

Declare Scope monad_scope.
Delimit Scope monad_scope with monad.
Notation "x <- m ;; k" := (bind m (fun x => k))
  (at level 61, m at next level, right associativity) : monad_scope.
Notation "m ;; k" := (bind m (fun _ => k))
  (at level 61, right associativity) : monad_scope.
Open Scope monad_scope.

(** [for i, x in enumerate(xs, i): body i x] *)
Fixpoint for_each {R A} (body : nat -> A -> M R unit) (i : nat) (xs : list A)
  : M R unit :=
  match xs with
  | [] => ret tt
  | x :: xs' => body i x ;; for_each body (S i) xs'
  end.

Section Handlers.

Context {R : Type} {AR : Arith R}.
Variable ctx : context R.

(** *** Primitive effects *)

Definition log (l : log_line) : M R unit :=
  fun w => (Ok tt, mkWorld (table w) (txn w) (rand_pos w) (clock_reads w)
                           (logs w ++ [l])).

Definition set_txn (t : option (list (row R))) (w : world R) : world R :=
  mkWorld (table w) t (rand_pos w) (clock_reads w) (logs w).

(** [random.random()]: the next output of the generator. *)
Definition random_random : M R R :=
  fun w => (Ok (draws ctx (rand_pos w)),
            mkWorld (table w) (txn w) (S (rand_pos w)) (clock_reads w) (logs w)).

(** [random.uniform(a, b)], which CPython defines as
    [a + (b - a) * self.random()]. *)
Definition random_uniform (a b : R) : M R R :=
  u <- random_random ;;
  ret (radd a (rmul (rsub b a) u)).

(** [datetime.datetime.now(datetime.timezone.utc)] *)
Definition datetime_now : M R Z :=
  fun w => (Ok (clock ctx (clock_reads w)),
            mkWorld (table w) (txn w) (rand_pos w) (S (clock_reads w)) (logs w)).

(** [os.environ[key]] *)
Definition os_environ (key : string) : M R string :=
  match environ ctx key with
  | Some v => ret v
  | None => raise (KeyError key)
  end.

(** Raise, when the oracle says that this call fails. *)
Definition fault_at (c : db_call) : M R unit :=
  match faults ctx c with
  | Some msg => raise (DbError msg)
  | None => ret tt
  end.

(** [conn = pyodbc.connect(connection_string)]: autocommit is off, the
    connection starts with an empty transaction. *)
Definition pyodbc_connect (connection_string : string) : M R unit :=
  fault_at Connect ;;
  fun w => (Ok tt, set_txn (Some []) w).

(** [cursor = conn.cursor()] *)
Definition conn_cursor : M R unit := fault_at Cursor.

(** [cursor.execute("INSERT INTO SensorReadings ... VALUES (?, ?, ?, ?, ?, ?)",
    ...)] in iteration [i]: the row joins the connection's transaction. *)
Definition cursor_execute_insert (i : nat) (r : row R) : M R unit :=
  fault_at (Execute i) ;;
  fun w => match txn w with
           | Some p => (Ok tt, set_txn (Some (p ++ [r])) w)
           | None => (Raise (NameError "cursor"), w)
           end.

(** [conn.commit()]: the transaction's rows become rows of the table. *)
Definition conn_commit : M R unit :=
  fault_at Commit ;;
  fun w => match txn w with
           | Some p => (Ok tt, mkWorld (table w ++ p) (Some []) (rand_pos w)
                                       (clock_reads w) (logs w))
           | None => (Raise (NameError "conn"), w)
           end.

(** [conn.close()]: with [conn] unbound (connect raised) the name lookup
    raises; otherwise the connection goes away, and with it the rows that
    were not committed, whether or not [close] itself reports an error. *)
Definition conn_close : M R unit :=
  fun w => match txn w with
           | None => (Raise (NameError "conn"), w)
           | Some _ => fault_at Close (set_txn None w)
           end.

(** ** generate_sensor_readings *)

(** [range(lo, hi)] *)
Definition range (lo hi : Z) : list Z :=
  map (fun i => (lo + Z.of_nat i)%Z) (seq 0 (Z.to_nat (hi - lo))).

(** The body of the loop: one dict, its values evaluated in the order
    they are written. *)
Definition make_reading (sid : Z) : M R (reading R) :=
  t <- random_uniform (lit 5) (lit 18) ;;
  w <- random_uniform (lit 12) (lit 24) ;;
  h <- random_uniform (lit 30) (lit 60) ;;
  c <- random_uniform (lit 400) (lit 1600) ;;
  ret (mkReading sid t w h c).

(** [for sensor_id in ids: readings.append({...})] *)
Fixpoint readings_loop (ids : list Z) (readings : list (reading R))
  : M R (list (reading R)) :=
  match ids with
  | [] => ret readings
  | sid :: ids' =>
      r <- make_reading sid ;;
      readings_loop ids' (readings ++ [r])
  end.

Definition num_sensors : Z := 20.

Definition generate_sensor_readings : M R (list (reading R)) :=
  readings_loop (range 1 (num_sensors + 1)) [].

(** The text of the TypeError of a call that passes [given] positional
    arguments to a function declared without parameters. *)
Definition too_many_arguments (name : string) (given : nat) : string :=
  (name ++ "() takes 0 positional arguments but "
        ++ DecimalString.NilZero.string_of_uint (Nat.to_uint given)
        ++ (if Nat.eqb given 1 then " was given" else " were given"))%string.

(** A call [generate_sensor_readings(arg, ...)] with the positional
    arguments [args].  The function is declared without parameters
    ([def generate_sensor_readings():]): Python binds the arguments before
    it runs the body, and a call that passes any raises TypeError. *)
Definition call_generate_sensor_readings (args : list Z)
  : M R (list (reading R)) :=
  match args with
  | [] => generate_sensor_readings
  | _ :: _ =>
      raise (TypeError (too_many_arguments "generate_sensor_readings"
                                           (List.length args)))
  end.

(** ** generate_http *)

Definition CONNECTION_KEY : string := "AZURE_SQL_CONNECTIONSTRING".

(** The six parameters of the INSERT statement. *)
Definition insert_params (utc_timestamp : Z) (r : reading R) : row R :=
  mkRow (sensor_id r) (temperature r) (wind r) (humidity r) (co2 r)
        utc_timestamp.

(** [for r in readings: cursor.execute(INSERT ..., r[...], utc_timestamp)] *)
Definition insert_readings (utc_timestamp : Z) (readings : list (reading R))
  : M R unit :=
  for_each (fun i r => cursor_execute_insert i (insert_params utc_timestamp r))
           0 readings.

(** The [finally] clause of both ingestion handlers:
    [try: conn.close() except Exception: pass]. *)
Definition close_quietly : M R unit :=
  try_except conn_close (fun _ => ret tt).

(** A [return] inside the [except] clause is the value [Some response] of
    the whole [try] statement; [None] means that control goes on after it. *)
Definition generate_http : M R (HttpResponse R) :=
  log (Info "HTTP trigger called to generate sensor data." []) ;;
  readings <- generate_sensor_readings ;;
  utc_timestamp <- datetime_now ;;
  connection_string <- os_environ CONNECTION_KEY ;;
  returned <-
    try_finally
      (try_except
         (pyodbc_connect connection_string ;;
          conn_cursor ;;
          insert_readings utc_timestamp readings ;;
          conn_commit ;;
          log (Info "Inserted %d rows into SensorReadings."
                    [ArgNat (List.length readings)]) ;;
          ret None)
         (fun e =>
            log (Error "Error inserting into SQL: %s" [ArgStr (str_of_exn e)]) ;;
            ret (Some (mkResponse 500
                         (Text ("Error inserting into SQL: " ++ str_of_exn e))))))
      close_quietly ;;
  match returned with
  | Some response => ret response
  | None =>
      ret (mkResponse 200
             (GenerateJson (List.length readings) utc_timestamp readings))
  end.

(** ** generate_timer *)

Definition generate_timer : M R unit :=
  log (Info "Timer trigger called to generate sensor data." []) ;;
  readings <- generate_sensor_readings ;;
  utc_timestamp <- datetime_now ;;
  log (Info "[%s] Generated %d sensor readings."
            [ArgTime utc_timestamp; ArgNat (List.length readings)]) ;;
  connection_string <- os_environ CONNECTION_KEY ;;
  try_finally
    (try_except
       (pyodbc_connect connection_string ;;
        conn_cursor ;;
        insert_readings utc_timestamp readings ;;
        conn_commit ;;
        log (Info "Inserted %d rows (timer trigger)" [ArgNat (List.length readings)]))
       (fun e =>
          log (Error "Timer trigger SQL error: %s" [ArgStr (str_of_exn e)])))
    close_quietly.

(** ** The statistics query *)

(** A group of GROUP BY: its key, its first row and its later rows, in
    the order of the table. *)
Definition group : Type := (Z * (row R * list (row R)))%type.

Fixpoint group_insert (r : row R) (gs : list group) : list group :=
  match gs with
  | [] => [(SensorId r, (r, []))]
  | (k, (r0, rs)) :: gs' =>
      if (k =? SensorId r)%Z
      then (k, (r0, rs ++ [r])) :: gs'
      else (k, (r0, rs)) :: group_insert r gs'
  end.

(** [GROUP BY SensorId] *)
Definition group_by_SensorId (t : list (row R)) : list group :=
  fold_left (fun gs r => group_insert r gs) t [].

Fixpoint order_insert (g : group) (gs : list group) : list group :=
  match gs with
  | [] => [g]
  | g' :: gs' =>
      if (fst g <=? fst g')%Z then g :: g' :: gs' else g' :: order_insert g gs'
  end.

(** [ORDER BY SensorId] *)
Definition order_by_SensorId (gs : list group) : list group :=
  fold_right order_insert [] gs.

(** [MIN(col)], [MAX(col)] and [AVG(col)] over the values [x0 :: xs] of a
    group.  AVG is the sum of the values divided by their count, in the
    arithmetic of the column; the engine is free to add the values in any
    order, and they are added here in the order of the table. *)
Definition sql_min (x0 : R) (xs : list R) : R :=
  fold_left (fun m x => if rltb x m then x else m) xs x0.

Definition sql_max (x0 : R) (xs : list R) : R :=
  fold_left (fun m x => if rltb m x then x else m) xs x0.

Definition sql_sum (x0 : R) (xs : list R) : R :=
  fold_left radd xs x0.

Definition sql_avg (x0 : R) (xs : list R) : R :=
  rdiv (sql_sum x0 xs) (lit (Z.of_nat (S (List.length xs)))).

(** A row of the result: r[0], (r[1], r[2], r[3]), ..., (r[10], r[11], r[12]). *)
Definition stats_row : Type := (Z * (R * R * R) * (R * R * R) * (R * R * R)
                                * (R * R * R))%type.

Definition aggregates (col : row R -> R) (g : group) : R * R * R :=
  let x0 := col (fst (snd g)) in
  let xs := map col (snd (snd g)) in
  (sql_min x0 xs, sql_max x0 xs, sql_avg x0 xs).

Definition select_row (g : group) : stats_row :=
  (fst g, aggregates (@Temperature R) g, aggregates (@WindSpeed R) g,
   aggregates (@Humidity R) g, aggregates (@CO2 R) g).

(** [SELECT SensorId, MIN(..), MAX(..), AVG(..), ... FROM SensorReadings
    GROUP BY SensorId ORDER BY SensorId] *)
Definition select_stats (t : list (row R)) : list stats_row :=
  map select_row (order_by_SensorId (group_by_SensorId t)).

(** [float(x)] of a value that is a float already. *)
Definition float_of (x : R) : R := x.

(** The dict appended to [data] for one row of the result. *)
Definition format_row (r : stats_row) : sensor_stats R :=
  let '(r0, (r1, r2, r3), (r4, r5, r6), (r7, r8, r9), (r10, r11, r12)) := r in
  mkStats r0 r1 r2 (float_of r3) r4 r5 (float_of r6) r7 r8 (float_of r9)
          r10 r11 (float_of r12).

(** The list [data] of [stats_http] for a table [t]. *)
Definition stats_data (t : list (row R)) : list (sensor_stats R) :=
  map format_row (select_stats t).

(** [cur.execute("SELECT ...")] then [cur.fetchall()]: the query reads the
    committed rows. *)
Definition cursor_select_stats : M R (list stats_row) :=
  fault_at Select ;;
  fault_at Fetchall ;;
  fun w => (Ok (select_stats (table w)), w).

(** ** stats_http *)

Definition stats_http : M R (HttpResponse R) :=
  try_except
    (connection_string <- os_environ CONNECTION_KEY ;;
     pyodbc_connect connection_string ;;
     conn_cursor ;;
     rows <- cursor_select_stats ;;
     ret (mkResponse 200 (StatsJson (map format_row rows))))
    (fun e =>
       log (Error "%s" [ArgStr (str_of_exn e)]) ;;
       ret (mkResponse 500 (Text (str_of_exn e)))).

End Handlers.

(** ** Concurrent invocations

    Azure Functions runs invocations of the handlers concurrently.  Each
    invocation has its own connection, and the only state they share is
    the table.  An invocation of an ingestion handler is followed here
    from one pyodbc call to the next; the server runs the calls of the
    different connections one at a time, in any order. *)

(** Where an invocation stands in the [try] statement. *)
Inductive pc (R : Type) : Type :=
| AtConnect                                 (* before pyodbc.connect *)
| AtCursor                                  (* before conn.cursor() *)
| AtExecute (i : nat) (todo : list (row R)) (* in the loop, or before commit
                                               when [todo] is empty *)
| AtClose                                   (* in the finally clause *)
| Finished.

Arguments AtConnect {R}.
Arguments AtCursor {R}.
Arguments AtClose {R}.
Arguments Finished {R}.

Record invocation (R : Type) : Type := mkInvocation {
  inv_faults : db_call -> option string;  (* the calls that raise *)
  inv_batch  : list (row R);              (* the parameters of its INSERTs *)
  inv_pc     : pc R;
  inv_txn    : list (row R)               (* written and not committed *)
}.

(** An invocation that has generated its readings and read the clock. *)
Definition start {R} (f : db_call -> option string) (batch : list (row R))
  : invocation R :=
  mkInvocation f batch AtConnect [].

Definition goto {R} (v : invocation R) (p : pc R) (pending : list (row R))
  : invocation R :=
  mkInvocation (inv_faults v) (inv_batch v) p pending.

(** The next pyodbc call of [v] against the table [t].  A call that raises
    sends the invocation to the [finally] clause. *)
Definition step_invocation {R} (t : list (row R)) (v : invocation R)
  : list (row R) * invocation R :=
  match inv_pc v with
  | AtConnect =>
      match inv_faults v Connect with
      | Some _ => (t, goto v AtClose [])
      | None => (t, goto v AtCursor [])
      end
  | AtCursor =>
      match inv_faults v Cursor with
      | Some _ => (t, goto v AtClose (inv_txn v))
      | None => (t, goto v (AtExecute 0 (inv_batch v)) (inv_txn v))
      end
  | AtExecute i (r :: todo) =>
      match inv_faults v (Execute i) with
      | Some _ => (t, goto v AtClose (inv_txn v))
      | None => (t, goto v (AtExecute (S i) todo) (inv_txn v ++ [r]))
      end
  | AtExecute i [] =>
      match inv_faults v Commit with
      | Some _ => (t, goto v AtClose (inv_txn v))
      | None => (t ++ inv_txn v, goto v AtClose [])
      end
  | AtClose => (t, goto v Finished [])
  | Finished => (t, v)
  end.

Fixpoint set_nth {A} (i : nat) (x : A) (l : list A) : list A :=
  match l, i with
  | [], _ => []
  | _ :: l', O => x :: l'
  | y :: l', S i' => y :: set_nth i' x l'
  end.

(** The table and the invocations in flight. *)
Definition system (R : Type) : Type := (list (row R) * list (invocation R))%type.

(** The scheduler lets invocation [i] make its next call. *)
Definition schedule_step {R} (s : system R) (i : nat) : system R :=
  match nth_error (snd s) i with
  | Some v =>
      let (t', v') := step_invocation (fst s) v in
      (t', set_nth i v' (snd s))
  | None => s
  end.

(** A schedule: the invocations in the order in which they get to make one
    call each. *)
Definition run_schedule {R} (sched : list nat) (s : system R) : system R :=
  fold_left schedule_step sched s.

Definition is_finished {R} (v : invocation R) : bool :=
  match inv_pc v with
  | Finished => true
  | _ => false
  end.

Definition all_finished {R} (s : system R) : bool :=
  forallb is_finished (snd s).

(** The schedule that runs the invocations one after the other:
    invocation [i] makes all its calls, then [i + 1] does. *)
Fixpoint sequential_schedule (i : nat) (sizes : list nat) : list nat :=
  match sizes with
  | [] => []
  | k :: sizes' => repeat i (k + 4) ++ sequential_schedule (S i) sizes'
  end.

(** ** Functions used to state what the handlers do *)

(** The first of the INSERTs [i, i + n) that raises, for the oracle [f]. *)
Fixpoint execute_fault (f : db_call -> option string) (i n : nat)
  : option string :=
  match n with
  | O => None
  | S n' =>
      match f (Execute i) with
      | Some msg => Some msg
      | None => execute_fault f (S i) n'
      end
  end.

(** The first call that raises in the [try] block of an ingestion handler
    with [n] readings. *)
Definition ingest_fault (f : db_call -> option string) (n : nat)
  : option string :=
  match f Connect with
  | Some msg => Some msg
  | None =>
      match f Cursor with
      | Some msg => Some msg
      | None =>
          match execute_fault f 0 n with
          | Some msg => Some msg
          | None => f Commit
          end
      end
  end.

Section Specifications.

Context {R : Type} {AR : Arith R}.
Variable ctx : context R.

(** The value of [random.uniform(a, b)] at position [pos] of the random
    stream. *)
Definition uniform_at (a b : R) (pos : nat) : R :=
  radd a (rmul (rsub b a) (draws ctx pos)).

Definition reading_at (sid : Z) (pos : nat) : reading R :=
  mkReading sid
            (uniform_at (lit 5) (lit 18) pos)
            (uniform_at (lit 12) (lit 24) (pos + 1))
            (uniform_at (lit 30) (lit 60) (pos + 2))
            (uniform_at (lit 400) (lit 1600) (pos + 3)).

(** The readings the loop makes for [ids] from position [pos]. *)
Fixpoint readings_at (ids : list Z) (pos : nat) : list (reading R) :=
  match ids with
  | [] => []
  | sid :: ids' => reading_at sid pos :: readings_at ids' (pos + 4)
  end.

(** The readings and the rows of one ingestion call started in [w]. *)
Definition batch_readings (w : world R) : list (reading R) :=
  readings_at (range 1 (num_sensors + 1)) (rand_pos w).

Definition batch_rows (w : world R) : list (row R) :=
  map (insert_params (clock ctx (clock_reads w))) (batch_readings w).

(** Some call of the insert path raises: the store is unreachable, an
    INSERT fails or the commit does. *)
Definition insert_path_fails : Prop :=
  faults ctx Connect <> None
  \/ faults ctx Cursor <> None
  \/ (exists i, (i < 20)%nat /\ faults ctx (Execute i) <> None)
  \/ faults ctx Commit <> None.

(** The text of the first error that [stats_http] meets, if any. *)
Definition stats_error : option string :=
  match environ ctx CONNECTION_KEY with
  | None => Some (str_of_exn (KeyError CONNECTION_KEY))
  | Some _ =>
      match faults ctx Connect with
      | Some msg => Some msg
      | None =>
          match faults ctx Cursor with
          | Some msg => Some msg
          | None =>
              match faults ctx Select with
              | Some msg => Some msg
              | None => faults ctx Fetchall
              end
          end
      end
  end.

(** The rows of sensor [k], in the order of the table. *)
Definition rows_of_sensor (k : Z) (t : list (row R)) : list (row R) :=
  filter (fun r => (SensorId r =? k)%Z) t.

(** The ingestion goes through: the connection string is configured and
    no call of the insert path raises. *)
Definition ingestion_succeeds : bool :=
  match environ ctx CONNECTION_KEY, ingest_fault (faults ctx) 20 with
  | Some _, None => true
  | _, _ => false
  end.

End Specifications.

(** The bounds of the four metrics, and what it is for a reading to be
    within them (exact arithmetic). *)
Definition in_range (lo hi : Z) (x : Q) : Prop :=
  inject_Z lo <= x /\ x <= inject_Z hi.

Definition reading_in_range (r : reading Q) : Prop :=
  in_range 5 18 (temperature r)
  /\ in_range 12 24 (wind r)
  /\ in_range 30 60 (humidity r)
  /\ in_range 400 1600 (co2 r).

(** The same bounds in binary64. *)
Definition in_range64 (lo hi : Z) (x : float) : bool :=
  PrimFloat.leb (lit lo) x && PrimFloat.leb x (lit hi).

Definition reading_in_range64 (r : reading float) : bool :=
  in_range64 5 18 (temperature r)
  && in_range64 12 24 (wind r)
  && in_range64 30 60 (humidity r)
  && in_range64 400 1600 (co2 r).

(** [min <= avg <= max] for the four metrics of one element of the
    statistics, in exact arithmetic and in binary64. *)
Definition stats_ordered (s : sensor_stats Q) : Prop :=
  (temperature_min s <= temperature_avg s <= temperature_max s)
  /\ (wind_min s <= wind_avg s <= wind_max s)
  /\ (humidity_min s <= humidity_avg s <= humidity_max s)
  /\ (co2_min s <= co2_avg s <= co2_max s).

Definition stats_ordered64 (s : sensor_stats float) : bool :=
  (PrimFloat.leb (temperature_min s) (temperature_avg s)
   && PrimFloat.leb (temperature_avg s) (temperature_max s))
  && (PrimFloat.leb (wind_min s) (wind_avg s)
      && PrimFloat.leb (wind_avg s) (wind_max s))
  && (PrimFloat.leb (humidity_min s) (humidity_avg s)
      && PrimFloat.leb (humidity_avg s) (humidity_max s))
  && (PrimFloat.leb (co2_min s) (co2_avg s)
      && PrimFloat.leb (co2_avg s) (co2_max s)).

(** ** The order of the binary64 values

    The comparisons of binary64 do not round.  A value that is not NaN has
    a place in the order given by its class (infinities, negative, zero,
    positive), then its exponent and its mantissa. *)

Definition rank (x : spec_float) : Z * Z * Z :=
  match x with
  | S754_nan => (0, 0, 0)
  | S754_zero _ => (0, 0, 0)
  | S754_infinity true => (-2, 0, 0)
  | S754_infinity false => (2, 0, 0)
  | S754_finite true m e => (-1, - e, Z.neg m)
  | S754_finite false m e => (1, e, Z.pos m)
  end%Z.

Definition rank_lt (a b : Z * Z * Z) : Prop :=
  let '(a1, a2, a3) := a in
  let '(b1, b2, b3) := b in
  (a1 < b1 \/ (a1 = b1 /\ (a2 < b2 \/ (a2 = b2 /\ a3 < b3))))%Z.

Definition rank_le (a b : Z * Z * Z) : Prop := rank_lt a b \/ a = b.

(** The value is a number. *)
Definition number (x : float) : Prop := PrimFloat.is_nan x = false.

(** The four metrics of a row are numbers: a FLOAT column holds no NaN. *)
Definition row_of_numbers (r : row float) : Prop :=
  number (Temperature r) /\ number (WindSpeed r)
  /\ number (Humidity r) /\ number (CO2 r).

(** [min <= max] for the four metrics, in binary64. *)
Definition min_le_max64 (s : sensor_stats float) : Prop :=
  PrimFloat.leb (temperature_min s) (temperature_max s) = true
  /\ PrimFloat.leb (wind_min s) (wind_max s) = true
  /\ PrimFloat.leb (humidity_min s) (humidity_max s) = true
  /\ PrimFloat.leb (co2_min s) (co2_max s) = true.

(** ** Rounding in binary64

    An operation of binary64 returns its exact result rounded to the
    nearest value of the format, ties to even (SpecFloat's
    [binary_round_aux]).  The definitions below serve to bound such a
    result by values of the format. *)

(** The value that the rounding returns for the mantissa [q] and the
    exponent [e] it ends with. *)
Definition round_result (q e : Z) : spec_float :=
  match q with
  | Z0 => S754_zero false
  | Zpos p =>
      if (e <=? emax - prec)%Z
      then S754_finite false p e
      else S754_infinity false
  | Zneg _ => S754_nan
  end.

(** The number [m * 2^e] counted in units of [2^-1200], an integer for
    every exponent met here: numbers with different exponents are
    compared through it. *)
Definition scaled (m e : Z) : Z := (m * 2 ^ (e + 1200))%Z.

(** [y] is zero, or positive and at most [mD * 2^eD]: what the product of
    the positive value [mD * 2^eD] and an output of [random.random()]
    is. *)
Definition small_product (mD : positive) (eD : Z) (y : float) : Prop :=
  (exists s, Prim2SF y = S754_zero s)
  \/ (exists p E, Prim2SF y = S754_finite false p E
                  /\ (scaled (Zpos p) E <= scaled (Zpos mD) eD)%Z).

(** The arguments of [random.uniform(a, b)]: [a], [D = b - a] and [b] are
    positive values of binary64 with [a + D = b] exactly, as it is for the
    literals of the four metrics. *)
Definition range_constants (a D b : float) : bool :=
  match Prim2SF a, Prim2SF D, Prim2SF b with
  | S754_finite false ma ea, S754_finite false mD eD,
    S754_finite false mb eb =>
      ((-100 <=? ea) && (ea <=? eb) && (-100 <=? eD)
       && (scaled (Zpos ma) ea + scaled (Zpos mD) eD
           =? scaled (Zpos mb) eb))%Z
  | _, _, _ => false
  end.

(** ** Invariants of the concurrent runs *)

(** No call of the invocation raises. *)
Definition fault_free {R} (v : invocation R) : Prop :=
  forall c, inv_faults v c = None.

(** The transaction of an invocation holds the rows of its batch that it
    has inserted so far. *)
Definition consistent {R} (v : invocation R) : Prop :=
  match inv_pc v with
  | AtConnect | AtCursor => inv_txn v = []
  | AtExecute _ todo => inv_txn v ++ todo = inv_batch v
  | AtClose | Finished => True
  end.

(** The rows that a fault-free invocation has yet to commit: its batch,
    until the commit. *)
Definition to_commit {R} (v : invocation R) : list (row R) :=
  match inv_pc v with
  | AtConnect | AtCursor | AtExecute _ _ => inv_batch v
  | AtClose | Finished => []
  end.

(** [n] calls in a row of the same invocation. *)
Fixpoint steps_alone {R} (n : nat) (t : list (row R)) (v : invocation R)
  : list (row R) * invocation R :=
  match n with
  | O => (t, v)
  | S n' => let (t', v') := step_invocation t v in steps_alone n' t' v'
  end.

(** The groups of a table: one per sensor of the table, each holding the
    rows of its sensor in the order of the table. *)
Definition groups_of {R} (t : list (row R)) (gs : list (group (R := R)))
  : Prop :=
  NoDup (map fst gs)
  /\ (forall k, In k (map fst gs) <-> In k (map (@SensorId R) t))
  /\ (forall k r0 rs, In (k, (r0, rs)) gs -> r0 :: rs = rows_of_sensor k t).

(** What every concurrent run of fault-free invocations started with the
    table [t0] and the batches [batches] keeps true: the table together
    with the batches yet to be committed holds the rows of [t0] and of all
    the batches. *)
Definition invariant {R} (t0 : list (row R)) (batches : list (list (row R)))
  (s : system R) : Prop :=
  Forall (@fault_free R) (snd s)
  /\ Forall (@consistent R) (snd s)
  /\ map (@inv_batch R) (snd s) = batches
  /\ Permutation (fst s ++ List.concat (map (@to_commit R) (snd s)))
                 (t0 ++ List.concat batches).

(** ** Concrete contexts and worlds *)

(** An environment in which the connection string is set. *)
Definition configured (key : string) : option string :=
  if String.eqb key CONNECTION_KEY
  then Some "Server=tcp:sensors;Database=readings"%string
  else None.

Definition no_faults (c : db_call) : option string := None.

(** The store cannot be reached: [pyodbc.connect] raises. *)
Definition unreachable (c : db_call) : option string :=
  match c with
  | Connect => Some "08001 Login timeout expired"%string
  | _ => None
  end.

(** A world with an empty table, before any call. *)
Definition empty_world {R : Type} : world R := mkWorld [] None 0 0 [].

(** Exact arithmetic, every output of [random.random()] equal to 1/2. *)
Definition ctx_half : context Q :=
  mkContext configured (fun _ => 1 # 2) (fun n => Z.of_nat n) no_faults.

Definition ctx_half_unreachable : context Q :=
  mkContext configured (fun _ => 1 # 2) (fun n => Z.of_nat n) unreachable.

(** [random.random()] returns a multiple of 2^-53 below 1; this is the
    output [k / 2^53]. *)
Definition random_output (k : Z) : float :=
  PrimFloat.div (lit k) (lit (2 ^ 53)).

(** Binary64, every output of [random.random()] equal to
    (2^52 + 2) / 2^53 = 0.5000000000000002, for which
    [random.uniform(5.0, 18.0)] is 11.500000000000004. *)
Definition ctx_rounding : context float :=
  mkContext configured (fun _ => random_output (2 ^ 52 + 2))
            (fun n => Z.of_nat n) no_faults.

(** Binary64, every output of [random.random()] the least one, 0, and
    the greatest one, 1 - 2^-53. *)
Definition ctx_least : context float :=
  mkContext configured (fun _ => random_output 0) (fun n => Z.of_nat n)
            no_faults.

Definition ctx_greatest : context float :=
  mkContext configured (fun _ => random_output (2 ^ 53 - 1))
            (fun n => Z.of_nat n) no_faults.

(** The world after three calls of [generate_http] from the empty world. *)
Definition three_batches : world float :=
  snd (generate_http ctx_rounding
         (snd (generate_http ctx_rounding
                 (snd (generate_http ctx_rounding empty_world))))).

(** Two batches of two rows each, and a schedule that interleaves the
    six calls of the two invocations that insert them. *)
Definition two_batches : list (list (row Q)) :=
  [[mkRow 1 10 12 30 400 7; mkRow 2 11 13 31 401 7];
   [mkRow 1 12 14 32 402 8; mkRow 2 13 15 33 403 8]].

Definition interleaved : list nat :=
  [0; 1; 1; 0; 0; 1; 0; 1; 1; 0; 0; 1]%nat.

(** ** stats_sql_trigger *)

Section Trigger.

Context {R : Type} {AR : Arith R}.
Variable ctx : context R.

(** [json.dumps] of the list [results]. *)
Variable json_dumps : list (sensor_stats R) -> string.

(** The handler of the change notifications.  Its argument [changes] is
    not read.  The lookup of the connection string is inside the [try]
    statement, and the [finally] clause is that of the ingestion
    handlers. *)
Definition stats_sql_trigger (changes : string) : M R unit :=
  log (Info "SQL trigger fired for SensorReadings. Recomputing statistics..."
            []) ;;
  try_finally
    (try_except
       (connection_string <- os_environ ctx CONNECTION_KEY ;;
        pyodbc_connect ctx connection_string ;;
        conn_cursor ctx ;;
        rows <- cursor_select_stats ctx ;;
        log (Info "Statistics (triggered automatically): %s"
                  [ArgStr (json_dumps (map format_row rows))]))
       (fun e =>
          log (Error "SQL trigger statistics error: %s"
                     [ArgStr (str_of_exn e)])))
    (close_quietly ctx).

End Trigger.

(** ** Firings of the triggers, one after the other *)

(** One firing of a trigger: a request to /generate, a request to /stats,
    a tick of the timer, a change notification. *)
Inductive firing : Type :=
| GenerateHttp
| StatsHttp
| GenerateTimer
| StatsSqlTrigger (changes : string).

Section Firings.

Context {R : Type} {AR : Arith R}.
Variable json_dumps : list (sensor_stats R) -> string.

(** The world a firing leaves, whatever its handler returns or raises.
    Each firing comes with the context it meets. *)
Definition fire (cf : context R * firing) (w : world R) : world R :=
  match snd cf with
  | GenerateHttp => snd (generate_http (fst cf) w)
  | StatsHttp => snd (stats_http (fst cf) w)
  | GenerateTimer => snd (generate_timer (fst cf) w)
  | StatsSqlTrigger changes =>
      snd (stats_sql_trigger (fst cf) json_dumps changes w)
  end.

Definition fire_all (cfs : list (context R * firing)) (w : world R)
  : world R :=
  fold_left (fun w' cf => fire cf w') cfs w.

(** The firing is one of an ingestion handler and its ingestion goes
    through. *)
Definition ingests (cf : context R * firing) : bool :=
  match snd cf with
  | GenerateHttp | GenerateTimer => ingestion_succeeds (fst cf)
  | StatsHttp | StatsSqlTrigger _ => false
  end.

End Firings.

(** The element of the statistics of a sensor that has the single row of
    the reading [r]: each minimum and maximum is the value of [r], each
    mean that value divided by one. *)
Definition stats_of_reading {R} {AR : Arith R} (r : reading R)
  : sensor_stats R :=
  mkStats (sensor_id r)
          (temperature r) (temperature r) (rdiv (temperature r) (lit 1))
          (wind r) (wind r) (rdiv (wind r) (lit 1))
          (humidity r) (humidity r) (rdiv (humidity r) (lit 1))
          (co2 r) (co2 r) (rdiv (co2 r) (lit 1)).

(** Some row of sensor [k] in [t] has the value [v] in the column [col]. *)
Definition attained {R} (col : row R -> R) (v : R) (k : Z) (t : list (row R))
  : Prop :=
  exists r, In r t /\ SensorId r = k /\ col r = v.

(** Every minimum and maximum of the element [s] is the value of a row of
    its sensor. *)
Definition extremes_attained {R} (t : list (row R)) (s : sensor_stats R)
  : Prop :=
  attained (@Temperature R) (temperature_min s) (stats_sensor_id s) t
  /\ attained (@Temperature R) (temperature_max s) (stats_sensor_id s) t
  /\ attained (@WindSpeed R) (wind_min s) (stats_sensor_id s) t
  /\ attained (@WindSpeed R) (wind_max s) (stats_sensor_id s) t
  /\ attained (@Humidity R) (humidity_min s) (stats_sensor_id s) t
  /\ attained (@Humidity R) (humidity_max s) (stats_sensor_id s) t
  /\ attained (@CO2 R) (co2_min s) (stats_sensor_id s) t
  /\ attained (@CO2 R) (co2_max s) (stats_sensor_id s) t.

(** Only [conn.close()] raises. *)
Definition close_fails (c : db_call) : option string :=
  match c with
  | Close => Some "08S01 Communication link failure"%string
  | _ => None
  end.

Definition ctx_half_close_fails : context Q :=
  mkContext configured (fun _ => 1 # 2) (fun n => Z.of_nat n) close_fails.

(** An environment without the connection string. *)
Definition not_configured (key : string) : option string := None.

Definition ctx_half_not_configured : context Q :=
  mkContext not_configured (fun _ => 1 # 2) (fun n => Z.of_nat n) no_faults.

(** The sensor and the timestamp of a row. *)
Definition sensor_and_time {R} (r : row R) : Z * Z :=
  (SensorId r, ReadingTimeUtc r).

(** The handler calls [datetime.datetime.now]: the two ingestion handlers
    do, once and before anything that can raise; the statistics handlers
    do not. *)
Definition reads_clock (f : firing) : bool :=
  match f with
  | GenerateHttp | GenerateTimer => true
  | StatsHttp | StatsSqlTrigger _ => false
  end.

(** The number of clock readings of a sequence of firings. *)
Definition clock_readings {R} (cfs : list (context R * firing)) : nat :=
  List.length (filter (fun cf => reads_clock (snd cf)) cfs).

(** ** Concurrent invocations of which some fail *)

Definition raises_nothing (o : option string) : bool :=
  match o with
  | None => true
  | Some _ => false
  end.

(** The invocation has yet to commit and none of the calls it makes until
    then, the commit included, raises. *)
Definition will_commit {R} (v : invocation R) : bool :=
  match inv_pc v with
  | AtConnect =>
      raises_nothing (ingest_fault (inv_faults v) (List.length (inv_batch v)))
  | AtCursor =>
      raises_nothing (inv_faults v Cursor)
      && raises_nothing (execute_fault (inv_faults v) 0
                                       (List.length (inv_batch v)))
      && raises_nothing (inv_faults v Commit)
  | AtExecute i todo =>
      raises_nothing (execute_fault (inv_faults v) i (List.length todo))
      && raises_nothing (inv_faults v Commit)
  | AtClose | Finished => false
  end.

(** The batches of the invocations that will commit. *)
Definition pending_batches {R} (vs : list (invocation R))
  : list (list (row R)) :=
  map (@inv_batch R) (filter (@will_commit R) vs).

(** Concurrent calls of the ingestion handlers, each with the pyodbc calls
    that raise for it and the rows of its batch. *)
Definition starts {R} (calls : list ((db_call -> option string) * list (row R)))
  : list (invocation R) :=
  map (fun c => start (fst c) (snd c)) calls.

(** The batches of the calls for which no call of the insert path
    raises. *)
Definition committing {R}
  (calls : list ((db_call -> option string) * list (row R)))
  : list (list (row R)) :=
  map snd (filter (fun c => raises_nothing
                              (ingest_fault (fst c) (List.length (snd c))))
                  calls).

(** What every concurrent run keeps true: the table is the initial table
    followed by whole batches, which with the batches of the invocations
    that will commit are the batches of the calls that meet no failure. *)
Definition whole_batches {R} (t0 : list (row R))
  (calls : list ((db_call -> option string) * list (row R)))
  (s : system R) : Prop :=
  Forall (@consistent R) (snd s)
  /\ exists bs,
       fst s = t0 ++ List.concat bs
       /\ Permutation (bs ++ pending_batches (snd s)) (committing calls).

(** The next call of the invocation is [conn.commit()], and it does not
    raise. *)
Definition commits_next {R} (v : invocation R) : bool :=
  match inv_pc v with
  | AtExecute _ [] => raises_nothing (inv_faults v Commit)
  | _ => false
  end.

(** The batches committed in the course of the schedule [sched] from the
    system [s], in the order of the commits: whenever the scheduler lets
    an invocation make a commit that does not raise, the batch of this
    invocation comes next. *)
Fixpoint committed_batches {R} (sched : list nat) (s : system R)
  : list (list (row R)) :=
  match sched with
  | [] => []
  | i :: sched' =>
      match nth_error (snd s) i with
      | Some v => if commits_next v then [inv_batch v] else []
      | None => []
      end ++ committed_batches sched' (schedule_step s i)
  end.

(** The commit raises, after every INSERT has gone through. *)
Definition commit_fails (c : db_call) : option string :=
  match c with
  | Commit => Some "40001 Transaction was deadlocked"%string
  | _ => None
  end.

(** Two concurrent calls with the batches of [two_batches]: the commit of
    the first one raises, the second one meets no failure. *)
Definition two_calls : list ((db_call -> option string) * list (row Q)) :=
  combine [commit_fails; no_faults] two_batches.

(** ** Statistics and the order of the rows *)

(** Two elements of the statistics are for the same sensor and have equal
    numbers ([==] of the rationals: the same value, whatever the
    fraction that writes it). *)
Definition stats_eq (s1 s2 : sensor_stats Q) : Prop :=
  stats_sensor_id s1 = stats_sensor_id s2
  /\ temperature_min s1 == temperature_min s2
  /\ temperature_max s1 == temperature_max s2
  /\ temperature_avg s1 == temperature_avg s2
  /\ wind_min s1 == wind_min s2
  /\ wind_max s1 == wind_max s2
  /\ wind_avg s1 == wind_avg s2
  /\ humidity_min s1 == humidity_min s2
  /\ humidity_max s1 == humidity_max s2
  /\ humidity_avg s1 == humidity_avg s2
  /\ co2_min s1 == co2_min s2
  /\ co2_max s1 == co2_max s2
  /\ co2_avg s1 == co2_avg s2.

(** The three aggregates of a column are equal numbers. *)
Definition aggregates_eq (a b : Q * Q * Q) : Prop :=
  fst (fst a) == fst (fst b) /\ snd (fst a) == snd (fst b) /\ snd a == snd b.

(** Two concurrent calls with the batches of [two_batches] that meet no
    failure, and the schedule that runs one after the other. *)
Definition two_calls_through
  : list ((db_call -> option string) * list (row Q)) :=
  combine [no_faults; no_faults] two_batches.

Definition one_after_the_other : list nat :=
  sequential_schedule 0 [2; 2]%nat.

(** Concurrent calls of the ingestion handlers, each given by its context
    and the world in which it has generated its readings and read the
    clock: the pyodbc calls that raise for it and the rows of its
    batch. *)
Definition ingestion_calls {R} {AR : Arith R}
  (cs : list (context R * world R))
  : list ((db_call -> option string) * list (row R)) :=
  map (fun c => (faults (fst c), batch_rows (fst c) (snd c))) cs.

(** * The load harness, parallel_test.py *)

(** ** Config *)

Definition FUNCTION_URL : string :=
  "https://cwk-gsb3hrhjgxf9h3cr.italynorth-01.azurewebsites.net/api/generate".

Definition WORKLOADS : list Z :=
  [1; 2; 5;
   10; 20; 30; 40; 50;
   75; 100; 150; 200; 250; 300; 350; 400; 500; 650; 700]%Z.

Definition SENSORS_PER_READING : Z := 20.
Definition WARMUP_CALLS : Z := 15.

(** ** Data of the harness *)

(** What [await client.get(FUNCTION_URL, timeout=120.0)] does: it returns
    a response, raises [httpx.ReadTimeout], or raises another exception
    of class [Exception], of which the code reads the name of the type. *)
Inductive get_outcome : Type :=
| Responds (status_code : Z)
| RaisesReadTimeout
| RaisesException (type_name : string).

(** [tps] is a float, or the int 0. *)
Inductive py_number (R : Type) : Type :=
| PyInt (z : Z)
| PyFloat (x : R).

Arguments PyInt {R} z.

(** The parts of an f-string. *)
Inductive piece (R : Type) : Type :=
| PStr (s : string)          (* text, or [{s}] of a str *)
| PInt (z : Z)               (* [{z}] of an int *)
| PFixed2 (x : py_number R).    (* [{x:.2f}] *)

Arguments PStr {R} s.
Arguments PInt {R} z.

(** The tuple that [run_test] returns: [duration],
    [total_successful_readings], [tps], [fail_count]. *)
Definition metrics (R : Type) : Type := (R * Z * py_number R * Z)%type.

(** [(num_calls,) + metrics] *)
Definition summary_line (R : Type) : Type :=
  (Z * R * Z * py_number R * Z)%type.

(** An argument of [print]. *)
Inductive printed (R : Type) : Type :=
| FString (pieces : list (piece R))
| TupleLine (line : summary_line R).

(** The calls of matplotlib, with the data they are given. *)
Inductive plt_call (R : Type) : Type :=
| PltFigure (width height : Z)
| PltPlot (xs : list Z) (ys : list (py_number R))
| PltTitle (s : string)
| PltXlabel (s : string)
| PltYlabel (s : string)
| PltGrid
| PltTightLayout
| PltShow.

Arguments PltFigure {R} width height.
Arguments PltTitle {R} s.
Arguments PltXlabel {R} s.
Arguments PltYlabel {R} s.
Arguments PltGrid {R}.
Arguments PltTightLayout {R}.
Arguments PltShow {R}.

(** What the harness runs against: the outcomes of its requests, in the
    order in which it sends them, and the successive values of
    [time.time()]. *)
Record harness (R : Type) : Type := mkHarness {
  get_outcomes : nat -> get_outcome;
  time_time    : nat -> R
}.

(** The state of a run of the harness. *)
Record bench (R : Type) : Type := mkBench {
  sent       : nat;                  (* requests sent *)
  time_reads : nat;                  (* calls of time.time() made *)
  stdout     : list (printed R);
  sleeps     : list Z;               (* the arguments of asyncio.sleep *)
  plt        : list (plt_call R)
}.

Definition newline : string := String (Ascii.ascii_of_nat 10) EmptyString.

(** [str(z)] of an int, as an f-string formats it. *)
Definition str_of_int (z : Z) : string :=
  DecimalString.NilZero.string_of_int (Z.to_int z).

(** [collections.Counter]: a dict from the elements to their counts, in
    the order in which the elements are met first. *)
Fixpoint counter_add (x : string) (counts : list (string * Z))
  : list (string * Z) :=
  match counts with
  | [] => [(x, 1%Z)]
  | (y, n) :: counts' =>
      if String.eqb y x
      then (y, (n + 1)%Z) :: counts'
      else (y, n) :: counter_add x counts'
  end.

Definition Counter (results : list string) : list (string * Z) :=
  fold_left (fun counts x => counter_add x counts) results [].

(** [counts.get(key, default)] *)
Fixpoint counts_get (counts : list (string * Z)) (key : string) (default : Z)
  : Z :=
  match counts with
  | [] => default
  | (k, n) :: counts' =>
      if String.eqb k key then n else counts_get counts' key default
  end.

(** [results.count(x)] *)
Definition list_count (results : list string) (x : string) : Z :=
  Z.of_nat (count_occ string_dec results x).

Section Harness.

Context {R : Type} {AR : Arith R}.
Variable h : harness R.

Definition print (l : printed R) (b : bench R) : bench R :=
  mkBench (sent b) (time_reads b) (stdout b ++ [l]) (sleeps b) (plt b).

(** [time.time()] *)
Definition time_now (b : bench R) : R * bench R :=
  (time_time h (time_reads b),
   mkBench (sent b) (S (time_reads b)) (stdout b) (sleeps b) (plt b)).

(** [await client.get(url, timeout=120.0)] *)
Definition client_get (url : string) (b : bench R) : get_outcome * bench R :=
  (get_outcomes h (sent b),
   mkBench (S (sent b)) (time_reads b) (stdout b) (sleeps b) (plt b)).

(** [await asyncio.sleep(seconds)] *)
Definition asyncio_sleep (seconds : Z) (b : bench R) : bench R :=
  mkBench (sent b) (time_reads b) (stdout b) (sleeps b ++ [seconds]) (plt b).

Definition plt_do (c : plt_call R) (b : bench R) : bench R :=
  mkBench (sent b) (time_reads b) (stdout b) (sleeps b) (plt b ++ [c]).

(** ** call_function *)

Definition call_function (b : bench R) : string * bench R :=
  match client_get FUNCTION_URL b with
  | (Responds status_code, b') =>
      if (status_code =? 200)%Z
      then ("Success"%string, b')
      else (("Fail_HTTP_" ++ str_of_int status_code)%string, b')
  | (RaisesReadTimeout, b') => ("Fail_Timeout"%string, b')
  | (RaisesException type_name, b') =>
      (("Fail_Error_" ++ type_name)%string, b')
  end.

(** [results = await asyncio.gather] of the [n] tasks
    [call_function(client)]: the results come in the order of the tasks,
    and a task sends its request when it is started, in this order. *)
Fixpoint gather (n : nat) (b : bench R) : list string * bench R :=
  match n with
  | O => ([], b)
  | S n' =>
      let (r, b1) := call_function b in
      let (rs, b2) := gather n' b1 in
      (r :: rs, b2)
  end.

(** ** run_test *)

(** [for reason, count in counts.items(): if reason != "Success": print(...)] *)
Fixpoint print_failure_details (items : list (string * Z)) (b : bench R)
  : bench R :=
  match items with
  | [] => b
  | (reason, count) :: items' =>
      print_failure_details items'
        (if negb (String.eqb reason "Success")
         then print (FString [PStr "  - "; PStr reason; PStr ": ";
                              PInt count; PStr " times"]) b
         else b)
  end.

(** [range(num_calls)] is empty for a negative [num_calls]. *)
Definition run_test (num_calls : Z) (b : bench R) : metrics R * bench R :=
  let b := print (FString [PStr (newline ++ "Running PARALLEL test: ");
                           PInt num_calls; PStr " concurrent calls"]) b in
  let (start, b) := time_now b in
  let (results, b) := gather (Z.to_nat num_calls) b in
  let (end_, b) := time_now b in
  let duration := rsub end_ start in
  let counts := Counter results in
  let success_count := counts_get counts "Success" 0 in
  let fail_count := (num_calls - success_count)%Z in
  let b := print (FString [PStr "Duration: "; PFixed2 (PyFloat duration);
                           PStr " seconds"]) b in
  let b := print (FString [PStr "Total Succeeded: "; PInt success_count]) b in
  let b := print (FString [PStr "Total Failed: "; PInt fail_count]) b in
  let b := if (0 <? fail_count)%Z
           then print_failure_details counts
                  (print (FString [PStr "Failure Details:"]) b)
           else b in
  let total_successful_readings := (success_count * SENSORS_PER_READING)%Z in
  let tps := if rltb (lit 0) duration
             then PyFloat (rdiv (lit total_successful_readings) duration)
             else PyInt 0 in
  let b := print (FString [PStr "Throughput (successful): "; PFixed2 tps;
                           PStr " readings/sec"]) b in
  ((duration, total_successful_readings, tps, fail_count), b).

(** ** warmup *)

Definition warmup (b : bench R) : bench R :=
  let b := print (FString [PStr (newline ++ "   Warmup Phase")]) b in
  let (start, b) := time_now b in
  let (results, b) := gather (Z.to_nat WARMUP_CALLS) b in
  let (end_, b) := time_now b in
  print (FString [PStr "Warmup completed ("; PInt WARMUP_CALLS;
                  PStr " calls, "; PInt (list_count results "Success");
                  PStr " succeeded, "; PFixed2 (PyFloat (rsub end_ start));
                  PStr ("s)" ++ newline)]) b.

(** ** main *)

(** [for num_calls in workloads: ...], with the three lists it appends
    to. *)
Fixpoint main_loop (workloads : list Z) (summary : list (summary_line R))
  (throughputs : list (py_number R)) (conc_levels : list Z) (b : bench R)
  : (list (summary_line R) * list (py_number R) * list Z) * bench R :=
  match workloads with
  | [] => ((summary, throughputs, conc_levels), b)
  | num_calls :: workloads' =>
      let (m, b) := run_test num_calls b in
      let '(duration, total_successful_readings, tps, fail_count) := m in
      let conc_levels := conc_levels ++ [num_calls] in
      let throughputs := throughputs ++ [tps] in
      let summary :=
        summary ++ [(num_calls, duration, total_successful_readings, tps,
                     fail_count)] in
      let b := asyncio_sleep 1 b in
      main_loop workloads' summary throughputs conc_levels b
  end.

(** [for line in summary: print(line)] *)
Definition print_summary (summary : list (summary_line R)) (b : bench R)
  : bench R :=
  fold_left (fun b' line => print (TupleLine line) b') summary b.

Definition main (b : bench R) : bench R :=
  let b := print (FString [PStr "     Starting Parallel Scalability Test"]) b in
  let b := print (FString [PStr "Target URL: "; PStr FUNCTION_URL]) b in
  let b := warmup b in
  let '((summary, throughputs, conc_levels), b) :=
    main_loop WORKLOADS [] [] [] b in
  let b := print (FString [PStr (newline ++ "   Summary (concurrency, duration, total_readings, tps, fails) ---")]) b in
  let b := print_summary summary b in
  let b := plt_do (PltFigure 9 5) b in
  let b := plt_do (PltPlot conc_levels throughputs) b in
  let b := plt_do (PltTitle ("Azure Function Scalability" ++ newline
                             ++ "Throughput vs Concurrent Requests")) b in
  let b := plt_do (PltXlabel "Concurrent Requests") b in
  let b := plt_do (PltYlabel "Throughput (readings/sec)") b in
  let b := plt_do PltGrid b in
  let b := plt_do PltTightLayout b in
  let b := plt_do PltShow b in
  print (FString [PStr (newline ++ "    Test Complete")]) b.

End Harness.

(** ** Functions used to state what the harness does *)

(** The label that [call_function] returns for an outcome. *)
Definition label (o : get_outcome) : string :=
  match o with
  | Responds status_code =>
      if (status_code =? 200)%Z then "Success"
      else "Fail_HTTP_" ++ str_of_int status_code
  | RaisesReadTimeout => "Fail_Timeout"
  | RaisesException type_name => "Fail_Error_" ++ type_name
  end.

(** The outcomes of the [n] requests sent from the request [from] on. *)
Definition outcomes_from {R} (h : harness R) (from n : nat)
  : list get_outcome :=
  map (get_outcomes h) (seq from n).

Definition answers_200 (o : get_outcome) : bool :=
  match o with
  | Responds status_code => (status_code =? 200)%Z
  | _ => false
  end.

(** The number of requests answered with status 200 among the [n]
    requests sent from the request [from] on. *)
Definition successes {R} (h : harness R) (from n : nat) : Z :=
  Z.of_nat (List.length (filter answers_200 (outcomes_from h from n))).

(** The line of the failure details for a reason and its count. *)
Definition detail_line {R} (item : string * Z) : printed R :=
  FString [PStr "  - "; PStr (fst item); PStr ": "; PInt (snd item);
           PStr " times"].

(** The items of a Counter other than the one of [key]. *)
Definition others (key : string) (c : list (string * Z)) : list (string * Z) :=
  filter (fun item => negb (String.eqb (fst item) key)) c.

Definition sum_counts (items : list (string * Z)) : Z :=
  fold_right Z.add 0%Z (map snd items).

(** The components of a line of the summary. *)
Definition line_num_calls {R} (l : summary_line R) : Z :=
  let '(num_calls, _, _, _, _) := l in num_calls.

Definition line_tps {R} (l : summary_line R) : py_number R :=
  let '(_, _, _, tps, _) := l in tps.

(** The line accounts for every call of its run: twenty readings for
    each call that is not counted as failed. *)
Definition line_accounts {R} (l : summary_line R) : Prop :=
  let '(num_calls, _, total_successful_readings, _, fail_count) := l in
  (total_successful_readings + 20 * fail_count = 20 * num_calls)%Z
  /\ (0 <= fail_count <= num_calls)%Z.

(** The requests that the runs of [workloads] send. *)
Definition requests_of (workloads : list Z) : nat :=
  fold_right Nat.add 0%nat (map Z.to_nat workloads).

(** A harness in exact arithmetic: every third request is answered 200,
    the next one 500, the next one times out; the clock advances by 2
    seconds from one reading to the next. *)
Definition harness_thirds : harness Q :=
  mkHarness (fun i => match Nat.modulo i 3 with
                      | O => Responds 200
                      | 1%nat => Responds 500
                      | _ => RaisesReadTimeout
                      end)
            (fun n => inject_Z (2 * Z.of_nat n)).

Definition empty_bench {R : Type} : bench R := mkBench 0 0 [] [] [].

(** * Properties *)

(** ** The handlers, run *)

Section HandlerFacts.

Context {R : Type} {AR : Arith R}.
Variable ctx : context R.

Lemma bind_ok {A B} (m : M R A) (k : A -> M R B) w a w' :
  m w = (Ok a, w') -> bind m k w = k a w'.
Proof. intros E; unfold bind; rewrite E; reflexivity. Qed.

Lemma bind_raise {A B} (m : M R A) (k : A -> M R B) w e w' :
  m w = (Raise e, w') -> bind m k w = (Raise e, w').
Proof. intros E; unfold bind; rewrite E; reflexivity. Qed.

Lemma fault_at_none c w :
  faults ctx c = None -> fault_at ctx c w = (Ok tt, w).
Proof. intros E; unfold fault_at; rewrite E; reflexivity. Qed.

Lemma fault_at_some c msg w :
  faults ctx c = Some msg -> fault_at ctx c w = (Raise (DbError msg), w).
Proof. intros E; unfold fault_at; rewrite E; reflexivity. Qed.

Lemma length_range lo hi : List.length (range lo hi) = Z.to_nat (hi - lo).
Proof. unfold range; rewrite length_map, length_seq; reflexivity. Qed.

Lemma length_readings_at ids pos :
  List.length (readings_at ctx ids pos) = List.length ids.
Proof.
  revert pos; induction ids as [|sid ids IH]; intros pos; simpl.
  - reflexivity.
  - rewrite IH; reflexivity.
Qed.

Lemma map_sensor_id_readings_at ids pos :
  map (@sensor_id R) (readings_at ctx ids pos) = ids.
Proof.
  revert pos; induction ids as [|sid ids IH]; intros pos; simpl.
  - reflexivity.
  - rewrite IH; reflexivity.
Qed.

Lemma length_batch_readings w : List.length (batch_readings ctx w) = 20%nat.
Proof. unfold batch_readings; rewrite length_readings_at; reflexivity. Qed.

Lemma length_batch_rows w : List.length (batch_rows ctx w) = 20%nat.
Proof. unfold batch_rows; rewrite length_map; apply length_batch_readings. Qed.

(** The loop of [generate_sensor_readings] never raises, appends the
    readings of [ids] and uses four random numbers for each. *)
Lemma readings_loop_run ids : forall acc w,
  readings_loop ctx ids acc w
  = (Ok (acc ++ readings_at ctx ids (rand_pos w)),
     mkWorld (table w) (txn w) (rand_pos w + 4 * List.length ids)
             (clock_reads w) (logs w)).
Proof.
  induction ids as [|sid ids IH]; intros acc w.
  - simpl. unfold ret. rewrite app_nil_r, Nat.add_0_r. destruct w; reflexivity.
  - cbn [readings_loop]. unfold bind at 1.
    unfold make_reading, random_uniform, random_random, bind, ret; cbn.
    rewrite IH; cbn.
    rewrite <- app_assoc; cbn.
    unfold reading_at, uniform_at.
    replace (rand_pos w + 1)%nat with (S (rand_pos w)) by lia.
    replace (rand_pos w + 2)%nat with (S (S (rand_pos w))) by lia.
    replace (rand_pos w + 3)%nat with (S (S (S (rand_pos w)))) by lia.
    replace (rand_pos w + 4)%nat with (S (S (S (S (rand_pos w))))) by lia.
    repeat f_equal. lia.
Qed.

Lemma generate_sensor_readings_run w :
  generate_sensor_readings ctx w
  = (Ok (batch_readings ctx w),
     mkWorld (table w) (txn w) (rand_pos w + 80) (clock_reads w) (logs w)).
Proof.
  unfold generate_sensor_readings; rewrite readings_loop_run.
  rewrite length_range; reflexivity.
Qed.

(** The loop of INSERTs: it stops at the first INSERT that raises; the
    table is not touched, and when none raises the transaction has
    received the rows of all the readings, in order. *)
Lemma insert_loop_run ts rs : forall i w p,
  txn w = Some p ->
  exists p',
    for_each (fun i r => cursor_execute_insert ctx i (insert_params ts r)) i rs w
    = (match execute_fault (faults ctx) i (List.length rs) with
       | Some msg => Raise (DbError msg)
       | None => Ok tt
       end,
       set_txn (Some p') w)
    /\ (execute_fault (faults ctx) i (List.length rs) = None
        -> p' = p ++ map (insert_params ts) rs).
Proof.
  induction rs as [|r rs IH]; intros i w p Hp.
  - exists p; split.
    + cbn. unfold ret, set_txn. rewrite <- Hp. destruct w; reflexivity.
    + intros _; cbn; rewrite app_nil_r; reflexivity.
  - cbn [for_each List.length execute_fault].
    unfold cursor_execute_insert at 1.
    destruct (faults ctx (Execute i)) as [msg|] eqn:F.
    + exists p; split; [|discriminate].
      unfold bind. rewrite (fault_at_some _ _ F).
      unfold set_txn. rewrite <- Hp. destruct w; reflexivity.
    + destruct (IH (S i) (set_txn (Some (p ++ [insert_params ts r])) w)
                   (p ++ [insert_params ts r]) eq_refl) as (p' & E & Hp').
      exists p'; split.
      * unfold bind at 1. unfold bind at 1. rewrite (fault_at_none _ _ F).
        rewrite Hp. exact E.
      * intros Hn. rewrite (Hp' Hn), <- app_assoc. reflexivity.
Qed.

(** The [finally] clause never raises and leaves no connection. *)
Lemma close_quietly_run w : close_quietly ctx w = (Ok tt, set_txn None w).
Proof.
  unfold close_quietly, try_except, conn_close.
  destruct (txn w) as [p|] eqn:Hp.
  - unfold fault_at. destruct (faults ctx Close); reflexivity.
  - unfold ret, set_txn. rewrite <- Hp. destruct w; reflexivity.
Qed.

(** The calls of the [try] block up to the commit, followed by [k]: either
    one of them raises, and the table is as before, or the rows of all the
    readings are committed and [k] runs. *)
Lemma try_block_run {A} (k : M R A) cs ts rs w :
  exists t',
    (pyodbc_connect ctx cs ;; conn_cursor ctx ;; insert_readings ctx ts rs ;;
     conn_commit ctx ;; k) w
    = match ingest_fault (faults ctx) (List.length rs) with
      | Some msg => (Raise (DbError msg), set_txn t' w)
      | None =>
          k (mkWorld (table w ++ map (insert_params ts) rs) (Some [])
                     (rand_pos w) (clock_reads w) (logs w))
      end.
Proof.
  unfold ingest_fault, pyodbc_connect, conn_cursor.
  destruct (faults ctx Connect) as [msg|] eqn:F1.
  { exists (txn w). unfold bind. rewrite (fault_at_some _ _ F1).
    unfold set_txn; destruct w; reflexivity. }
  destruct (faults ctx Cursor) as [msg|] eqn:F2.
  { exists (Some []). unfold bind. rewrite (fault_at_none _ _ F1).
    rewrite (fault_at_some _ _ F2). reflexivity. }
  destruct (insert_loop_run ts rs 0 (set_txn (Some []) w) eq_refl)
    as (p' & E & Hp').
  unfold insert_readings.
  destruct (execute_fault (faults ctx) 0 (List.length rs)) as [msg|] eqn:F3.
  { exists (Some p'). unfold bind. rewrite (fault_at_none _ _ F1).
    rewrite (fault_at_none _ _ F2). rewrite E. reflexivity. }
  rewrite (Hp' eq_refl) in E. cbn [app] in E.
  unfold conn_commit.
  destruct (faults ctx Commit) as [msg|] eqn:F4.
  { exists (Some (map (insert_params ts) rs)). unfold bind.
    rewrite (fault_at_none _ _ F1), (fault_at_none _ _ F2), E.
    rewrite (fault_at_some _ _ F4). reflexivity. }
  exists None. unfold bind.
  rewrite (fault_at_none _ _ F1), (fault_at_none _ _ F2), E.
  rewrite (fault_at_none _ _ F4). reflexivity.
Qed.

(** What [generate_http] returns and the world it leaves, case by case. *)
Lemma generate_http_run w :
  let ts := clock ctx (clock_reads w) in
  let l0 := logs w ++ [Info "HTTP trigger called to generate sensor data." []] in
  generate_http ctx w
  = match environ ctx CONNECTION_KEY with
    | None =>
        (Raise (KeyError CONNECTION_KEY),
         mkWorld (table w) (txn w) (rand_pos w + 80) (S (clock_reads w)) l0)
    | Some _ =>
        match ingest_fault (faults ctx) 20 with
        | Some msg =>
            (Ok (mkResponse 500 (Text ("Error inserting into SQL: " ++ msg))),
             mkWorld (table w) None (rand_pos w + 80) (S (clock_reads w))
                     (l0 ++ [Error "Error inserting into SQL: %s" [ArgStr msg]]))
        | None =>
            (Ok (mkResponse 200 (GenerateJson 20 ts (batch_readings ctx w))),
             mkWorld (table w ++ batch_rows ctx w) None (rand_pos w + 80)
                     (S (clock_reads w))
                     (l0 ++ [Info "Inserted %d rows into SensorReadings."
                                  [ArgNat 20]]))
        end
    end.
Proof.
  intros ts l0. unfold generate_http.
  unfold bind at 1. cbn [log].
  unfold bind at 1. rewrite generate_sensor_readings_run. cbn [table txn rand_pos clock_reads logs].
  unfold bind at 1. cbn [datetime_now table txn rand_pos clock_reads logs].
  fold ts. fold l0.
  unfold os_environ.
  destruct (environ ctx CONNECTION_KEY) as [cs|] eqn:Henv.
  2:{ reflexivity. }
  unfold bind at 1. unfold ret at 1.
  unfold bind at 1. unfold try_finally, try_except.
  match goal with
  | |- context [ (pyodbc_connect ctx cs ;; conn_cursor ctx ;;
                  insert_readings ctx ts ?rs ;; conn_commit ctx ;; ?k) ?w0 ] =>
      destruct (try_block_run k cs ts rs w0) as (t' & E); rewrite E; clear E
  end.
  rewrite length_batch_readings.
  destruct (ingest_fault (faults ctx) 20) as [msg|].
  - unfold bind at 1. cbn [log]. unfold ret at 1.
    rewrite close_quietly_run. reflexivity.
  - unfold bind at 1. cbn [log]. unfold ret at 1.
    rewrite close_quietly_run. reflexivity.
Qed.

(** The same for [generate_timer]. *)
Lemma generate_timer_run w :
  let ts := clock ctx (clock_reads w) in
  let l0 := logs w ++ [Info "Timer trigger called to generate sensor data." []]
                   ++ [Info "[%s] Generated %d sensor readings."
                            [ArgTime ts; ArgNat 20]] in
  generate_timer ctx w
  = match environ ctx CONNECTION_KEY with
    | None =>
        (Raise (KeyError CONNECTION_KEY),
         mkWorld (table w) (txn w) (rand_pos w + 80) (S (clock_reads w)) l0)
    | Some _ =>
        match ingest_fault (faults ctx) 20 with
        | Some msg =>
            (Ok tt,
             mkWorld (table w) None (rand_pos w + 80) (S (clock_reads w))
                     (l0 ++ [Error "Timer trigger SQL error: %s" [ArgStr msg]]))
        | None =>
            (Ok tt,
             mkWorld (table w ++ batch_rows ctx w) None (rand_pos w + 80)
                     (S (clock_reads w))
                     (l0 ++ [Info "Inserted %d rows (timer trigger)"
                                  [ArgNat 20]]))
        end
    end.
Proof.
  intros ts l0. unfold generate_timer.
  unfold bind at 1. cbn [log].
  unfold bind at 1. rewrite generate_sensor_readings_run. cbn [table txn rand_pos clock_reads logs].
  unfold bind at 1. cbn [datetime_now table txn rand_pos clock_reads logs].
  fold ts.
  unfold bind at 1. cbn [log table txn rand_pos clock_reads logs].
  rewrite length_batch_readings. rewrite <- app_assoc. fold l0.
  unfold os_environ.
  destruct (environ ctx CONNECTION_KEY) as [cs|] eqn:Henv.
  2:{ reflexivity. }
  unfold bind at 1. unfold ret at 1.
  unfold try_finally, try_except.
  match goal with
  | |- context [ (pyodbc_connect ctx cs ;; conn_cursor ctx ;;
                  insert_readings ctx ts ?rs ;; conn_commit ctx ;; ?k) ?w0 ] =>
      destruct (try_block_run k cs ts rs w0) as (t' & E); rewrite E; clear E
  end.
  rewrite length_batch_readings.
  destruct (ingest_fault (faults ctx) 20) as [msg|].
  - cbn [log]. rewrite close_quietly_run. reflexivity.
  - cbn [log]. rewrite close_quietly_run. reflexivity.
Qed.

(** Without the connection string in the environment, the lookup raises
    before the [try] statement: both handlers raise [KeyError] and the
    table is as before. *)
Lemma missing_connection_string w :
  environ ctx CONNECTION_KEY = None ->
  fst (generate_http ctx w) = Raise (KeyError CONNECTION_KEY)
  /\ fst (generate_timer ctx w) = Raise (KeyError CONNECTION_KEY)
  /\ table (snd (generate_http ctx w)) = table w
  /\ table (snd (generate_timer ctx w)) = table w.
Proof.
  intros Henv. rewrite generate_http_run, generate_timer_run, Henv.
  repeat split.
Qed.

Lemma execute_fault_some i n j :
  (i <= j < i + n)%nat -> faults ctx (Execute j) <> None ->
  execute_fault (faults ctx) i n <> None.
Proof.
  revert i; induction n as [|n IH]; intros i Hj Hf; [lia|].
  cbn. destruct (faults ctx (Execute i)) eqn:F; [discriminate|].
  apply IH; [|exact Hf].
  assert (j <> i) by (intros ->; congruence). lia.
Qed.

Lemma insert_path_fails_fault :
  insert_path_fails ctx -> exists msg, ingest_fault (faults ctx) 20 = Some msg.
Proof.
  unfold insert_path_fails, ingest_fault.
  intros [H|[H|[(i & Hi & H)|H]]].
  - destruct (faults ctx Connect) as [m|]; [eauto|congruence].
  - destruct (faults ctx Connect) as [m|]; [eauto|].
    destruct (faults ctx Cursor) as [m|]; [eauto|congruence].
  - destruct (faults ctx Connect) as [m|]; [eauto|].
    destruct (faults ctx Cursor) as [m|]; [eauto|].
    assert (E : execute_fault (faults ctx) 0 20 <> None)
      by (apply execute_fault_some with (j := i); [lia|exact H]).
    destruct (execute_fault (faults ctx) 0 20) as [m|]; [eauto|congruence].
  - destruct (faults ctx Connect) as [m|]; [eauto|].
    destruct (faults ctx Cursor) as [m|]; [eauto|].
    destruct (execute_fault (faults ctx) 0 20) as [m|]; [eauto|].
    destruct (faults ctx Commit) as [m|]; [eauto|congruence].
Qed.

End HandlerFacts.

(** ** One invocation on its own, and the sequential schedule *)

Section Alone.

Context {R : Type}.

Lemma steps_alone_finished n : forall t (v : invocation R),
  inv_pc v = Finished -> steps_alone n t v = (t, v).
Proof.
  induction n as [|n IH]; intros t v H; cbn; [reflexivity|].
  unfold step_invocation. rewrite H. apply IH. exact H.
Qed.

Lemma steps_alone_close n t f (b p : list (row R)) :
  steps_alone (S n) t (mkInvocation f b AtClose p)
  = (t, mkInvocation f b Finished []).
Proof. cbn. apply steps_alone_finished. reflexivity. Qed.

(** From inside the loop: the INSERTs that remain, the commit and the
    close.  The table receives the transaction when none of them raises. *)
Lemma steps_alone_execute f (b : list (row R)) todo : forall i p t n,
  steps_alone (List.length todo + 2 + n) t (mkInvocation f b (AtExecute i todo) p)
  = (match execute_fault f i (List.length todo) with
     | Some _ => t
     | None => match f Commit with
               | Some _ => t
               | None => t ++ p ++ todo
               end
     end,
     mkInvocation f b Finished []).
Proof.
  induction todo as [|r todo IH]; intros i p t n.
  - cbn. destruct (f Commit); cbn;
      rewrite steps_alone_finished by reflexivity; [reflexivity|].
    rewrite app_nil_r. reflexivity.
  - cbn [List.length Nat.add steps_alone execute_fault].
    unfold step_invocation at 1. unfold goto.
    cbn [inv_pc inv_faults inv_txn inv_batch].
    destruct (f (Execute i)).
    + replace (List.length todo + 2 + n)%nat
        with (S (List.length todo + 1 + n)) by lia.
      apply steps_alone_close.
    + rewrite IH. rewrite <- app_assoc. reflexivity.
Qed.

Lemma steps_alone_after_close n t (v : invocation R) :
  inv_pc v = AtClose -> fst (steps_alone n t v) = t.
Proof.
  destruct v as [f b p x]; cbn; intros ->.
  destruct n as [|n]; [reflexivity|]. rewrite steps_alone_close. reflexivity.
Qed.

(** However many calls an invocation has made, and whichever of them
    raise, the table holds what it held, or that and the whole batch. *)
Lemma steps_alone_all_or_nothing n : forall t (v : invocation R),
  consistent v ->
  fst (steps_alone n t v) = t \/ fst (steps_alone n t v) = t ++ inv_batch v.
Proof.
  induction n as [|n IH]; intros t v Hc; [left; reflexivity|].
  destruct v as [f b p x]. unfold consistent in Hc. cbn in Hc.
  cbn [steps_alone]. unfold step_invocation, goto.
  cbn [inv_pc inv_faults inv_txn inv_batch].
  destruct p as [| |i [|r todo]| |].
  - destruct (f Connect); apply (IH t); exact I || reflexivity.
  - destruct (f Cursor); apply (IH t); [exact I|].
    unfold consistent; cbn. subst x. reflexivity.
  - destruct (f Commit); [apply (IH t); exact I|].
    right. rewrite steps_alone_after_close by reflexivity.
    rewrite app_nil_r in Hc. subst x. reflexivity.
  - destruct (f (Execute i)); apply (IH t); [exact I|].
    unfold consistent; cbn. rewrite <- app_assoc. exact Hc.
  - left. rewrite steps_alone_finished by reflexivity. reflexivity.
  - left. rewrite steps_alone_finished by reflexivity. reflexivity.
Qed.

(** A whole invocation: after as many calls as it can make, it has
    finished, and the table has received its batch when no call raised and
    nothing otherwise. *)
Lemma steps_alone_start f (b : list (row R)) t :
  steps_alone (List.length b + 4) t (start f b)
  = (match ingest_fault f (List.length b) with
     | Some _ => t
     | None => t ++ b
     end,
     mkInvocation f b Finished []).
Proof.
  replace (List.length b + 4)%nat with (S (S (List.length b + 2 + 0))) by lia.
  unfold ingest_fault, start.
  cbn [steps_alone]. unfold step_invocation at 1. unfold goto.
  cbn [inv_pc inv_faults inv_txn inv_batch].
  destruct (f Connect).
  { unfold step_invocation at 1. unfold goto.
    cbn [inv_pc inv_faults inv_txn inv_batch].
    apply steps_alone_finished. reflexivity. }
  unfold step_invocation at 1. unfold goto.
    cbn [inv_pc inv_faults inv_txn inv_batch].
  destruct (f Cursor).
  { replace (List.length b + 2 + 0)%nat with (S (List.length b + 1)) by lia.
    apply steps_alone_close. }
  rewrite steps_alone_execute.
  destruct (execute_fault f 0 (List.length b)); reflexivity.
Qed.

Lemma nth_error_middle {A} (l1 : list A) x l2 :
  nth_error (l1 ++ x :: l2) (List.length l1) = Some x.
Proof. induction l1 as [|a l1 IH]; cbn; [reflexivity|exact IH]. Qed.

Lemma set_nth_middle {A} (l1 : list A) x y l2 :
  set_nth (List.length l1) y (l1 ++ x :: l2) = l1 ++ y :: l2.
Proof. induction l1 as [|a l1 IH]; cbn; [reflexivity|rewrite IH; reflexivity]. Qed.

(** A schedule that gives [n] turns in a row to one invocation runs [n]
    calls of this invocation and leaves the others where they are. *)
Lemma run_schedule_repeat n : forall t (l1 : list (invocation R)) v l2,
  run_schedule (repeat (List.length l1) n) (t, l1 ++ v :: l2)
  = (fst (steps_alone n t v), l1 ++ snd (steps_alone n t v) :: l2).
Proof.
  induction n as [|n IH]; intros t l1 v l2; cbn; [reflexivity|].
  unfold schedule_step at 2. cbn [fst snd].
  rewrite nth_error_middle.
  destruct (step_invocation t v) as [t' v']. rewrite set_nth_middle.
  apply IH.
Qed.

Lemma run_schedule_app (s1 s2 : list nat) (st : system R) :
  run_schedule (s1 ++ s2) st = run_schedule s2 (run_schedule s1 st).
Proof. unfold run_schedule. apply fold_left_app. Qed.

Lemma ingest_fault_no_faults n : ingest_fault no_faults n = None.
Proof.
  unfold ingest_fault; cbn.
  assert (E : forall k i, execute_fault no_faults i k = None).
  { induction k as [|k IHk]; intros i; cbn; [reflexivity|apply IHk]. }
  rewrite E. reflexivity.
Qed.

(** The sequential schedule finishes every invocation; the table ends
    with the batches in the order of the invocations. *)
Lemma sequential_schedule_run (batches : list (list (row R))) :
  forall t (l1 : list (invocation R)),
  run_schedule (sequential_schedule (List.length l1)
                                    (map (@List.length _) batches))
               (t, l1 ++ map (start no_faults) batches)
  = (t ++ List.concat batches,
     l1 ++ map (fun b => mkInvocation no_faults b Finished []) batches).
Proof.
  induction batches as [|b batches IH]; intros t l1.
  - cbn. rewrite !app_nil_r. reflexivity.
  - cbn [map sequential_schedule List.concat].
    rewrite run_schedule_app, run_schedule_repeat, steps_alone_start.
    rewrite ingest_fault_no_faults. cbn [fst snd].
    specialize (IH (t ++ b) (l1 ++ [mkInvocation no_faults b Finished []])).
    rewrite length_app in IH. cbn [List.length] in IH.
    rewrite Nat.add_1_r, <- !app_assoc in IH. cbn [app] in IH.
    rewrite IH. reflexivity.
Qed.

(** Whatever the batches, there is a schedule after which all the
    invocations have finished. *)
Lemma sequential_schedule_finishes t (batches : list (list (row R))) :
  all_finished
    (run_schedule (sequential_schedule 0 (map (@List.length _) batches))
                  (t, map (start no_faults) batches)) = true.
Proof.
  pose proof (sequential_schedule_run batches t []) as E.
  cbn [List.length app] in E. rewrite E. unfold all_finished. cbn [snd].
  clear E. induction batches as [|b batches IH]; cbn; [reflexivity|exact IH].
Qed.

(** The calls of one invocation, made one by one, leave the table that
    the handlers leave. *)
Lemma steps_alone_handlers {AR : Arith R} (ctx : context R) w cs :
  environ ctx CONNECTION_KEY = Some cs ->
  fst (steps_alone (20 + 4) (table w) (start (faults ctx) (batch_rows ctx w)))
  = table (snd (generate_http ctx w))
  /\ fst (steps_alone (20 + 4) (table w)
                      (start (faults ctx) (batch_rows ctx w)))
     = table (snd (generate_timer ctx w)).
Proof.
  intros Henv.
  assert (E : steps_alone (20 + 4) (table w)
                          (start (faults ctx) (batch_rows ctx w))
              = steps_alone (List.length (batch_rows ctx w) + 4) (table w)
                            (start (faults ctx) (batch_rows ctx w)))
    by (rewrite length_batch_rows; reflexivity).
  rewrite E, steps_alone_start, length_batch_rows.
  rewrite generate_http_run, generate_timer_run, Henv.
  destruct (ingest_fault (faults ctx) 20); split; reflexivity.
Qed.

End Alone.

(** ** Atomicity of the batch write *)

(** The cases of a call of an ingestion handler: the connection string is
    missing, a call of the insert path raises, or the batch is committed. *)
Ltac ingestion_cases ctx :=
  cbv zeta; rewrite ?generate_http_run, ?generate_timer_run;
  unfold ingestion_succeeds;
  destruct (environ ctx CONNECTION_KEY);
  [destruct (ingest_fault (faults ctx) 20)|].

Section Ingestion.

Context {R : Type} {AR : Arith R}.

(** C1: after a call of either ingestion handler the table is the table
    of before followed by all the rows of the batch, or the table of
    before: all the rows when the ingestion goes through and none when a
    call of the insert path raises, at whatever point of the batch, or
    when the connection string is missing; the handler leaves no
    transaction open; and between any two pyodbc calls of the invocation
    the table is one of the same two. *)
Theorem batch_write_atomic (ctx : context R) (w : world R) :
  let after_http := snd (generate_http ctx w) in
  let after_timer := snd (generate_timer ctx w) in
  (table after_http = table w ++ batch_rows ctx w
   \/ table after_http = table w)
  /\ (table after_timer = table w ++ batch_rows ctx w
      \/ table after_timer = table w)
  /\ table after_http
     = (if ingestion_succeeds ctx then table w ++ batch_rows ctx w
        else table w)
  /\ table after_timer
     = (if ingestion_succeeds ctx then table w ++ batch_rows ctx w
        else table w)
  /\ match environ ctx CONNECTION_KEY with
     | Some _ => txn after_http = None /\ txn after_timer = None
     | None => txn after_http = txn w /\ txn after_timer = txn w
     end
  /\ (forall n,
        let seen := fst (steps_alone n (table w)
                           (start (faults ctx) (batch_rows ctx w))) in
        seen = table w \/ seen = table w ++ batch_rows ctx w).
Proof.
  assert (Hsteps : forall n,
             fst (steps_alone n (table w)
                    (start (faults ctx) (batch_rows ctx w))) = table w
             \/ fst (steps_alone n (table w)
                       (start (faults ctx) (batch_rows ctx w)))
                = table w ++ batch_rows ctx w).
  { intros n.
    apply (@steps_alone_all_or_nothing R n (table w)
             (start (faults ctx) (batch_rows ctx w))).
    reflexivity. }
  ingestion_cases ctx; cbn; auto 10.
Qed.

(** C5: when the connection string is configured and a call of the insert
    path raises (the store is unreachable, an INSERT or the commit fails),
    [generate_http] returns, its response has status 500 and the text of
    the error, the table is as before, no connection stays open, and a
    later call that meets no failure answers 200 and inserts its batch. *)
Theorem generate_http_store_failure (ctx : context R) (w : world R) cs :
  environ ctx CONNECTION_KEY = Some cs ->
  insert_path_fails ctx ->
  exists msg,
    fst (generate_http ctx w)
    = Ok (mkResponse 500 (Text ("Error inserting into SQL: " ++ msg)))
    /\ table (snd (generate_http ctx w)) = table w
    /\ txn (snd (generate_http ctx w)) = None
    /\ forall ctx' : context R,
         ingestion_succeeds ctx' = true ->
         let w' := snd (generate_http ctx w) in
         fst (generate_http ctx' w')
         = Ok (mkResponse 200
                 (GenerateJson 20 (clock ctx' (clock_reads w'))
                               (batch_readings ctx' w')))
         /\ table (snd (generate_http ctx' w'))
            = table w ++ batch_rows ctx' w'.
Proof.
  intros Henv Hfail.
  destruct (insert_path_fails_fault Hfail) as (msg & Hmsg).
  exists msg. rewrite generate_http_run, Henv, Hmsg.
  cbn [fst snd table txn].
  split; [reflexivity|]. split; [reflexivity|]. split; [reflexivity|].
  intros ctx' Hok. cbv zeta. rewrite generate_http_run.
  unfold ingestion_succeeds in Hok.
  destruct (environ ctx' CONNECTION_KEY); [|discriminate].
  destruct (ingest_fault (faults ctx') 20); [discriminate|].
  cbn. split; reflexivity.
Qed.

(** C8: both ingestion handlers read the clock once, and the rows a call
    adds to the table all carry that reading in [ReadingTimeUtc]; when the
    ingestion goes through these are the twenty rows of the batch. *)
Theorem batch_shares_timestamp (ctx : context R) (w : world R) :
  let ts := clock ctx (clock_reads w) in
  let after_http := snd (generate_http ctx w) in
  let after_timer := snd (generate_timer ctx w) in
  exists new,
    table after_http = table w ++ new
    /\ table after_timer = table w ++ new
    /\ Forall (fun r => ReadingTimeUtc r = ts) new
    /\ clock_reads after_http = S (clock_reads w)
    /\ clock_reads after_timer = S (clock_reads w)
    /\ (if ingestion_succeeds ctx
        then new = batch_rows ctx w /\ List.length new = 20%nat
        else new = []).
Proof.
  assert (Hts : Forall (fun r : row R => ReadingTimeUtc r
                                         = clock ctx (clock_reads w))
                       (batch_rows ctx w)).
  { unfold batch_rows. apply Forall_forall. intros r Hr.
    apply in_map_iff in Hr. destruct Hr as (x & <- & _). reflexivity. }
  ingestion_cases ctx.
  - exists []; cbn. rewrite app_nil_r. auto 10.
  - exists (batch_rows ctx w); cbn.
    repeat split; auto using length_batch_rows.
  - exists []; cbn. rewrite app_nil_r. auto 10.
Qed.

(** C10: run against the same context from the same world, the HTTP and
    the timer handler leave the same table, the same connection state and
    the same positions in the random stream and the clock; they differ in
    what they return ([HttpResponse] or nothing) and in their log lines. *)
Theorem http_and_timer_same_ingestion (ctx : context R) (w : world R) :
  let after_http := snd (generate_http ctx w) in
  let after_timer := snd (generate_timer ctx w) in
  table after_http = table after_timer
  /\ txn after_http = txn after_timer
  /\ rand_pos after_http = rand_pos after_timer
  /\ clock_reads after_http = clock_reads after_timer.
Proof.
  ingestion_cases ctx; cbn.
  - auto.
  - auto.
  - auto.
Qed.

End Ingestion.

Lemma generate_http_store_failure_witness :
  environ ctx_half_unreachable CONNECTION_KEY
  = Some "Server=tcp:sensors;Database=readings"%string
  /\ insert_path_fails ctx_half_unreachable
  /\ exists msg,
       fst (generate_http ctx_half_unreachable empty_world)
       = Ok (mkResponse 500 (Text ("Error inserting into SQL: " ++ msg)))
       /\ table (snd (generate_http ctx_half_unreachable empty_world)) = []
       /\ txn (snd (generate_http ctx_half_unreachable empty_world)) = None
       /\ forall ctx' : context Q,
            ingestion_succeeds ctx' = true ->
            let w' := snd (generate_http ctx_half_unreachable empty_world) in
            fst (generate_http ctx' w')
            = Ok (mkResponse 200
                    (GenerateJson 20 (clock ctx' (clock_reads w'))
                                  (batch_readings ctx' w')))
            /\ table (snd (generate_http ctx' w'))
               = [] ++ batch_rows ctx' w'.
Proof.
  assert (Henv : environ ctx_half_unreachable CONNECTION_KEY
                 = Some "Server=tcp:sensors;Database=readings"%string)
    by reflexivity.
  assert (Hfail : insert_path_fails ctx_half_unreachable)
    by (left; discriminate).
  split; [exact Henv|]. split; [exact Hfail|].
  exact (@generate_http_store_failure Q exact ctx_half_unreachable
                                      empty_world _ Henv Hfail).
Defined.

(** ** The statistics *)

Section Statistics.

Context {R : Type} {AR : Arith R}.

Local Abbreviation keys := (map (@fst Z (row R * list (row R)))).

Lemma group_by_snoc (t : list (row R)) r :
  group_by_SensorId (t ++ [r]) = group_insert r (group_by_SensorId t).
Proof. unfold group_by_SensorId. rewrite fold_left_app. reflexivity. Qed.

Lemma in_keys_group_insert (r : row R) gs k :
  In k (keys (group_insert r gs)) <-> k = SensorId r \/ In k (keys gs).
Proof.
  induction gs as [|[k' [r0 rs]] gs IH]; cbn.
  - intuition auto.
  - destruct (Z.eqb_spec k' (SensorId r)) as [E|E]; cbn.
    + subst k'. intuition auto.
    + rewrite IH. intuition auto.
Qed.

Lemma NoDup_keys_group_insert (r : row R) gs :
  NoDup (keys gs) -> NoDup (keys (group_insert r gs)).
Proof.
  induction gs as [|[k' [r0 rs]] gs IH]; cbn; intros ND.
  - constructor; [intros []|constructor].
  - inversion ND as [|? ? Hnin ND']; subst.
    destruct (Z.eqb_spec k' (SensorId r)) as [E|E]; cbn.
    + constructor; assumption.
    + constructor; [|auto].
      rewrite in_keys_group_insert. intros [->|H]; [congruence|contradiction].
Qed.

Lemma rows_of_sensor_snoc k (t : list (row R)) r :
  rows_of_sensor k (t ++ [r])
  = rows_of_sensor k t ++ (if (SensorId r =? k)%Z then [r] else []).
Proof. unfold rows_of_sensor. rewrite filter_app. reflexivity. Qed.

Lemma rows_of_sensor_nil k (t : list (row R)) :
  ~ In k (map (@SensorId R) t) -> rows_of_sensor k t = [].
Proof.
  induction t as [|r t IH]; cbn; intros H; [reflexivity|].
  destruct (Z.eqb_spec (SensorId r) k) as [E|E].
  - exfalso; apply H; left; exact E.
  - apply IH. intros Hin; apply H; right; exact Hin.
Qed.

Lemma in_group_insert (r : row R) gs k r0 rs :
  NoDup (keys gs) ->
  In (k, (r0, rs)) (group_insert r gs) ->
  (k <> SensorId r /\ In (k, (r0, rs)) gs)
  \/ (k = SensorId r
      /\ ((~ In k (keys gs) /\ r0 = r /\ rs = [])
          \/ exists rs', In (k, (r0, rs')) gs /\ rs = rs' ++ [r])).
Proof.
  induction gs as [|[k' [r0' rs']] gs IH]; cbn; intros ND H.
  - destruct H as [H|[]]. inversion H; subst. right. split; [reflexivity|].
    left. auto.
  - inversion ND as [|? ? Hnin ND']; subst.
    destruct (Z.eqb_spec k' (SensorId r)) as [E|E]; cbn in H.
    + destruct H as [H|H].
      * inversion H; subst. right. split; [reflexivity|]. right.
        exists rs'. split; [left; reflexivity|reflexivity].
      * left. split; [|right; exact H].
        intros ->. apply Hnin. rewrite E.
        change (SensorId r) with (fst (SensorId r, (r0, rs))).
        apply in_map. exact H.
    + destruct H as [H|H].
      * inversion H; subst. left. split; [exact E|left; reflexivity].
      * destruct (IH ND' H) as [(Hk & Hin)|(Hk & [(Hn & -> & ->)|(rs'' & Hin & ->)])].
        -- left. auto.
        -- right. split; [exact Hk|]. left. split; [|auto].
           intros [Hk'|Hk']; [congruence|contradiction].
        -- right. split; [exact Hk|]. right. exists rs''. auto.
Qed.

Lemma group_by_groups (t : list (row R)) : groups_of t (group_by_SensorId t).
Proof.
  induction t as [|r t IH] using rev_ind.
  - repeat split; cbn; try tauto. constructor.
  - destruct IH as (ND & Hk & Hr). rewrite group_by_snoc.
    split; [apply NoDup_keys_group_insert; exact ND|]. split.
    + intros k. rewrite in_keys_group_insert, Hk, map_app, in_app_iff. cbn.
      intuition auto.
    + intros k r0 rs Hin. rewrite rows_of_sensor_snoc.
      destruct (@in_group_insert r _ k r0 rs ND Hin)
        as [(Hne & Hin')|(-> & [(Hn & -> & ->)|(rs' & Hin' & ->)])].
      * rewrite <- (Hr _ _ _ Hin').
        destruct (Z.eqb_spec (SensorId r) k); [congruence|].
        rewrite app_nil_r. reflexivity.
      * rewrite Z.eqb_refl. rewrite rows_of_sensor_nil; [reflexivity|].
        rewrite <- Hk. exact Hn.
      * rewrite Z.eqb_refl. rewrite <- (Hr _ _ _ Hin'). reflexivity.
Qed.

Lemma in_order_insert (g : group (R := R)) gs x :
  In x (order_insert g gs) <-> x = g \/ In x gs.
Proof.
  induction gs as [|g' gs IH]; cbn.
  - intuition auto.
  - destruct (fst g <=? fst g')%Z; cbn; [|rewrite IH]; intuition auto.
Qed.

Lemma in_order_by (gs : list (group (R := R))) x :
  In x (order_by_SensorId gs) <-> In x gs.
Proof.
  induction gs as [|g gs IH]; cbn; [tauto|].
  rewrite in_order_insert, IH. intuition auto.
Qed.

Lemma sorted_order_insert (g : group (R := R)) gs :
  StronglySorted Z.lt (keys gs) ->
  ~ In (fst g) (keys gs) ->
  StronglySorted Z.lt (keys (order_insert g gs)).
Proof.
  induction gs as [|g' gs IH]; cbn; intros S Hn.
  - constructor; constructor.
  - inversion S as [|? ? S' Hall]; subst.
    destruct (Z.leb_spec (fst g) (fst g')) as [L|L]; cbn.
    + assert (Hlt : (fst g < fst g')%Z).
      { destruct (Z.eq_dec (fst g) (fst g')) as [E|E]; [|lia].
        exfalso; apply Hn; left; symmetry; exact E. }
      constructor; [exact S|]. constructor; [exact Hlt|].
      eapply Forall_impl; [|exact Hall]. cbn; intros; lia.
    + constructor.
      * apply IH; [exact S'|]. intros H; apply Hn; right; exact H.
      * apply Forall_forall. intros k Hk.
        apply in_map_iff in Hk. destruct Hk as (x & <- & Hx).
        apply in_order_insert in Hx. destruct Hx as [->|Hx]; [exact L|].
        rewrite Forall_forall in Hall. apply Hall. apply in_map. exact Hx.
Qed.

Lemma sorted_order_by (gs : list (group (R := R))) :
  NoDup (keys gs) -> StronglySorted Z.lt (keys (order_by_SensorId gs)).
Proof.
  induction gs as [|g gs IH]; cbn; intros ND.
  - constructor.
  - inversion ND as [|? ? Hnin ND']; subst.
    apply sorted_order_insert; [auto|].
    intros H. apply Hnin. apply in_map_iff in H. destruct H as (x & E & Hx).
    apply (proj1 (in_order_by gs x)) in Hx. rewrite <- E. apply in_map.
    exact Hx.
Qed.

Lemma stats_sensor_id_format (g : group (R := R)) :
  stats_sensor_id (format_row (select_row g)) = fst g.
Proof. reflexivity. Qed.

Lemma map_stats_sensor_id (t : list (row R)) :
  map (@stats_sensor_id R) (stats_data t)
  = keys (order_by_SensorId (group_by_SensorId t)).
Proof.
  unfold stats_data, select_stats. rewrite !map_map. reflexivity.
Qed.

Lemma in_keys_order_by (gs : list (group (R := R))) k :
  In k (keys (order_by_SensorId gs)) <-> In k (keys gs).
Proof.
  rewrite !in_map_iff. split; intros (x & E & Hx); exists x;
    (split; [exact E|]); apply in_order_by; exact Hx.
Qed.

(** The sensors of the statistics are those of the table, in strictly
    ascending order. *)
Lemma stats_data_sensors (t : list (row R)) :
  StronglySorted Z.lt (map (@stats_sensor_id R) (stats_data t))
  /\ forall k, In k (map (@stats_sensor_id R) (stats_data t))
               <-> In k (map (@SensorId R) t).
Proof.
  rewrite map_stats_sensor_id.
  destruct (group_by_groups t) as (ND & Hk & _).
  split; [apply sorted_order_by; exact ND|].
  intros k. rewrite in_keys_order_by. apply Hk.
Qed.

Lemma rows_of_sensor_in k (t : list (row R)) r :
  In r (rows_of_sensor k t) <-> In r t /\ SensorId r = k.
Proof.
  unfold rows_of_sensor. rewrite filter_In, Z.eqb_eq. reflexivity.
Qed.

(** Every element of the statistics is computed from the rows of its
    sensor, of which there is at least one. *)
Lemma stats_data_entry (t : list (row R)) s :
  In s (stats_data t) ->
  exists r0 rs,
    rows_of_sensor (stats_sensor_id s) t = r0 :: rs
    /\ s = format_row (select_row (stats_sensor_id s, (r0, rs))).
Proof.
  unfold stats_data, select_stats. rewrite map_map.
  intros H. apply in_map_iff in H. destruct H as ([k [r0 rs]] & <- & Hg).
  apply (proj1 (in_order_by _ _)) in Hg.
  destruct (group_by_groups t) as (_ & _ & Hr).
  exists r0, rs. split; [|reflexivity].
  symmetry. apply Hr. exact Hg.
Qed.

Lemma StronglySorted_lt_NoDup (l : list Z) : StronglySorted Z.lt l -> NoDup l.
Proof.
  induction 1 as [|x l S IH Hall]; constructor; [|exact IH].
  intros Hin. rewrite Forall_forall in Hall. specialize (Hall _ Hin). lia.
Qed.

(** What [stats_http] returns and the world it leaves: the table, the
    random stream and the clock are not touched. *)
Lemma stats_http_run (ctx : context R) w :
  stats_http ctx w
  = match stats_error ctx with
    | None =>
        (Ok (mkResponse 200 (StatsJson (stats_data (table w)))),
         set_txn (Some []) w)
    | Some msg =>
        (Ok (mkResponse 500 (Text msg)),
         mkWorld (table w)
                 (match environ ctx CONNECTION_KEY, faults ctx Connect with
                  | Some _, None => Some []
                  | _, _ => txn w
                  end)
                 (rand_pos w) (clock_reads w)
                 (logs w ++ [Error "%s" [ArgStr msg]]))
    end.
Proof.
  unfold stats_http, stats_error, try_except, os_environ, pyodbc_connect,
    conn_cursor, cursor_select_stats.
  destruct (environ ctx CONNECTION_KEY) as [cs|]; [|reflexivity].
  unfold bind at 1. unfold ret at 1.
  destruct (faults ctx Connect) as [m|] eqn:F1.
  { unfold bind. rewrite (fault_at_some ctx _ _ F1). reflexivity. }
  destruct (faults ctx Cursor) as [m|] eqn:F2.
  { unfold bind. rewrite (fault_at_none ctx _ _ F1), (fault_at_some ctx _ _ F2).
    reflexivity. }
  destruct (faults ctx Select) as [m|] eqn:F3.
  { unfold bind. rewrite (fault_at_none ctx _ _ F1), (fault_at_none ctx _ _ F2).
    rewrite (fault_at_some ctx _ _ F3). reflexivity. }
  destruct (faults ctx Fetchall) as [m|] eqn:F4.
  { unfold bind. rewrite (fault_at_none ctx _ _ F1), (fault_at_none ctx _ _ F2).
    rewrite (fault_at_none ctx _ _ F3), (fault_at_some ctx _ _ F4). reflexivity. }
  unfold bind. rewrite (fault_at_none ctx _ _ F1), (fault_at_none ctx _ _ F2).
  rewrite (fault_at_none ctx _ _ F3), (fault_at_none ctx _ _ F4). reflexivity.
Qed.

(** C6: the statistics of a table list its sensors in strictly ascending
    order of sensor_id, each sensor of the table once and no other; and
    [stats_http] answers 200 with this list, or 500 with the text of the
    error it met. *)
Theorem stats_ascending_one_per_sensor (ctx : context R) (w : world R) :
  let data := stats_data (table w) in
  StronglySorted Z.lt (map (@stats_sensor_id R) data)
  /\ NoDup (map (@stats_sensor_id R) data)
  /\ (forall k, In k (map (@stats_sensor_id R) data)
                <-> In k (map (@SensorId R) (table w)))
  /\ fst (stats_http ctx w)
     = match stats_error ctx with
       | None => Ok (mkResponse 200 (StatsJson data))
       | Some msg => Ok (mkResponse 500 (Text msg))
       end.
Proof.
  cbv zeta. destruct (stats_data_sensors (table w)) as (S & Hk).
  split; [exact S|]. split; [apply StronglySorted_lt_NoDup; exact S|].
  split; [exact Hk|].
  rewrite stats_http_run. destruct (stats_error ctx); reflexivity.
Qed.

(** C7: the statistics of the empty table are the empty list; a sensor
    without a row in the table has no element in the statistics; and every
    element of the statistics is computed from the rows of its sensor, of
    which there is at least one. *)
Theorem absent_sensors_omitted (t : list (row R)) :
  stats_data (@nil (row R)) = []
  /\ (forall k, rows_of_sensor k t = [] ->
                ~ In k (map (@stats_sensor_id R) (stats_data t)))
  /\ (forall s, In s (stats_data t) ->
                exists r0 rs,
                  rows_of_sensor (stats_sensor_id s) t = r0 :: rs
                  /\ s = format_row (select_row (stats_sensor_id s, (r0, rs)))).
Proof.
  split; [reflexivity|]. split.
  - intros k Hk Hin.
    apply (proj2 (stats_data_sensors t)) in Hin.
    apply in_map_iff in Hin. destruct Hin as (r & E & Hr).
    assert (H : In r (rows_of_sensor k t)) by (apply rows_of_sensor_in; auto).
    rewrite Hk in H. exact H.
  - intros s. apply stats_data_entry.
Qed.

(** C9: a second call of [stats_http], made in the world the first call
    left and against the same context, returns the response of the first;
    and a call changes neither the table nor the positions in the random
    stream and in the clock. *)
Theorem stats_read_only_idempotent (ctx : context R) (w : world R) :
  let first := stats_http ctx w in
  let second := stats_http ctx (snd first) in
  fst second = fst first
  /\ table (snd first) = table w
  /\ table (snd second) = table w
  /\ rand_pos (snd first) = rand_pos w
  /\ clock_reads (snd first) = clock_reads w.
Proof.
  cbv zeta. rewrite (stats_http_run ctx (snd (stats_http ctx w))).
  rewrite stats_http_run.
  destruct (stats_error ctx); cbn; auto.
Qed.

End Statistics.

(** ** Rounding in binary64

    [random.uniform(a, b)] is [a + (b - a) * random.random()], with one
    rounding in the product and one in the sum.  The section follows
    SpecFloat's rounding ([binary_round_aux]: shift, round to nearest even,
    renormalise) on integers and shows that both roundings are monotone
    with respect to the values of the format, so that the result lies
    between [a] and [b] whenever the output of [random.random()] lies in
    [0, 1). *)

Section Binary64Rounding.

Local Open Scope Z_scope.

Lemma digits2_pos_bounds (p : positive) :
  2 ^ (Zpos (digits2_pos p) - 1) <= Zpos p < 2 ^ Zpos (digits2_pos p).
Proof.
  induction p as [p IH|p IH|]; cbn [digits2_pos].
  - rewrite Pos2Z.inj_succ.
    replace (Z.succ (Zpos (digits2_pos p)) - 1) with (Zpos (digits2_pos p)) by lia.
    rewrite Z.pow_succ_r by lia.
    replace (2 ^ Zpos (digits2_pos p)) with (2 * 2 ^ (Zpos (digits2_pos p) - 1)) in *
      by (rewrite <- Z.pow_succ_r by lia; f_equal; lia).
    lia.
  - rewrite Pos2Z.inj_succ.
    replace (Z.succ (Zpos (digits2_pos p)) - 1) with (Zpos (digits2_pos p)) by lia.
    rewrite Z.pow_succ_r by lia.
    replace (2 ^ Zpos (digits2_pos p)) with (2 * 2 ^ (Zpos (digits2_pos p) - 1)) in *
      by (rewrite <- Z.pow_succ_r by lia; f_equal; lia).
    lia.
  - cbn. lia.
Qed.

Lemma Zdigits2_le (z k : Z) : 0 <= z < 2 ^ k -> 0 <= k -> Zdigits2 z <= k.
Proof.
  intros [H0 H1] Hk. destruct z as [|p|p]; cbn; [lia| |lia].
  destruct (Z.le_gt_cases (Zpos (digits2_pos p)) k) as [|Hgt]; [assumption|].
  pose proof (digits2_pos_bounds p) as [Hlo _].
  assert (2 ^ k <= 2 ^ (Zpos (digits2_pos p) - 1))
    by (apply Z.pow_le_mono_r; lia).
  lia.
Qed.

Lemma iter_pos_invariant {A} (f : A -> A) (P : Z -> A -> Prop) :
  (forall k x, 0 <= k -> P k x -> P (k + 1) (f x)) ->
  forall p k x, 0 <= k -> P k x -> P (k + Zpos p) (iter_pos f p x).
Proof.
  intros Hstep. induction p as [p IH|p IH|]; intros k x Hk Hx; cbn [iter_pos].
  - replace (k + Zpos p~1) with ((k + 1 + Zpos p) + Zpos p) by lia.
    apply IH; [lia|]. apply IH; [lia|]. apply Hstep; assumption.
  - replace (k + Zpos p~0) with ((k + Zpos p) + Zpos p) by lia.
    apply IH; [lia|]. apply IH; assumption.
  - apply Hstep; assumption.
Qed.

Lemma shr_1_m mrs : 0 <= shr_m mrs -> shr_m (shr_1 mrs) = shr_m mrs / 2.
Proof.
  destruct mrs as [m r s]. cbn [shr_m]. intros H.
  destruct m as [|[p|p|]|p]; cbn; try lia; try reflexivity.
  - rewrite Pos2Z.inj_xI. apply Z.div_unique with (r := 1); lia.
  - rewrite Pos2Z.inj_xO. apply Z.div_unique with (r := 0); lia.
Qed.

Lemma shr_1_exact mrs :
  0 <= shr_m mrs -> shr_m mrs mod 2 = 0 -> shr_r mrs = false -> shr_s mrs = false ->
  shr_r (shr_1 mrs) = false /\ shr_s (shr_1 mrs) = false.
Proof.
  destruct mrs as [m r s]. cbn [shr_m shr_r shr_s]. intros H Hm -> ->.
  destruct m as [|[p|p|]|p]; cbn; try lia; try (split; reflexivity).
  - rewrite Pos2Z.inj_xI in Hm. exfalso.
    rewrite Z.add_comm, Z.mul_comm, Z.mod_add in Hm by lia. cbn in Hm. lia.
  - cbn in Hm. lia.
Qed.

Lemma shr_spec (m e n : Z) :
  0 <= m -> 0 < n ->
  let mrs := fst (shr (Build_shr_record m false false) e n) in
  shr_m mrs = m / 2 ^ n
  /\ (m mod 2 ^ n = 0 -> shr_r mrs = false /\ shr_s mrs = false)
  /\ snd (shr (Build_shr_record m false false) e n) = e + n.
Proof.
  intros Hm Hn. destruct n as [|p|p]; try lia. cbn [shr fst snd].
  pose (P := fun k mrs =>
               shr_m mrs = m / 2 ^ k
               /\ (m mod 2 ^ k = 0 -> shr_r mrs = false /\ shr_s mrs = false)).
  assert (H : P (0 + Zpos p) (iter_pos shr_1 p (Build_shr_record m false false))).
  { apply iter_pos_invariant; [|lia|].
    - intros k x Hk (Hq & Hex). unfold P.
      assert (Hq0 : 0 <= shr_m x)
        by (rewrite Hq; apply Z.div_pos; [lia|apply Z.pow_pos_nonneg; lia]).
      split.
      + rewrite shr_1_m, Hq by exact Hq0.
        rewrite Z.pow_add_r, Z.pow_1_r by lia.
        rewrite Z.div_div by (try lia; apply Z.pow_pos_nonneg; lia). reflexivity.
      + intros Hmod.
        assert (Hp : 0 < 2 ^ k) by (apply Z.pow_pos_nonneg; lia).
        rewrite Z.pow_add_r, Z.pow_1_r in Hmod by lia.
        assert (Hmk : m mod 2 ^ k = 0).
        { apply Z.mod_divide in Hmod; [|lia]. apply Z.mod_divide; [lia|].
          destruct Hmod as [c Hc]. exists (c * 2). lia. }
        destruct (Hex Hmk) as (Hr & Hs).
        apply shr_1_exact; try assumption.
        rewrite Hq.
        apply Z.mod_divide in Hmod; [|lia]. destruct Hmod as [c Hc].
        rewrite Hc. replace (c * (2 ^ k * 2)) with ((c * 2) * 2 ^ k) by lia.
        rewrite Z.div_mul by lia. apply Z.mod_mul. lia.
    - unfold P. cbn. rewrite Z.div_1_r. split; [reflexivity|]. intros _. split; reflexivity. }
  cbn [Z.add] in H. destruct H as (H1 & H2).
  split; [exact H1|]. split; [exact H2|reflexivity].
Qed.

Lemma fexp_ge_emin e : SpecFloat.emin prec emax <= fexp prec emax e.
Proof. unfold fexp. lia. Qed.

Lemma shr_fexp_none (q e : Z) :
  fexp prec emax (Zdigits2 q + e) <= e ->
  shr_fexp prec emax q e loc_Exact = (Build_shr_record q false false, e).
Proof.
  intros H. unfold shr_fexp, shr. cbn [shr_record_of_loc].
  destruct (fexp prec emax (Zdigits2 q + e) - e) eqn:E; try reflexivity. lia.
Qed.

Lemma round_nearest_even_cases (m : Z) mrs :
  shr_m mrs = m ->
  round_nearest_even (shr_m mrs) (loc_of_shr_record mrs) = m
  \/ (round_nearest_even (shr_m mrs) (loc_of_shr_record mrs) = m + 1
      /\ ~ (shr_r mrs = false /\ shr_s mrs = false)).
Proof.
  destruct mrs as [q r s]. cbn [shr_m shr_r shr_s]. intros ->.
  destruct r, s; cbn; try (left; reflexivity);
    try (right; split; [reflexivity|intros [? ?]; discriminate]).
  destruct (Z.even m); [left; reflexivity|].
  right; split; [reflexivity|intros [? ?]; discriminate].
Qed.

Lemma round_aux_cases (m : positive) (ex : Z) :
  let E := fexp prec emax (Zpos (digits2_pos m) + ex) in
  exists q' E',
    binary_round_aux prec emax false (Zpos m) ex loc_Exact = round_result q' E'
    /\ ((E <= ex /\ q' = Zpos m /\ E' = ex)
        \/ (ex < E /\ E' = E /\ 0 <= q' < 2 ^ 53
            /\ (q' = Zpos m / 2 ^ (E - ex)
                \/ (q' = Zpos m / 2 ^ (E - ex) + 1
                    /\ Zpos m mod 2 ^ (E - ex) <> 0)))
        \/ (ex < E /\ E' = E + 1 /\ q' = 2 ^ 52
            /\ Zpos m / 2 ^ (E - ex) + 1 = 2 ^ 53
            /\ Zpos m mod 2 ^ (E - ex) <> 0)).
Proof.
  intros E. unfold binary_round_aux.
  destruct (Z.le_gt_cases E ex) as [Hle|Hgt].
  - exists (Zpos m), ex. split; [|left; auto].
    rewrite shr_fexp_none by exact Hle.
    cbn [shr_m loc_of_shr_record round_nearest_even].
    rewrite shr_fexp_none by exact Hle. reflexivity.
  - assert (Hn : 0 < E - ex) by lia.
    pose proof (@shr_spec (Zpos m) ex (E - ex) ltac:(lia) Hn) as Hs.
    cbv zeta in Hs.
    unfold shr_fexp at 1. cbn [shr_record_of_loc Zdigits2]. fold E.
    destruct (shr (Build_shr_record (Zpos m) false false) ex (E - ex))
      as [mrs' e'] eqn:Eshr.
    cbn [fst snd] in Hs. destruct Hs as (Hq & Hexact & He'). subst e'.
    replace (ex + (E - ex)) with E by lia.
    set (q := Zpos m / 2 ^ (E - ex)) in *.
    assert (Hq0 : 0 <= q)
      by (apply Z.div_pos; [lia|apply Z.pow_pos_nonneg; lia]).
    assert (Hq53 : q < 2 ^ 53).
    { apply Z.div_lt_upper_bound; [apply Z.pow_pos_nonneg; lia|].
      rewrite <- Z.pow_add_r by lia.
      pose proof (digits2_pos_bounds m) as [_ Hm].
      assert (Hd : Zpos (digits2_pos m) <= E - ex + 53)
        by (unfold E, fexp, prec; lia).
      assert (2 ^ Zpos (digits2_pos m) <= 2 ^ (E - ex + 53))
        by (apply Z.pow_le_mono_r; lia).
      lia. }
    assert (HE : SpecFloat.emin prec emax <= E) by apply fexp_ge_emin.
    destruct (@round_nearest_even_cases q mrs' Hq) as [Hr|(Hr & Hne)]; rewrite Hr.
    + exists q, E. split.
      * rewrite shr_fexp_none.
        -- cbn [shr_m]. unfold round_result. destruct q; reflexivity.
        -- pose proof (@Zdigits2_le q 53 ltac:(lia) ltac:(lia)).
           unfold fexp, prec in *. lia.
      * right; left. repeat split; auto; lia.
    + assert (Hmod : Zpos m mod 2 ^ (E - ex) <> 0)
        by (intros H0; apply Hne, Hexact, H0).
      destruct (Z.eq_dec (q + 1) (2 ^ 53)) as [Hc|Hc].
      * exists (2 ^ 52), (E + 1). split.
        -- rewrite Hc. unfold shr_fexp, shr. cbn [shr_record_of_loc].
           replace (fexp prec emax (Zdigits2 (2 ^ 53) + E) - E) with 1.
           ++ cbn. reflexivity.
           ++ change (Zdigits2 (2 ^ 53)) with 54.
              unfold fexp, SpecFloat.emin, prec, emax in *. lia.
        -- right; right. repeat split; auto.
      * exists (q + 1), E. split.
        -- rewrite shr_fexp_none.
           ++ cbn [shr_m]. unfold round_result. destruct (q + 1); reflexivity.
           ++ pose proof (@Zdigits2_le (q + 1) 53 ltac:(lia) ltac:(lia)).
              unfold fexp, prec in *. lia.
        -- right; left. repeat split; auto; try lia.
Qed.

Lemma scaled_shift (a b m : Z) :
  -1200 <= a -> a <= b -> scaled m b = scaled (m * 2 ^ (b - a)) a.
Proof.
  intros Ha Hab. unfold scaled. rewrite <- Z.mul_assoc, <- Z.pow_add_r by lia.
  do 2 f_equal. lia.
Qed.

Lemma scaled_le (a x y : Z) : -1200 <= a -> (scaled x a <= scaled y a <-> x <= y).
Proof.
  intros Ha. unfold scaled. symmetry. apply Z.mul_le_mono_pos_r.
  apply Z.pow_pos_nonneg; lia.
Qed.

Lemma upper_int (m n C : Z) :
  0 < n -> m <= C * 2 ^ n ->
  m / 2 ^ n <= C /\ (m mod 2 ^ n <> 0 -> m / 2 ^ n + 1 <= C).
Proof.
  intros Hn H. assert (Hp : 0 < 2 ^ n) by (apply Z.pow_pos_nonneg; lia).
  assert (Hq : m / 2 ^ n <= C)
    by (apply Z.div_le_upper_bound; [exact Hp|lia]).
  split; [exact Hq|]. intros Hmod.
  destruct (Z.eq_dec (m / 2 ^ n) C) as [E|E]; [|lia]. exfalso. apply Hmod.
  pose proof (Z.div_mod m (2 ^ n) ltac:(lia)) as Hdm.
  pose proof (Z.mod_pos_bound m (2 ^ n) Hp) as Hb.
  rewrite E in Hdm. lia.
Qed.

Lemma lower_int (m n C : Z) :
  0 < n -> C * 2 ^ n <= m -> C <= m / 2 ^ n.
Proof.
  intros Hn H. apply Z.div_le_lower_bound; [apply Z.pow_pos_nonneg; lia|lia].
Qed.

(** In a binade above the least one the mantissa has 53 digits. *)
Lemma normal_mantissa (m : positive) (ex E : Z) :
  E = fexp prec emax (Zpos (digits2_pos m) + ex) ->
  -1074 < E -> ex < E ->
  2 ^ (E - ex + 52) <= Zpos m.
Proof.
  intros HE Hmin Hex.
  assert (Hd : Zpos (digits2_pos m) = E - ex + 53)
    by (unfold fexp, SpecFloat.emin, prec, emax in HE; lia).
  pose proof (digits2_pos_bounds m) as [Hlo _]. rewrite Hd in Hlo.
  replace (E - ex + 53 - 1) with (E - ex + 52) in Hlo by lia. exact Hlo.
Qed.

Lemma round_aux_bounds (m : positive) (ex : Z) :
  -1200 <= ex ->
  exists q' E',
    binary_round_aux prec emax false (Zpos m) ex loc_Exact = round_result q' E'
    /\ 0 <= q' /\ ex <= E'
    /\ (forall mc ec, ex <= ec -> -1074 <= ec -> 0 < mc < 2 ^ 53 ->
          scaled (Zpos m) ex <= scaled mc ec -> scaled q' E' <= scaled mc ec /\ E' <= ec)
    /\ (forall mc ec, ex <= ec -> -1074 <= ec -> 0 < mc < 2 ^ 53 ->
          scaled mc ec <= scaled (Zpos m) ex -> scaled mc ec <= scaled q' E').
Proof.
  intros Hex.
  destruct (round_aux_cases m ex) as (q' & E' & Hres & Hcases).
  set (E := fexp prec emax (Zpos (digits2_pos m) + ex)) in *.
  exists q', E'. split; [exact Hres|].
  destruct Hcases as [(HE & -> & ->)|Hcases].
  { split; [lia|]. split; [lia|]. split.
    - intros mc ec Hec _ _ H. split; [exact H|exact Hec].
    - intros mc ec _ _ _ H. exact H. }
  (* the value [qq * 2^E] that the rounding gives before renormalisation *)
  assert (Hgen : exists qq,
             ex < E /\ scaled q' E' = scaled qq E /\ 0 <= q' /\ E <= E'
             /\ Zpos m / 2 ^ (E - ex) <= qq
             /\ (qq = Zpos m / 2 ^ (E - ex)
                 \/ (qq = Zpos m / 2 ^ (E - ex) + 1
                     /\ Zpos m mod 2 ^ (E - ex) <> 0))
             /\ (E' = E \/ (E' = E + 1 /\ qq = 2 ^ 53))).
  { destruct Hcases as [(HE & -> & Hq' & Hq)|(HE & -> & -> & Hc & Hmod)].
    - exists q'. split; [exact HE|]. split; [reflexivity|]. split; [lia|].
      split; [lia|]. split; [destruct Hq as [->|(-> & _)]; lia|].
      split; [exact Hq|left; reflexivity].
    - exists (2 ^ 53). split; [exact HE|]. split.
      + rewrite (@scaled_shift E (E + 1) (2 ^ 52)) by lia.
        replace (E + 1 - E) with 1 by lia. reflexivity.
      + split; [lia|]. split; [lia|]. split; [lia|]. split; [right; split; [lia|exact Hmod]|].
        right. split; reflexivity. }
  clear Hcases. destruct Hgen as (qq & HE & Hsv & Hq0 & HEE' & Hqlo & Hqq & HE').
  set (n := E - ex) in *. assert (Hn : 0 < n) by lia.
  assert (Hpn : 0 < 2 ^ n) by (apply Z.pow_pos_nonneg; lia).
  split; [exact Hq0|]. split; [lia|]. split.
  - (* upper bounds *)
    intros mc ec Hec Hemin Hmc H.
    rewrite (@scaled_shift ex ec mc) in H by lia. apply scaled_le in H; [|lia].
    assert (HEec : E <= ec).
    { destruct (Z.le_gt_cases E ec) as [|Hgt]; [assumption|exfalso].
      pose proof (@normal_mantissa m ex E eq_refl ltac:(lia) HE) as Hm.
      fold n in Hm.
      assert (2 ^ (ec - ex) <= 2 ^ (n - 1)) by (apply Z.pow_le_mono_r; lia).
      assert (0 < 2 ^ (ec - ex)) by (apply Z.pow_pos_nonneg; lia).
      assert (2 ^ (n + 52) = 2 ^ (n - 1) * 2 ^ 53)
        by (rewrite <- Z.pow_add_r by lia; f_equal; lia).
      nia. }
    assert (Hsplit : mc * 2 ^ (ec - ex) = (mc * 2 ^ (ec - E)) * 2 ^ n).
    { rewrite <- Z.mul_assoc, <- Z.pow_add_r by lia. do 2 f_equal. lia. }
    rewrite Hsplit in H.
    destruct (@upper_int (Zpos m) n (mc * 2 ^ (ec - E)) Hn H) as (Hu1 & Hu2).
    assert (Hqq' : qq <= mc * 2 ^ (ec - E))
      by (destruct Hqq as [->|(-> & Hmod)]; [exact Hu1|apply Hu2; exact Hmod]).
    split.
    + rewrite Hsv, (@scaled_shift E ec mc) by lia. apply scaled_le; [lia|exact Hqq'].
    + destruct HE' as [->|(-> & Hc)]; [exact HEec|].
      destruct (Z.eq_dec ec E) as [Heq|]; [|lia]. exfalso.
      rewrite Heq, Z.sub_diag, Z.pow_0_r in Hqq'. lia.
  - (* lower bounds *)
    intros mc ec Hec Hemin Hmc H.
    rewrite (@scaled_shift ex ec mc) in H by lia. apply scaled_le in H; [|lia].
    rewrite Hsv.
    assert (Hlow : scaled mc ec <= scaled (Zpos m / 2 ^ n) E);
      [|assert (scaled (Zpos m / 2 ^ n) E <= scaled qq E) by (apply scaled_le; lia); lia].
    destruct (Z.le_gt_cases E ec) as [HEec|Hgt].
    + rewrite (@scaled_shift E ec mc) by lia. apply scaled_le; [lia|].
      apply lower_int; [exact Hn|].
      rewrite <- Z.mul_assoc, <- Z.pow_add_r by lia.
      replace (ec - E + n) with (ec - ex) by lia. exact H.
    + pose proof (@normal_mantissa m ex E eq_refl ltac:(lia) HE) as Hm.
      fold n in Hm.
      assert (Hq52 : 2 ^ 52 <= Zpos m / 2 ^ n).
      { apply lower_int; [exact Hn|].
        rewrite <- Z.pow_add_r by lia. rewrite Z.add_comm. exact Hm. }
      rewrite (@scaled_shift ec E (Zpos m / 2 ^ n)) by lia. apply scaled_le; [lia|].
      assert (0 < 2 ^ (E - ec - 1)) by (apply Z.pow_pos_nonneg; lia).
      assert (2 ^ (E - ec) = 2 * 2 ^ (E - ec - 1))
        by (rewrite <- Z.pow_succ_r by lia; f_equal; lia).
      nia.
Qed.

Lemma canonical_facts (m : positive) (e : Z) :
  bounded prec emax m e = true ->
  -1074 <= e <= 971 /\ 0 < Zpos m < 2 ^ 53
  /\ (-1074 < e -> 2 ^ 52 <= Zpos m).
Proof.
  unfold bounded, canonical_mantissa. intros H.
  apply andb_prop in H. destruct H as (Hc & He).
  apply Z.eqb_eq in Hc. apply Z.leb_le in He.
  unfold fexp, SpecFloat.emin, prec, emax in *.
  pose proof (digits2_pos_bounds m) as [Hlo Hhi].
  assert (Hd : Zpos (digits2_pos m) <= 53) by lia.
  assert (2 ^ Zpos (digits2_pos m) <= 2 ^ 53) by (apply Z.pow_le_mono_r; lia).
  split; [lia|]. split; [lia|]. intros Hn.
  assert (Hd' : Zpos (digits2_pos m) = 53) by lia.
  rewrite Hd' in Hlo. exact Hlo.
Qed.

Lemma SFleb_of_scaled (m1 : positive) e1 (m2 : positive) e2 :
  bounded prec emax m1 e1 = true -> bounded prec emax m2 e2 = true ->
  scaled (Zpos m1) e1 <= scaled (Zpos m2) e2 ->
  SFleb (S754_finite false m1 e1) (S754_finite false m2 e2) = true.
Proof.
  intros B1 B2 H.
  destruct (@canonical_facts _ _ B1) as (He1 & Hm1 & Hn1).
  destruct (@canonical_facts _ _ B2) as (He2 & Hm2 & Hn2).
  unfold SFleb, SFcompare.
  destruct (Z.compare_spec e1 e2) as [->|Hlt|Hgt].
  - apply scaled_le in H; [|lia].
    change (Pos.compare_cont Eq m1 m2) with (Pos.compare m1 m2).
    destruct (Pos.compare_spec m1 m2); try reflexivity. lia.
  - reflexivity.
  - exfalso. rewrite (@scaled_shift e2 e1 (Zpos m1)) in H by lia.
    apply scaled_le in H; [|lia].
    assert (2 ^ 1 <= 2 ^ (e1 - e2)) by (apply Z.pow_le_mono_r; lia).
    specialize (Hn1 ltac:(lia)). nia.
Qed.

Lemma unit_interval_cases (u : float) :
  PrimFloat.leb 0 u = true -> PrimFloat.ltb u 1 = true ->
  (exists s, Prim2SF u = S754_zero s)
  \/ (exists m e, Prim2SF u = S754_finite false m e
                  /\ bounded prec emax m e = true /\ e <= -53).
Proof.
  rewrite FloatAxioms.leb_spec, FloatAxioms.ltb_spec.
  pose proof (Prim2SF_valid u) as Hv.
  assert (E0 : Prim2SF 0 = S754_zero false) by (vm_compute; reflexivity).
  assert (E1 : Prim2SF 1 = S754_finite false 4503599627370496 (-52))
    by (vm_compute; reflexivity).
  rewrite E0, E1. clear E0 E1.
  destruct (Prim2SF u) as [s|s| |s m e]; intros H0 H1.
  - left. exists s. reflexivity.
  - destruct s; discriminate.
  - discriminate.
  - right. destruct s; [discriminate|]. exists m, e.
    split; [reflexivity|]. cbn [valid_binary] in Hv. split; [exact Hv|].
    destruct (@canonical_facts _ _ Hv) as (He & Hm & Hn).
    unfold SFltb, SFcompare in H1.
    destruct (Z.compare_spec e (-52)) as [->|Hlt|Hgt]; try discriminate;
      [|clear - Hlt; lia].
    exfalso. specialize (Hn ltac:(lia)).
    rewrite Pos.compare_cont_spec in H1.
    destruct (Pos.compare_spec m 4503599627370496) as [Hc|Hc|Hc];
      try discriminate H1.
    assert (E52 : 2 ^ 52 = 4503599627370496) by (vm_compute; reflexivity).
    rewrite E52 in Hn. apply Pos2Z.pos_lt_pos in Hc. clear - Hc Hn. lia.
Qed.

Lemma round_result_finite q' E' :
  0 <= q' -> E' <= 971 ->
  round_result q' E' = S754_zero false
  \/ exists p, q' = Zpos p /\ round_result q' E' = S754_finite false p E'.
Proof.
  intros Hq HE. destruct q' as [|p|p]; [left; reflexivity| |lia].
  right. exists p. split; [reflexivity|]. unfold round_result.
  replace (E' <=? emax - prec) with true; [reflexivity|].
  symmetry. apply Z.leb_le. unfold emax, prec. lia.
Qed.

Lemma mul_unit_interval (D u : float) (mD : positive) (eD : Z) :
  Prim2SF D = S754_finite false mD eD ->
  -100 <= eD ->
  PrimFloat.leb 0 u = true -> PrimFloat.ltb u 1 = true ->
  small_product mD eD (D * u)%float.
Proof.
  intros HD HeD H0 H1. unfold small_product.
  pose proof (Prim2SF_valid D) as BD. rewrite HD in BD. cbn [valid_binary] in BD.
  destruct (@canonical_facts _ _ BD) as (HeD' & HmD & _).
  rewrite FloatAxioms.mul_spec, HD.
  destruct (@unit_interval_cases u H0 H1) as [(s & ->)|(m & e & -> & B & He)].
  - left. exists (xorb false s). reflexivity.
  - destruct (@canonical_facts _ _ B) as (He' & Hm & _).
    unfold SF64mul, SFmul. cbn [xorb].
    destruct (@round_aux_bounds (mD * m) (eD + e) ltac:(lia))
      as (q' & E' & Hres & Hq0 & HE' & Hup & _).
    rewrite Hres.
    destruct (Hup (Zpos mD) eD ltac:(lia) ltac:(lia) HmD) as (Hsv & HEle).
    { rewrite (@scaled_shift (eD + e) eD (Zpos mD)) by lia.
      apply scaled_le; [lia|]. rewrite Pos2Z.inj_mul.
      replace (eD - (eD + e)) with (- e) by lia.
      assert (2 ^ 53 <= 2 ^ (- e)) by (apply Z.pow_le_mono_r; lia).
      nia. }
    destruct (@round_result_finite q' E' Hq0 ltac:(lia)) as [->|(p & -> & ->)].
    + left. exists false. reflexivity.
    + right. exists p, E'. split; [reflexivity|exact Hsv].
Qed.

Lemma iter_xO (mx d : positive) :
  Zpos (Pos.iter xO mx d) = Zpos mx * 2 ^ Zpos d.
Proof.
  apply (@Pos.iter_ind positive xO mx (fun p x => Zpos x = Zpos mx * 2 ^ Zpos p)).
  - rewrite Pos2Z.inj_xO. cbn. lia.
  - intros p a IH. rewrite Pos2Z.inj_xO, IH, Pos2Z.inj_succ, Z.pow_succ_r by lia.
    lia.
Qed.

Lemma shl_align_spec (mx : positive) (ex t : Z) :
  exists mz ez,
    shl_align mx ex t = (mz, ez)
    /\ ez = Z.min ex t
    /\ Zpos mz = Zpos mx * 2 ^ (ex - ez).
Proof.
  unfold shl_align. destruct (t - ex) as [|d|d] eqn:E.
  - exists mx, ex. split; [reflexivity|]. split; [lia|].
    replace (ex - ex) with 0 by lia. cbn. lia.
  - exists mx, ex. split; [reflexivity|]. split; [lia|].
    replace (ex - ex) with 0 by lia. cbn. lia.
  - exists (Pos.iter xO mx d), t. split; [reflexivity|]. split; [lia|].
    rewrite iter_xO. do 2 f_equal. lia.
Qed.

Lemma scaled_add (x y e : Z) : scaled (x + y) e = scaled x e + scaled y e.
Proof. unfold scaled. lia. Qed.

Lemma SFadd_bounds (ma : positive) (ea : Z) (p : positive) (E : Z) :
  -100 <= ea -> -1074 <= E ->
  exists q' E',
    SFadd prec emax (S754_finite false ma ea) (S754_finite false p E)
    = round_result q' E'
    /\ 0 <= q'
    /\ (forall mc ec, ea <= ec -> -1074 <= ec -> 0 < mc < 2 ^ 53 ->
          scaled (Zpos ma) ea + scaled (Zpos p) E <= scaled mc ec ->
          scaled q' E' <= scaled mc ec /\ E' <= ec)
    /\ (forall mc ec, ea <= ec -> -1074 <= ec -> 0 < mc < 2 ^ 53 ->
          scaled mc ec <= scaled (Zpos ma) ea + scaled (Zpos p) E ->
          scaled mc ec <= scaled q' E').
Proof.
  intros Hea HE. unfold SFadd. cbn [cond_Zopp].
  assert (Hz1 : Z.min ea E <= ea) by lia.
  assert (Hz2 : Z.min ea E <= E) by lia.
  assert (Hz3 : -1200 <= Z.min ea E) by lia.
  set (ez := Z.min ea E) in *.
  destruct (shl_align_spec ma ea ez) as (m1 & e1 & -> & He1 & Hm1).
  destruct (shl_align_spec p E ez) as (m2 & e2 & -> & He2 & Hm2).
  cbn [fst].
  assert (He1' : e1 = ez) by lia. assert (He2' : e2 = ez) by lia.
  clear He1 He2. subst e1 e2.
  change (Zpos m1 + Zpos m2) with (Zpos (m1 + m2)).
  cbn [binary_normalize]. unfold binary_round.
  destruct (shl_align_spec (m1 + m2) ez
              (fexp prec emax (Zpos (digits2_pos (m1 + m2)) + ez)))
    as (mz & ez2 & -> & Hez2 & Hmz).
  assert (Hfe : -1074 <= fexp prec emax (Zpos (digits2_pos (m1 + m2)) + ez))
    by (unfold fexp, SpecFloat.emin, prec, emax; lia).
  assert (Hez2a : ez2 <= ez) by lia.
  assert (Hez2b : -1200 <= ez2) by lia.
  clear Hez2 Hfe.
  assert (Hval : scaled (Zpos mz) ez2 = scaled (Zpos ma) ea + scaled (Zpos p) E).
  { rewrite Hmz, <- (@scaled_shift ez2 ez (Zpos (m1 + m2))) by lia.
    rewrite Pos2Z.inj_add, scaled_add, Hm1, Hm2.
    rewrite <- (@scaled_shift ez ea (Zpos ma)), <- (@scaled_shift ez E (Zpos p)) by lia.
    reflexivity. }
  destruct (@round_aux_bounds mz ez2 Hez2b)
    as (q' & E' & Hres & Hq0 & HE' & Hup & Hlo).
  exists q', E'. split; [exact Hres|]. split; [exact Hq0|].
  rewrite Hval in Hup, Hlo. split.
  - intros mc ec Hec. apply Hup. lia.
  - intros mc ec Hec. apply Hlo. lia.
Qed.

Lemma add_small_product (a y b : float) (ma : positive) (ea : Z)
  (mb : positive) (eb : Z) (mD : positive) (eD : Z) :
  Prim2SF a = S754_finite false ma ea ->
  Prim2SF b = S754_finite false mb eb ->
  -100 <= ea -> ea <= eb ->
  scaled (Zpos ma) ea + scaled (Zpos mD) eD = scaled (Zpos mb) eb ->
  small_product mD eD y ->
  PrimFloat.leb a (a + y) = true /\ PrimFloat.leb (a + y) b = true.
Proof.
  intros Ha Hb Hea Heab Hsum Hy.
  pose proof (Prim2SF_valid a) as Ba. rewrite Ha in Ba. cbn [valid_binary] in Ba.
  pose proof (Prim2SF_valid b) as Bb. rewrite Hb in Bb. cbn [valid_binary] in Bb.
  destruct (@canonical_facts _ _ Ba) as (Hea' & Hma & _).
  destruct (@canonical_facts _ _ Bb) as (Heb' & Hmb & _).
  assert (HD0 : 0 <= scaled (Zpos mD) eD)
    by (unfold scaled; apply Z.mul_nonneg_nonneg; [lia|apply Z.pow_nonneg; lia]).
  assert (Hapos : 0 < scaled (Zpos ma) ea)
    by (unfold scaled; apply Z.mul_pos_pos; [lia|apply Z.pow_pos_nonneg; lia]).
  pose proof (Prim2SF_valid (a + y)) as Bv.
  rewrite !FloatAxioms.leb_spec, Ha, Hb. rewrite FloatAxioms.add_spec, Ha in Bv |- *.
  unfold SF64add in *.
  destruct Hy as [(s & Hy)|(p & E & Hy & Hsv)]; rewrite Hy in Bv |- *.
  - cbn [SFadd]. split; apply SFleb_of_scaled; try assumption; lia.
  - pose proof (Prim2SF_valid y) as By. rewrite Hy in By.
    cbn [valid_binary] in By.
    destruct (@canonical_facts _ _ By) as (HE & _ & _).
    destruct (@SFadd_bounds ma ea p E Hea ltac:(lia))
      as (q' & E' & Hres & Hq0 & Hup & Hlo).
    rewrite Hres in Bv |- *.
    assert (Hle : scaled (Zpos ma) ea + scaled (Zpos p) E <= scaled (Zpos mb) eb)
      by (clear - Hsv Hsum; lia).
    assert (Hge : scaled (Zpos ma) ea <= scaled (Zpos ma) ea + scaled (Zpos p) E).
    { assert (0 <= scaled (Zpos p) E)
        by (unfold scaled; apply Z.mul_nonneg_nonneg; [lia|apply Z.pow_nonneg; lia]).
      lia. }
    destruct (Hup (Zpos mb) eb Heab ltac:(lia) Hmb Hle) as (Hsvb & HEb).
    pose proof (Hlo (Zpos ma) ea ltac:(lia) ltac:(lia) Hma Hge) as Hsva.
    destruct (@round_result_finite q' E' Hq0 ltac:(lia)) as [Hz|(r & -> & Hf)].
    + exfalso. destruct q' as [|r|r]; try lia.
      * unfold scaled in Hsva. clear - Hsva Hapos. unfold scaled in Hapos. lia.
      * unfold round_result in Hz. destruct (E' <=? emax - prec); discriminate.
    + rewrite Hf in Bv |- *. cbn [valid_binary] in Bv.
      split; apply SFleb_of_scaled; assumption.
Qed.

Lemma uniform_between (a D b u : float) :
  range_constants a D b = true ->
  PrimFloat.leb 0 u = true -> PrimFloat.ltb u 1 = true ->
  PrimFloat.leb a (a + D * u) = true /\ PrimFloat.leb (a + D * u) b = true.
Proof.
  unfold range_constants. intros Hc H0 H1.
  destruct (Prim2SF a) as [| | |[] ma ea] eqn:Ha; try discriminate.
  destruct (Prim2SF D) as [| | |[] mD eD] eqn:HD; try discriminate.
  destruct (Prim2SF b) as [| | |[] mb eb] eqn:Hb; try discriminate.
  apply andb_prop in Hc. destruct Hc as (Hc & Hsum).
  apply andb_prop in Hc. destruct Hc as (Hc & HeD).
  apply andb_prop in Hc. destruct Hc as (Hea & Heab).
  apply Z.leb_le in Hea, Heab, HeD. apply Z.eqb_eq in Hsum.
  apply (@add_small_product a (D * u)%float b ma ea mb eb mD eD);
    try assumption.
  apply mul_unit_interval; assumption.
Qed.

End Binary64Rounding.

(** ** The generator *)

Section Generator.

Lemma uniform_at_in_range (ctx : context Q) (lo hi : Z) pos :
  (lo <= hi)%Z ->
  0 <= draws ctx pos /\ draws ctx pos < 1 ->
  in_range lo hi (uniform_at ctx (lit lo) (lit hi) pos).
Proof.
  intros Hle [H0 H1]. unfold in_range, uniform_at. cbn.
  assert (Hd : 0 <= inject_Z hi - inject_Z lo).
  { unfold Qminus. rewrite <- Qle_minus_iff. rewrite <- Zle_Qle. exact Hle. }
  set (u := draws ctx pos) in *. set (d := inject_Z hi - inject_Z lo) in *.
  assert (Hdu : 0 <= d * u) by (apply Qmult_le_0_compat; assumption).
  assert (Hdu' : 0 <= d * (1 - u))
    by (apply Qmult_le_0_compat; [exact Hd|lra]).
  split; [lra|]. unfold d in *. lra.
Qed.

Lemma readings_at_in_range (ctx : context Q) ids pos :
  (forall i, 0 <= draws ctx i /\ draws ctx i < 1) ->
  Forall reading_in_range (readings_at ctx ids pos).
Proof.
  intros Hd. revert pos; induction ids as [|sid ids IH]; intros pos; cbn.
  - constructor.
  - constructor; [|apply IH].
    unfold reading_in_range, reading_at; cbn.
    repeat split; apply uniform_at_in_range; auto; lia.
Qed.

(** The literals of the four metrics are arguments of [random.uniform]
    as [range_constants] has them. *)
Lemma metric_range_constants :
  range_constants (lit 5) (rsub (lit 18) (lit 5)) (lit 18) = true
  /\ range_constants (lit 12) (rsub (lit 24) (lit 12)) (lit 24) = true
  /\ range_constants (lit 30) (rsub (lit 60) (lit 30)) (lit 60) = true
  /\ range_constants (lit 400) (rsub (lit 1600) (lit 400)) (lit 1600) = true.
Proof. repeat split; vm_compute; reflexivity. Qed.

Lemma uniform_at_in_range64 (ctx : context float) (lo hi : Z) pos :
  range_constants (lit lo) (rsub (lit hi) (lit lo)) (lit hi) = true ->
  PrimFloat.leb 0 (draws ctx pos) = true
  /\ PrimFloat.ltb (draws ctx pos) 1 = true ->
  in_range64 lo hi (uniform_at ctx (lit lo) (lit hi) pos) = true.
Proof.
  intros Hc [H0 H1]. unfold in_range64, uniform_at.
  cbn [radd rmul binary64].
  destruct (@uniform_between _ _ _ _ Hc H0 H1) as (Hlo & Hhi).
  rewrite Hlo, Hhi. reflexivity.
Qed.

Lemma readings_at_in_range64 (ctx : context float) ids pos :
  (forall i, PrimFloat.leb 0 (draws ctx i) = true
             /\ PrimFloat.ltb (draws ctx i) 1 = true) ->
  forallb reading_in_range64 (readings_at ctx ids pos) = true.
Proof.
  intros Hd. destruct metric_range_constants as (Ct & Cw & Ch & Cc).
  revert pos; induction ids as [|sid ids IH]; intros pos;
    cbn [readings_at forallb]; [reflexivity|].
  rewrite IH, andb_true_r.
  unfold reading_in_range64, reading_at.
  cbn [temperature wind humidity co2].
  rewrite !uniform_at_in_range64 by auto. reflexivity.
Qed.

(** C3 (as the code has it): [generate_sensor_readings] takes no count,
    and a call that passes one raises TypeError, whatever the count.
    In either arithmetic, every call without argument returns, without
    raising and without touching the table, exactly twenty readings whose
    sensor_id are 1, 2, ..., 20 in this order, using eighty outputs of
    [random.random()].  When these outputs lie in [0, 1), every
    temperature lies in [5, 18], every wind in [12, 24], every humidity
    in [30, 60] and every co2 in [400, 1600]: in arithmetic without
    rounding, and in binary64, the arithmetic of the readings that the
    code returns, with its two roundings per value. *)
Theorem generate_sensor_readings_twenty :
  (forall (R : Type) (AR : Arith R) (ctx : context R) (w : world R),
      exists readings,
        generate_sensor_readings ctx w
        = (Ok readings,
           mkWorld (table w) (txn w) (rand_pos w + 80) (clock_reads w)
                   (logs w))
        /\ List.length readings = 20%nat
        /\ map (@sensor_id R) readings
           = [1; 2; 3; 4; 5; 6; 7; 8; 9; 10;
              11; 12; 13; 14; 15; 16; 17; 18; 19; 20]%Z)
  /\ (forall (ctx : context Q) (w : world Q),
        (forall i, 0 <= draws ctx i /\ draws ctx i < 1) ->
        exists readings,
          fst (generate_sensor_readings ctx w) = Ok readings
          /\ Forall reading_in_range readings)
  /\ (forall (ctx : context float) (w : world float),
        (forall i, PrimFloat.leb 0 (draws ctx i) = true
                   /\ PrimFloat.ltb (draws ctx i) 1 = true) ->
        exists readings,
          fst (generate_sensor_readings ctx w) = Ok readings
          /\ forallb reading_in_range64 readings = true)
  /\ (forall (R : Type) (AR : Arith R) (ctx : context R) (w : world R)
             (count : Z) (more : list Z),
        call_generate_sensor_readings ctx (count :: more) w
        = (Raise (TypeError (too_many_arguments "generate_sensor_readings"
                                                (S (List.length more)))),
           w))
  /\ (forall (R : Type) (AR : Arith R) (ctx : context R) (w : world R),
        call_generate_sensor_readings ctx [] w
        = generate_sensor_readings ctx w).
Proof.
  split; [|split; [|split; [|split]]].
  - intros R AR ctx w. exists (batch_readings ctx w).
    split; [apply generate_sensor_readings_run|].
    split; [apply length_batch_readings|].
    apply map_sensor_id_readings_at.
  - intros ctx w Hd. exists (batch_readings ctx w).
    split; [rewrite generate_sensor_readings_run; reflexivity|].
    apply readings_at_in_range. exact Hd.
  - intros ctx w Hd. exists (batch_readings ctx w).
    split; [rewrite generate_sensor_readings_run; reflexivity|].
    apply readings_at_in_range64. exact Hd.
  - intros R AR ctx w count more. reflexivity.
  - intros R AR ctx w. reflexivity.
Qed.

Lemma generate_sensor_readings_twenty_witness :
  ((forall i, 0 <= draws ctx_half i /\ draws ctx_half i < 1)
   /\ exists readings,
        fst (generate_sensor_readings ctx_half empty_world) = Ok readings
        /\ Forall reading_in_range readings)
  /\ ((forall i, PrimFloat.leb 0 (draws ctx_rounding i) = true
                 /\ PrimFloat.ltb (draws ctx_rounding i) 1 = true)
      /\ exists readings,
           fst (generate_sensor_readings ctx_rounding empty_world)
           = Ok readings
           /\ forallb reading_in_range64 readings = true).
Proof.
  assert (Hd : forall i, 0 <= draws ctx_half i /\ draws ctx_half i < 1)
    by (intros i; cbn; split; [discriminate|reflexivity]).
  assert (Hd64 : forall i, PrimFloat.leb 0 (draws ctx_rounding i) = true
                           /\ PrimFloat.ltb (draws ctx_rounding i) 1 = true)
    by (intros i; split; vm_compute; reflexivity).
  split; (split; [assumption|]).
  - exact (proj1 (proj2 generate_sensor_readings_twenty)
             ctx_half empty_world Hd).
  - exact (proj1 (proj2 (proj2 generate_sensor_readings_twenty))
             ctx_rounding empty_world Hd64).
Defined.

(** C3 as stated fails at the count 5: [generate_sensor_readings(5)]
    returns no reading at all, it raises TypeError, since the function is
    declared without parameter; and the call that Python accepts, the one
    without argument, returns twenty readings and not five. *)
Lemma generate_sensor_readings_rejects_count :
  fst (call_generate_sensor_readings ctx_half [5%Z] empty_world)
  = Raise (TypeError "generate_sensor_readings() takes 0 positional arguments but 1 was given")
  /\ ~ (exists readings,
          fst (call_generate_sensor_readings ctx_half [5%Z] empty_world)
          = Ok readings
          /\ List.length readings = 5%nat
          /\ map (@sensor_id Q) readings = [1; 2; 3; 4; 5]%Z)
  /\ (exists readings,
        fst (call_generate_sensor_readings ctx_half [] empty_world)
        = Ok readings
        /\ List.length readings = 20%nat
        /\ List.length readings <> 5%nat).
Proof.
  split; [reflexivity|]. split.
  - intros (readings & E & _). discriminate E.
  - eexists. split; [cbn [call_generate_sensor_readings];
                     rewrite generate_sensor_readings_run; reflexivity|].
    rewrite length_batch_readings. split; [reflexivity|discriminate].
Qed.

(** In binary64, at the two ends of the outputs of [random.random()]:
    the least output gives the lower bounds 5, 12, 30 and 400; the greatest
    gives values that round to at most the upper bounds (24 and 60 are
    reached). *)
Example generate_sensor_readings_extremes :
  (exists readings,
      fst (generate_sensor_readings ctx_least empty_world) = Ok readings
      /\ forallb reading_in_range64 readings = true)
  /\ (exists readings,
        fst (generate_sensor_readings ctx_greatest empty_world) = Ok readings
        /\ forallb reading_in_range64 readings = true
        /\ map (@wind float) (firstn 1 readings) = [lit 24]
        /\ map (@humidity float) (firstn 1 readings) = [lit 60]).
Proof.
  split; eexists; (split; [vm_compute; reflexivity|]);
    repeat split; vm_compute; reflexivity.
Qed.

End Generator.

(** ** Comparisons in binary64 *)

Section Binary64Order.

Lemma SFcompare_rank x y :
  x <> S754_nan -> y <> S754_nan ->
  (SFcompare x y = Some Lt /\ rank_lt (rank x) (rank y))
  \/ (SFcompare x y = Some Eq /\ rank x = rank y)
  \/ (SFcompare x y = Some Gt /\ rank_lt (rank y) (rank x)).
Proof.
  intros Hx Hy.
  destruct x as [sx|sx| |sx mx ex], y as [sy|sy| |sy my ey];
    try congruence; try destruct sx; try destruct sy; cbn;
    try (left; split; [reflexivity|lia]);
    try (right; left; split; reflexivity);
    try (right; right; split; [reflexivity|lia]).
  - change (Pos.compare_cont Eq mx my) with (Pos.compare mx my).
    destruct (Z.compare_spec ex ey); cbn.
    + destruct (Pos.compare_spec mx my); cbn.
      * right; left. subst. split; reflexivity.
      * right; right. split; [reflexivity|lia].
      * left. split; [reflexivity|lia].
    + right; right. split; [reflexivity|lia].
    + left. split; [reflexivity|lia].
  - change (Pos.compare_cont Eq mx my) with (Pos.compare mx my).
    destruct (Z.compare_spec ex ey); cbn.
    + destruct (Pos.compare_spec mx my); cbn.
      * right; left. subst. split; reflexivity.
      * left. split; [reflexivity|lia].
      * right; right. split; [reflexivity|lia].
    + left. split; [reflexivity|lia].
    + right; right. split; [reflexivity|lia].
Qed.

Lemma rank_lt_irrefl a : ~ rank_lt a a.
Proof. destruct a as [[a1 a2] a3]. cbn. lia. Qed.

Lemma rank_lt_asym a b : rank_lt a b -> ~ rank_lt b a.
Proof. destruct a as [[a1 a2] a3], b as [[b1 b2] b3]. cbn. lia. Qed.

Lemma rank_le_trans a b c : rank_le a b -> rank_le b c -> rank_le a c.
Proof.
  unfold rank_le. intros [H1| ->] [H2| ->]; auto.
  left. destruct a as [[a1 a2] a3], b as [[b1 b2] b3], c as [[c1 c2] c3].
  cbn in *. lia.
Qed.

Lemma Prim2SF_number x : number x -> Prim2SF x <> S754_nan.
Proof.
  unfold number. intros H. unfold Prim2SF. rewrite H.
  destruct (PrimFloat.is_zero x); [discriminate|].
  destruct (PrimFloat.is_infinity x); [discriminate|].
  destruct (Z.frexp x) as [r e].
  destruct (shr_fexp prec emax _ _ _) as [m e'].
  destruct (shr_m m); discriminate.
Qed.

(** [x <? y] and [x <=? y] on numbers, read on the ranks. *)
Lemma ltb_rank x y :
  number x -> number y ->
  (PrimFloat.ltb x y = true <-> rank_lt (rank (Prim2SF x)) (rank (Prim2SF y))).
Proof.
  intros Hx Hy. rewrite FloatAxioms.ltb_spec. unfold SFltb.
  destruct (SFcompare_rank (Prim2SF_number Hx) (Prim2SF_number Hy))
    as [(E & H)|[(E & H)|(E & H)]]; rewrite E.
  - tauto.
  - rewrite H. split; [discriminate|]. intros F. destruct (rank_lt_irrefl _ F).
  - split; [discriminate|]. intros F. destruct (rank_lt_asym _ _ H F).
Qed.

Lemma leb_rank x y :
  number x -> number y ->
  (PrimFloat.leb x y = true <-> rank_le (rank (Prim2SF x)) (rank (Prim2SF y))).
Proof.
  intros Hx Hy. rewrite FloatAxioms.leb_spec. unfold SFleb, rank_le.
  destruct (SFcompare_rank (Prim2SF_number Hx) (Prim2SF_number Hy))
    as [(E & H)|[(E & H)|(E & H)]]; rewrite E.
  - tauto.
  - tauto.
  - split; [discriminate|]. intros [F|F].
    + destruct (rank_lt_asym _ _ H F).
    + rewrite F in H. destruct (rank_lt_irrefl _ H).
Qed.

(** The minimum of numbers is a number at most the first value. *)
Lemma sql_min_le_start64 (xs : list float) : forall m,
  number m -> Forall number xs ->
  number (sql_min m xs) /\ PrimFloat.leb (sql_min m xs) m = true.
Proof.
  induction xs as [|x xs IH]; intros m Hm Hxs; cbn.
  - split; [exact Hm|]. apply leb_rank; auto. right. reflexivity.
  - inversion Hxs as [|? ? Hx Hxs']; subst.
    destruct (PrimFloat.ltb x m) eqn:E.
    + destruct (IH x Hx Hxs') as (Hn & Hle). split; [exact Hn|].
      apply leb_rank; auto. apply leb_rank in Hle; auto.
      apply ltb_rank in E; auto.
      eapply rank_le_trans; [exact Hle|left; exact E].
    + apply IH; assumption.
Qed.

Lemma sql_max_ge_start64 (xs : list float) : forall m,
  number m -> Forall number xs ->
  number (sql_max m xs) /\ PrimFloat.leb m (sql_max m xs) = true.
Proof.
  induction xs as [|x xs IH]; intros m Hm Hxs; cbn.
  - split; [exact Hm|]. apply leb_rank; auto. right. reflexivity.
  - inversion Hxs as [|? ? Hx Hxs']; subst.
    destruct (PrimFloat.ltb m x) eqn:E.
    + destruct (IH x Hx Hxs') as (Hn & Hle). split; [exact Hn|].
      apply leb_rank; auto. apply leb_rank in Hle; auto.
      apply ltb_rank in E; auto.
      eapply rank_le_trans; [left; exact E|exact Hle].
    + apply IH; assumption.
Qed.

Lemma sql_min_le_max64 (x0 : float) (xs : list float) :
  number x0 -> Forall number xs ->
  PrimFloat.leb (sql_min x0 xs) (sql_max x0 xs) = true.
Proof.
  intros H0 Hxs.
  destruct (@sql_min_le_start64 xs x0 H0 Hxs) as (Hn1 & H1).
  destruct (@sql_max_ge_start64 xs x0 H0 Hxs) as (Hn2 & H2).
  apply leb_rank; auto. apply leb_rank in H1; auto. apply leb_rank in H2; auto.
  eapply rank_le_trans; eassumption.
Qed.

(** In binary64, the statistics of a table of numbers have the minimum
    of each metric at most its maximum. *)
Lemma stats_min_le_max64 (t : list (row float)) :
  Forall row_of_numbers t -> Forall min_le_max64 (stats_data t).
Proof.
  intros Ht. apply Forall_forall. intros s Hs.
  destruct (stats_data_entry t s Hs) as (r0 & rs & Hrows & ->).
  assert (Hin : forall r, In r (r0 :: rs) -> row_of_numbers r).
  { intros r Hr. rewrite <- Hrows in Hr. apply rows_of_sensor_in in Hr.
    rewrite Forall_forall in Ht. apply Ht. apply Hr. }
  assert (Hcol : forall col : row float -> float,
             (forall r, row_of_numbers r -> number (col r)) ->
             PrimFloat.leb (sql_min (col r0) (map col rs))
                           (sql_max (col r0) (map col rs)) = true).
  { intros col Hc. apply sql_min_le_max64.
    - apply Hc, Hin. left. reflexivity.
    - apply Forall_forall. intros x Hx. apply in_map_iff in Hx.
      destruct Hx as (r & <- & Hr). apply Hc, Hin. right. exact Hr. }
  unfold min_le_max64, format_row, select_row, aggregates, float_of; cbn.
  repeat split; apply Hcol; intros r Hr; apply Hr.
Qed.

End Binary64Order.

(** ** min, avg and max *)

Section MeanBetween.

Lemma sql_min_le_start (xs : list Q) : forall m, sql_min m xs <= m.
Proof.
  induction xs as [|x xs IH]; intros m; cbn.
  - apply Qle_refl.
  - destruct (Qle_bool m x) eqn:E; cbn.
    + apply IH.
    + eapply Qle_trans; [apply IH|].
      apply Qlt_le_weak, Qnot_le_lt. rewrite <- Qle_bool_iff. congruence.
Qed.

Lemma sql_min_le (xs : list Q) : forall m y, In y xs -> sql_min m xs <= y.
Proof.
  induction xs as [|x xs IH]; intros m y Hy; [destruct Hy|].
  cbn. destruct Hy as [<-|Hy]; [|apply IH; exact Hy].
  destruct (Qle_bool m x) eqn:E; cbn.
  - eapply Qle_trans; [apply sql_min_le_start|].
    apply Qle_bool_iff; exact E.
  - apply sql_min_le_start.
Qed.

Lemma sql_max_ge_start (xs : list Q) : forall m, m <= sql_max m xs.
Proof.
  induction xs as [|x xs IH]; intros m; cbn.
  - apply Qle_refl.
  - destruct (Qle_bool x m) eqn:E; cbn.
    + apply IH.
    + eapply Qle_trans; [|apply IH].
      apply Qlt_le_weak, Qnot_le_lt. rewrite <- Qle_bool_iff. congruence.
Qed.

Lemma sql_max_ge (xs : list Q) : forall m y, In y xs -> y <= sql_max m xs.
Proof.
  induction xs as [|x xs IH]; intros m y Hy; [destruct Hy|].
  cbn. destruct Hy as [<-|Hy]; [|apply IH; exact Hy].
  destruct (Qle_bool x m) eqn:E; cbn.
  - eapply Qle_trans; [|apply sql_max_ge_start].
    apply Qle_bool_iff; exact E.
  - apply sql_max_ge_start.
Qed.

Lemma inject_Z_succ (n : nat) :
  inject_Z (Z.of_nat (S n)) == inject_Z (Z.of_nat n) + 1.
Proof.
  rewrite Nat2Z.inj_succ. unfold Z.succ. rewrite inject_Z_plus. reflexivity.
Qed.

(** A sum of [n] values that are all at least [lo] is at least [lo * n],
    and at most [hi * n] when they are all at most [hi]. *)
Lemma sum_ge (lo : Q) (xs : list Q) : forall acc n,
  lo * inject_Z (Z.of_nat n) <= acc ->
  (forall y, In y xs -> lo <= y) ->
  lo * inject_Z (Z.of_nat (n + List.length xs)) <= fold_left Qplus xs acc.
Proof.
  induction xs as [|x xs IH]; intros acc n Hacc Hall; cbn.
  - rewrite Nat.add_0_r. exact Hacc.
  - replace (n + S (List.length xs))%nat with (S n + List.length xs)%nat by lia.
    apply IH.
    + rewrite inject_Z_succ.
      assert (lo <= x) by (apply Hall; left; reflexivity). lra.
    + intros y Hy. apply Hall. right. exact Hy.
Qed.

Lemma sum_le (hi : Q) (xs : list Q) : forall acc n,
  acc <= hi * inject_Z (Z.of_nat n) ->
  (forall y, In y xs -> y <= hi) ->
  fold_left Qplus xs acc <= hi * inject_Z (Z.of_nat (n + List.length xs)).
Proof.
  induction xs as [|x xs IH]; intros acc n Hacc Hall; cbn.
  - rewrite Nat.add_0_r. exact Hacc.
  - replace (n + S (List.length xs))%nat with (S n + List.length xs)%nat by lia.
    apply IH.
    + rewrite inject_Z_succ.
      assert (x <= hi) by (apply Hall; left; reflexivity). lra.
    + intros y Hy. apply Hall. right. exact Hy.
Qed.

Lemma count_positive (n : nat) : 0 < inject_Z (Z.of_nat (S n)).
Proof. change 0 with (inject_Z 0). rewrite <- Zlt_Qlt. lia. Qed.

(** Without rounding, the mean of the values of a group lies between
    their minimum and their maximum. *)
Lemma mean_between (x0 : Q) (xs : list Q) :
  sql_min x0 xs <= sql_avg x0 xs /\ sql_avg x0 xs <= sql_max x0 xs.
Proof.
  unfold sql_avg, sql_sum. cbn [rdiv lit exact]. split.
  - apply Qle_shift_div_l; [apply count_positive|].
    apply (@sum_ge (sql_min x0 xs) xs x0 1).
    + cbn. rewrite Qmult_1_r. apply sql_min_le_start.
    + intros y Hy. apply sql_min_le. exact Hy.
  - apply Qle_shift_div_r; [apply count_positive|].
    apply (@sum_le (sql_max x0 xs) xs x0 1).
    + cbn. rewrite Qmult_1_r. apply sql_max_ge_start.
    + intros y Hy. apply sql_max_ge. exact Hy.
Qed.

Lemma select_row_ordered (g : group (R := Q)) :
  stats_ordered (format_row (select_row g)).
Proof.
  unfold stats_ordered, format_row, select_row, aggregates, float_of; cbn.
  repeat split; apply mean_between.
Qed.

Lemma stats_mean_between (t : list (row Q)) :
  Forall stats_ordered (stats_data t).
Proof.
  unfold stats_data, select_stats. rewrite map_map.
  apply Forall_forall. intros s Hs.
  apply in_map_iff in Hs. destruct Hs as (g & <- & _).
  apply select_row_ordered.
Qed.

(** C2 (as the code has it): whatever rows the appends have put in the
    table, every element of the statistics has [min <= avg <= max] for
    each of the four metrics when the mean is taken without rounding; in
    binary64, the arithmetic of the code, every element has [min <= max]
    for each metric as long as the table holds numbers. *)
Theorem stats_min_avg_max :
  (forall t : list (row Q), Forall stats_ordered (stats_data t))
  /\ (forall t : list (row float),
        Forall row_of_numbers t -> Forall min_le_max64 (stats_data t)).
Proof. split; [exact stats_mean_between|exact stats_min_le_max64]. Qed.

(** C2 as stated fails in binary64, the arithmetic of the code.  Three
    calls of [generate_http] in which [random.random()] returns
    0.5000000000000002 store three readings of 11.500000000000004 for the
    temperature of each sensor; their sum rounds to 34.500000000000014 and
    a third of it rounds to 11.500000000000005: the statistics that
    [stats_http] then returns have, for sensor 1 (and every other),
    [temperature_avg] above [temperature_max]. *)
Lemma mean_above_max_binary64 :
  List.length (table three_batches) = 60%nat
  /\ fst (stats_http ctx_rounding three_batches)
     = Ok (mkResponse 200 (StatsJson (stats_data (table three_batches))))
  /\ exists s,
       hd_error (stats_data (table three_batches)) = Some s
       /\ stats_sensor_id s = 1%Z
       /\ temperature_min s = temperature_max s
       /\ PrimFloat.ltb (temperature_max s) (temperature_avg s) = true
       /\ stats_ordered64 s = false.
Proof.
  split; [vm_compute; reflexivity|].
  split; [vm_compute; reflexivity|].
  eexists. split; [vm_compute; reflexivity|].
  cbn [stats_sensor_id temperature_min temperature_max temperature_avg].
  repeat split; vm_compute; reflexivity.
Qed.

(** The rows that the three calls have stored are numbers. *)
Example three_batches_numbers : Forall row_of_numbers (table three_batches).
Proof.
  assert (H : forallb (fun r : row float =>
                         negb (PrimFloat.is_nan (Temperature r))
                         && negb (PrimFloat.is_nan (WindSpeed r))
                         && negb (PrimFloat.is_nan (Humidity r))
                         && negb (PrimFloat.is_nan (CO2 r)))
                      (table three_batches) = true)
    by (vm_compute; reflexivity).
  apply Forall_forall. intros r Hr.
  apply (proj1 (forallb_forall _ _) H) in Hr. clear H. rename Hr into H.
  cbv beta in H.
  apply andb_prop in H. destruct H as (H & H4).
  apply andb_prop in H. destruct H as (H & H3).
  apply andb_prop in H. destruct H as (H1 & H2).
  apply negb_true_iff in H1, H2, H3, H4.
  unfold row_of_numbers, number. auto.
Qed.

(** The scenario of the specification: three readings of sensor 1 with
    temperatures 10, 12 and 14 give the minimum 10, the maximum 14 and the
    mean 12. *)
Example stats_of_three_readings :
  let t := [mkRow 1 10 12 30 400 0; mkRow 1 12 12 30 400 0;
            mkRow 1 14 12 30 400 0] in
  exists s,
    stats_data t = [s]
    /\ stats_sensor_id s = 1%Z
    /\ temperature_min s == 10
    /\ temperature_max s == 14
    /\ temperature_avg s == 12.
Proof.
  eexists. split; [reflexivity|]. cbn. repeat split; reflexivity.
Qed.

End MeanBetween.

(** ** Concurrent appends *)

Section Concurrency.

Context {R : Type}.

Lemma set_nth_split {A} (l : list A) : forall i x y,
  nth_error l i = Some x ->
  exists l1 l2, l = l1 ++ x :: l2 /\ set_nth i y l = l1 ++ y :: l2.
Proof.
  induction l as [|a l IH]; intros [|i] x y H; cbn in *; try discriminate.
  - inversion H; subst. exists [], l. split; reflexivity.
  - destruct (IH i x y H) as (l1 & l2 & -> & E).
    exists (a :: l1), l2. cbn. rewrite E. split; reflexivity.
Qed.

(** One call of a fault-free invocation: the invocation stays fault-free
    and consistent, keeps its batch, and the table together with what is
    yet to be committed holds the same rows as before. *)
Lemma step_invocation_fault_free (t : list (row R)) v :
  fault_free v -> consistent v ->
  let (t', v') := step_invocation t v in
  fault_free v' /\ consistent v' /\ inv_batch v' = inv_batch v
  /\ t' ++ to_commit v' = t ++ to_commit v.
Proof.
  intros Hf Hc. unfold step_invocation.
  destruct v as [f b p x]. unfold fault_free, consistent, to_commit in *.
  cbn in *. destruct p as [| |i [|r todo]| |]; cbn.
  - rewrite Hf. cbn. auto.
  - rewrite Hf. cbn. subst x. auto.
  - rewrite Hf. cbn. rewrite app_nil_r in Hc. subst x.
    rewrite app_nil_r. auto.
  - rewrite Hf. cbn. rewrite <- app_assoc. auto.
  - auto.
  - auto.
Qed.

Lemma swap_middle {A} (t t' a c c' b : list A) :
  t' ++ c' = t ++ c ->
  Permutation (t' ++ a ++ c' ++ b) (t ++ a ++ c ++ b).
Proof.
  intros E.
  rewrite (Permutation_app_swap_app t' a), (Permutation_app_swap_app t a).
  rewrite (app_assoc t' c' b), (app_assoc t c b), E. reflexivity.
Qed.

Lemma invariant_start t0 (batches : list (list (row R))) :
  invariant t0 batches (t0, map (start no_faults) batches).
Proof.
  unfold invariant; cbn. repeat split.
  - apply Forall_forall. intros v Hv. apply in_map_iff in Hv.
    destruct Hv as (b & <- & _). intros c. reflexivity.
  - apply Forall_forall. intros v Hv. apply in_map_iff in Hv.
    destruct Hv as (b & <- & _). reflexivity.
  - rewrite map_map. cbn. apply map_id.
  - rewrite map_map. cbn. rewrite map_id. apply Permutation_refl.
Qed.

Lemma invariant_step t0 batches (s : system R) i :
  invariant t0 batches s -> invariant t0 batches (schedule_step s i).
Proof.
  destruct s as [t vs]. unfold invariant, schedule_step. cbn [fst snd].
  intros (Hf & Hc & Hb & Hp).
  destruct (nth_error vs i) as [v|] eqn:Hv; [|cbn; auto].
  destruct (step_invocation t v) as [t' v'] eqn:Hs. cbn [fst snd].
  destruct (set_nth_split vs i v' Hv) as (l1 & l2 & -> & ->).
  apply Forall_app in Hf. destruct Hf as (Hf1 & Hf2).
  apply Forall_app in Hc. destruct Hc as (Hc1 & Hc2).
  inversion Hf2 as [|? ? Hfv Hf2']. inversion Hc2 as [|? ? Hcv Hc2'].
  pose proof (step_invocation_fault_free t Hfv Hcv) as Hstep.
  rewrite Hs in Hstep. destruct Hstep as (Hfv' & Hcv' & Hbv' & Ht').
  split; [apply Forall_app; auto|]. split; [apply Forall_app; auto|].
  split.
  - rewrite <- Hb, !map_app. cbn. rewrite Hbv'. reflexivity.
  - rewrite <- Hp. rewrite !map_app, !concat_app. cbn.
    apply swap_middle. exact Ht'.
Qed.

Lemma invariant_run t0 batches sched : forall s : system R,
  invariant t0 batches s -> invariant t0 batches (run_schedule sched s).
Proof.
  induction sched as [|i sched IH]; intros s H; cbn; [exact H|].
  apply IH. apply invariant_step. exact H.
Qed.

Lemma finished_nothing_to_commit (vs : list (invocation R)) :
  forallb (@is_finished R) vs = true -> List.concat (map (@to_commit R) vs) = [].
Proof.
  induction vs as [|v vs IH]; cbn; [reflexivity|].
  intros H. apply andb_prop in H. destruct H as (Hv & Hvs).
  rewrite (IH Hvs), app_nil_r.
  unfold is_finished in Hv. unfold to_commit.
  destruct (inv_pc v); try discriminate. reflexivity.
Qed.

Lemma length_concat_uniform {A} (K : nat) (ls : list (list A)) :
  Forall (fun l => List.length l = K) ls ->
  List.length (List.concat ls) = (List.length ls * K)%nat.
Proof.
  induction 1 as [|l ls Hl _ IH]; cbn; [reflexivity|].
  rewrite length_app, IH, Hl. reflexivity.
Qed.

(** Once all the fault-free invocations of a run have finished, the table
    holds the rows it had and the rows of all the batches. *)
Lemma finished_run_table (t0 : list (row R)) (batches : list (list (row R)))
  (sched : list nat) :
  all_finished (run_schedule sched (t0, map (start no_faults) batches)) = true ->
  Permutation (fst (run_schedule sched (t0, map (start no_faults) batches)))
              (t0 ++ List.concat batches).
Proof.
  intros Hfin.
  pose proof (invariant_run sched (invariant_start t0 batches))
    as (_ & _ & _ & Hp).
  unfold all_finished in Hfin.
  rewrite (finished_nothing_to_commit _ Hfin), app_nil_r in Hp.
  exact Hp.
Qed.

(** C4: [N] invocations of an ingestion handler, each with a batch of [K]
    rows and none meeting a failure, make their pyodbc calls in any
    interleaving.  Once all have finished, the table holds the rows it had
    and the rows of the [N] batches, each as many times as it was given
    and no other: [N * K] rows more than before. *)
Theorem concurrent_appends_all_visible
  (N K : nat) (t0 : list (row R)) (batches : list (list (row R)))
  (sched : list nat) :
  List.length batches = N ->
  Forall (fun b => List.length b = K) batches ->
  all_finished (run_schedule sched (t0, map (start no_faults) batches)) = true ->
  let t := fst (run_schedule sched (t0, map (start no_faults) batches)) in
  Permutation t (t0 ++ List.concat batches)
  /\ List.length t = (List.length t0 + N * K)%nat.
Proof.
  intros HN HK Hfin. cbv zeta.
  pose proof (finished_run_table t0 batches sched Hfin) as Hp.
  split; [exact Hp|].
  rewrite (Permutation_length Hp), length_app.
  rewrite (length_concat_uniform HK), HN. reflexivity.
Qed.

(** For the batches of the handlers, which have twenty rows each: after
    the invocations started in the worlds [calls] have all finished, the
    table has twenty rows more for each of them. *)
Lemma concurrent_ingestions_twenty_each {AR : Arith R}
  (calls : list (context R * world R)) (t0 : list (row R)) (sched : list nat) :
  let batches := map (fun c => batch_rows (fst c) (snd c)) calls in
  all_finished (run_schedule sched (t0, map (start no_faults) batches)) = true ->
  List.length (fst (run_schedule sched (t0, map (start no_faults) batches)))
  = (List.length t0 + List.length calls * 20)%nat.
Proof.
  cbv zeta. intros Hfin.
  rewrite (Permutation_length (finished_run_table _ _ _ Hfin)), length_app.
  rewrite (@length_concat_uniform _ 20).
  - rewrite length_map. reflexivity.
  - apply Forall_forall. intros b Hb. apply in_map_iff in Hb.
    destruct Hb as (c & <- & _). apply length_batch_rows.
Qed.

End Concurrency.

Lemma concurrent_appends_all_visible_witness :
  List.length two_batches = 2%nat
  /\ Forall (fun b => List.length b = 2%nat) two_batches
  /\ all_finished
       (run_schedule interleaved ([], map (start no_faults) two_batches))
     = true
  /\ Permutation
       (fst (run_schedule interleaved ([], map (start no_faults) two_batches)))
       ([] ++ List.concat two_batches)
  /\ List.length
       (fst (run_schedule interleaved ([], map (start no_faults) two_batches)))
     = (0 + 2 * 2)%nat.
Proof.
  assert (HN : List.length two_batches = 2%nat) by reflexivity.
  assert (HK : Forall (fun b : list (row Q) => List.length b = 2%nat)
                      two_batches)
    by (repeat constructor).
  assert (Hfin : all_finished
                   (run_schedule interleaved
                                 ([], map (start no_faults) two_batches))
                 = true)
    by reflexivity.
  split; [exact HN|]. split; [exact HK|]. split; [exact Hfin|].
  exact (@concurrent_appends_all_visible Q 2 2 [] two_batches interleaved
                                         HN HK Hfin).
Defined.

(** * Further properties of the handlers *)

(** ** Errors of the handlers *)

Section HandlerErrors.

Context {R : Type} {AR : Arith R}.
Variable ctx : context R.
Variable json_dumps : list (sensor_stats R) -> string.

(** What [stats_sql_trigger] returns and the world it leaves. *)
Lemma stats_sql_trigger_run changes w :
  stats_sql_trigger ctx json_dumps changes w
  = (Ok tt,
     mkWorld (table w) None (rand_pos w) (clock_reads w)
       ((logs w
         ++ [Info "SQL trigger fired for SensorReadings. Recomputing statistics..."
                  []])
        ++ [match stats_error ctx with
            | None =>
                Info "Statistics (triggered automatically): %s"
                     [ArgStr (json_dumps (stats_data (table w)))]
            | Some msg =>
                Error "SQL trigger statistics error: %s" [ArgStr msg]
            end])).
Proof.
  unfold stats_sql_trigger. unfold bind at 1. cbn [log].
  unfold try_finally, try_except, stats_error, os_environ, pyodbc_connect,
    conn_cursor, cursor_select_stats.
  destruct (environ ctx CONNECTION_KEY) as [cs|].
  2:{ unfold bind at 1. unfold raise at 1. cbn [log].
      rewrite close_quietly_run. reflexivity. }
  unfold bind at 1. unfold ret at 1.
  destruct (faults ctx Connect) as [m|] eqn:F1.
  { unfold bind. rewrite (fault_at_some ctx _ _ F1). cbn [log].
    rewrite close_quietly_run. reflexivity. }
  destruct (faults ctx Cursor) as [m|] eqn:F2.
  { unfold bind. rewrite (fault_at_none ctx _ _ F1), (fault_at_some ctx _ _ F2).
    cbn [log]. rewrite close_quietly_run. reflexivity. }
  destruct (faults ctx Select) as [m|] eqn:F3.
  { unfold bind. rewrite (fault_at_none ctx _ _ F1), (fault_at_none ctx _ _ F2).
    rewrite (fault_at_some ctx _ _ F3). cbn [log].
    rewrite close_quietly_run. reflexivity. }
  destruct (faults ctx Fetchall) as [m|] eqn:F4.
  { unfold bind. rewrite (fault_at_none ctx _ _ F1), (fault_at_none ctx _ _ F2).
    rewrite (fault_at_none ctx _ _ F3), (fault_at_some ctx _ _ F4). cbn [log].
    rewrite close_quietly_run. reflexivity. }
  unfold bind. rewrite (fault_at_none ctx _ _ F1), (fault_at_none ctx _ _ F2).
  rewrite (fault_at_none ctx _ _ F3), (fault_at_none ctx _ _ F4). cbn [log].
  rewrite close_quietly_run. reflexivity.
Qed.

(** X1: without the connection string in the environment the two
    ingestion handlers raise [KeyError]: the lookup is before their [try]
    statement, so they answer nothing, log no error ([generate_http] has
    logged its first line and [generate_timer] its first two), make no
    pyodbc call and lose the readings they have generated.  The two statistics
    handlers look the string up inside their [try] statement:
    [stats_http] answers 500 with the quoted name of the variable and
    [stats_sql_trigger] returns.  None of the four touches the table. *)
Theorem connection_string_missing changes w :
  environ ctx CONNECTION_KEY = None ->
  (fst (generate_http ctx w) = Raise (KeyError CONNECTION_KEY)
   /\ fst (generate_timer ctx w) = Raise (KeyError CONNECTION_KEY)
   /\ fst (stats_http ctx w)
      = Ok (mkResponse 500 (Text "'AZURE_SQL_CONNECTIONSTRING'"))
   /\ fst (stats_sql_trigger ctx json_dumps changes w) = Ok tt)
  /\ (table (snd (generate_http ctx w)) = table w
      /\ table (snd (generate_timer ctx w)) = table w
      /\ table (snd (stats_http ctx w)) = table w
      /\ table (snd (stats_sql_trigger ctx json_dumps changes w)) = table w)
  /\ (txn (snd (generate_http ctx w)) = txn w
      /\ txn (snd (generate_timer ctx w)) = txn w
      /\ txn (snd (stats_http ctx w)) = txn w)
  /\ logs (snd (generate_http ctx w))
     = logs w ++ [Info "HTTP trigger called to generate sensor data." []]
  /\ rand_pos (snd (generate_http ctx w)) = (rand_pos w + 80)%nat
  /\ rand_pos (snd (generate_timer ctx w)) = (rand_pos w + 80)%nat
  /\ logs (snd (generate_timer ctx w))
     = logs w
       ++ [Info "Timer trigger called to generate sensor data." []]
       ++ [Info "[%s] Generated %d sensor readings."
                [ArgTime (clock ctx (clock_reads w)); ArgNat 20]].
Proof.
  intros Henv.
  rewrite generate_http_run, generate_timer_run, stats_http_run.
  rewrite stats_sql_trigger_run. unfold stats_error. rewrite Henv. cbn.
  repeat split.
Qed.

(** X2: when the connection string is configured and a call of the insert
    path raises, [generate_timer] does not raise: it returns, having
    logged one error line with the text of the first error; the table is
    as before and no connection stays open.  The next firing that meets
    no failure inserts its batch. *)
Theorem generate_timer_store_failure w cs :
  environ ctx CONNECTION_KEY = Some cs ->
  insert_path_fails ctx ->
  exists msg,
    ingest_fault (faults ctx) 20 = Some msg
    /\ fst (generate_timer ctx w) = Ok tt
    /\ table (snd (generate_timer ctx w)) = table w
    /\ txn (snd (generate_timer ctx w)) = None
    /\ logs (snd (generate_timer ctx w))
       = (logs w
          ++ [Info "Timer trigger called to generate sensor data." []]
          ++ [Info "[%s] Generated %d sensor readings."
                   [ArgTime (clock ctx (clock_reads w)); ArgNat 20]])
         ++ [Error "Timer trigger SQL error: %s" [ArgStr msg]]
    /\ forall ctx' : context R,
         ingestion_succeeds ctx' = true ->
         let w' := snd (generate_timer ctx w) in
         fst (generate_timer ctx' w') = Ok tt
         /\ table (snd (generate_timer ctx' w'))
            = table w ++ batch_rows ctx' w'.
Proof.
  intros Henv Hfail.
  destruct (insert_path_fails_fault Hfail) as (msg & Hmsg).
  exists msg. split; [exact Hmsg|].
  rewrite generate_timer_run, Henv, Hmsg.
  cbn [fst snd table txn logs].
  split; [reflexivity|]. split; [reflexivity|]. split; [reflexivity|].
  split; [reflexivity|].
  intros ctx' Hok. cbv zeta. rewrite generate_timer_run.
  unfold ingestion_succeeds in Hok.
  destruct (environ ctx' CONNECTION_KEY); [|discriminate].
  destruct (ingest_fault (faults ctx') 20); [discriminate|].
  cbn. split; reflexivity.
Qed.

(** X3: the status of the response of [generate_http] tells what happened
    to the table.  A response with status 200 has the body
    [{inserted: 20, timestamp, readings}] and the table has received the
    rows of exactly these readings with this timestamp; any other response
    has status 500 and a text starting with "Error inserting into SQL: ",
    and the table is as before.  The handler raises only [KeyError], when
    the connection string is missing, and then the table is as before
    too. *)
Theorem generate_http_status_tells_commit w :
  match fst (generate_http ctx w) with
  | Ok resp =>
      (status_code resp = 200%Z
       /\ exists ts readings,
            resp_body resp = GenerateJson 20 ts readings
            /\ List.length readings = 20%nat
            /\ table (snd (generate_http ctx w))
               = table w ++ map (insert_params ts) readings)
      \/ (status_code resp = 500%Z
          /\ (exists msg,
                 resp_body resp = Text ("Error inserting into SQL: " ++ msg))
          /\ table (snd (generate_http ctx w)) = table w)
  | Raise e =>
      e = KeyError CONNECTION_KEY
      /\ environ ctx CONNECTION_KEY = None
      /\ table (snd (generate_http ctx w)) = table w
  end.
Proof.
  rewrite generate_http_run.
  destruct (environ ctx CONNECTION_KEY);
    [|cbn [fst snd table]; repeat split].
  destruct (ingest_fault (faults ctx) 20) as [msg|];
    cbn [fst snd table status_code resp_body].
  - right. split; [reflexivity|]. split; [exists msg|]; reflexivity.
  - left. split; [reflexivity|].
    exists (clock ctx (clock_reads w)), (batch_readings ctx w).
    split; [reflexivity|]. split; [apply length_batch_readings|].
    unfold batch_rows. reflexivity.
Qed.

(** X4: an error of [conn.close()] is never reported.  When the ingestion
    goes through and [close] raises, [generate_http] still answers 200 and
    [generate_timer] returns; the batch is in the table, no connection
    stays open and the log of either handler ends with the line that
    reports the twenty rows, without an error line. *)
Theorem close_error_is_dropped w msg :
  ingestion_succeeds ctx = true ->
  faults ctx Close = Some msg ->
  fst (generate_http ctx w)
  = Ok (mkResponse 200 (GenerateJson 20 (clock ctx (clock_reads w))
                                     (batch_readings ctx w)))
  /\ fst (generate_timer ctx w) = Ok tt
  /\ table (snd (generate_http ctx w)) = table w ++ batch_rows ctx w
  /\ table (snd (generate_timer ctx w)) = table w ++ batch_rows ctx w
  /\ txn (snd (generate_http ctx w)) = None
  /\ txn (snd (generate_timer ctx w)) = None
  /\ logs (snd (generate_http ctx w))
     = (logs w ++ [Info "HTTP trigger called to generate sensor data." []])
       ++ [Info "Inserted %d rows into SensorReadings." [ArgNat 20]]
  /\ logs (snd (generate_timer ctx w))
     = (logs w
        ++ [Info "Timer trigger called to generate sensor data." []]
        ++ [Info "[%s] Generated %d sensor readings."
                 [ArgTime (clock ctx (clock_reads w)); ArgNat 20]])
       ++ [Info "Inserted %d rows (timer trigger)" [ArgNat 20]].
Proof.
  intros Hok _. rewrite generate_http_run, generate_timer_run.
  unfold ingestion_succeeds in Hok.
  destruct (environ ctx CONNECTION_KEY); [|discriminate].
  destruct (ingest_fault (faults ctx) 20); [discriminate|].
  cbn [fst snd table txn logs].
  split; [reflexivity|]. split; [reflexivity|]. split; [reflexivity|].
  split; [reflexivity|]. split; [reflexivity|]. split; [reflexivity|].
  split; reflexivity.
Qed.

(** X5: [stats_sql_trigger] never raises, whatever the environment and
    whichever calls fail.  It leaves the table, the random stream and the
    clock as they were, writes two log lines and returns with its
    connection closed. *)
Theorem stats_sql_trigger_never_raises changes w :
  let after := snd (stats_sql_trigger ctx json_dumps changes w) in
  fst (stats_sql_trigger ctx json_dumps changes w) = Ok tt
  /\ table after = table w
  /\ txn after = None
  /\ rand_pos after = rand_pos w
  /\ clock_reads after = clock_reads w
  /\ List.length (logs after) = (List.length (logs w) + 2)%nat.
Proof.
  cbv zeta. rewrite stats_sql_trigger_run. cbn.
  repeat split. rewrite !length_app. cbn. lia.
Qed.

(** X6: on the same table and against the same context the two statistics
    handlers agree: where [stats_http] answers 200 with a list,
    [stats_sql_trigger] logs the JSON of the same list, and where
    [stats_http] answers 500 with a text, the trigger logs an error with
    the same text. *)
Theorem trigger_logs_what_stats_http_returns changes w :
  exists line,
    logs (snd (stats_sql_trigger ctx json_dumps changes w))
    = (logs w
       ++ [Info "SQL trigger fired for SensorReadings. Recomputing statistics..."
                []])
      ++ [line]
    /\ ((exists data,
           fst (stats_http ctx w) = Ok (mkResponse 200 (StatsJson data))
           /\ line = Info "Statistics (triggered automatically): %s"
                          [ArgStr (json_dumps data)])
        \/ (exists msg,
              fst (stats_http ctx w) = Ok (mkResponse 500 (Text msg))
              /\ line = Error "SQL trigger statistics error: %s"
                              [ArgStr msg])).
Proof.
  rewrite stats_sql_trigger_run, stats_http_run. cbn [snd logs].
  eexists. split; [reflexivity|].
  destruct (stats_error ctx) as [msg|]; cbn.
  - right. exists msg. split; reflexivity.
  - left. exists (stats_data (table w)). split; reflexivity.
Qed.

(** X7: [stats_http] has no [finally] clause and never calls
    [conn.close()]: once [pyodbc.connect] has succeeded, the handler
    returns, with status 200 or 500, without having closed its
    connection, which is left to whoever collects the object.
    [stats_sql_trigger], which sends the same query, closes it. *)
Theorem stats_http_does_not_close changes w cs :
  environ ctx CONNECTION_KEY = Some cs ->
  faults ctx Connect = None ->
  txn (snd (stats_http ctx w)) = Some []
  /\ txn (snd (stats_sql_trigger ctx json_dumps changes w)) = None.
Proof.
  intros Henv Hc. rewrite stats_http_run, stats_sql_trigger_run.
  unfold stats_error. rewrite Henv, Hc.
  destruct (faults ctx Cursor); [split; reflexivity|].
  destruct (faults ctx Select); [split; reflexivity|].
  destruct (faults ctx Fetchall); split; reflexivity.
Qed.

End HandlerErrors.

Lemma connection_string_missing_witness :
  environ ctx_half_not_configured CONNECTION_KEY = None
  /\ fst (generate_http ctx_half_not_configured empty_world)
     = Raise (KeyError CONNECTION_KEY)
  /\ fst (stats_http ctx_half_not_configured empty_world)
     = Ok (mkResponse 500 (Text "'AZURE_SQL_CONNECTIONSTRING'")).
Proof.
  assert (Henv : environ ctx_half_not_configured CONNECTION_KEY = None)
    by reflexivity.
  split; [exact Henv|].
  pose proof (@connection_string_missing Q exact ctx_half_not_configured
                (fun _ => EmptyString) EmptyString empty_world Henv)
    as ((H1 & _ & H3 & _) & _).
  split; [exact H1|exact H3].
Defined.

Lemma generate_timer_store_failure_witness :
  environ ctx_half_unreachable CONNECTION_KEY
  = Some "Server=tcp:sensors;Database=readings"%string
  /\ insert_path_fails ctx_half_unreachable
  /\ exists msg,
       ingest_fault (faults ctx_half_unreachable) 20 = Some msg
       /\ fst (generate_timer ctx_half_unreachable empty_world) = Ok tt
       /\ table (snd (generate_timer ctx_half_unreachable empty_world)) = [].
Proof.
  assert (Henv : environ ctx_half_unreachable CONNECTION_KEY
                 = Some "Server=tcp:sensors;Database=readings"%string)
    by reflexivity.
  assert (Hfail : insert_path_fails ctx_half_unreachable)
    by (left; discriminate).
  split; [exact Henv|]. split; [exact Hfail|].
  destruct (@generate_timer_store_failure Q exact ctx_half_unreachable
              empty_world _ Henv Hfail) as (msg & H1 & H2 & H3 & _).
  exists msg. split; [exact H1|]. split; [exact H2|exact H3].
Defined.

Lemma close_error_is_dropped_witness :
  ingestion_succeeds ctx_half_close_fails = true
  /\ faults ctx_half_close_fails Close
     = Some "08S01 Communication link failure"%string
  /\ fst (generate_timer ctx_half_close_fails empty_world) = Ok tt
  /\ table (snd (generate_http ctx_half_close_fails empty_world))
     = [] ++ batch_rows ctx_half_close_fails empty_world
  /\ txn (snd (generate_http ctx_half_close_fails empty_world)) = None.
Proof.
  assert (Hok : ingestion_succeeds ctx_half_close_fails = true)
    by reflexivity.
  assert (Hc : faults ctx_half_close_fails Close
               = Some "08S01 Communication link failure"%string)
    by reflexivity.
  split; [exact Hok|]. split; [exact Hc|].
  pose proof (@close_error_is_dropped Q exact ctx_half_close_fails
                empty_world _ Hok Hc) as (_ & H2 & H3 & _ & H5 & _).
  split; [exact H2|]. split; [exact H3|exact H5].
Defined.

Lemma stats_http_does_not_close_witness :
  environ ctx_half CONNECTION_KEY
  = Some "Server=tcp:sensors;Database=readings"%string
  /\ faults ctx_half Connect = None
  /\ txn (snd (stats_http ctx_half empty_world)) = Some []
  /\ txn (snd (stats_sql_trigger ctx_half (fun _ => EmptyString) EmptyString
                                  empty_world)) = None.
Proof.
  assert (Henv : environ ctx_half CONNECTION_KEY
                 = Some "Server=tcp:sensors;Database=readings"%string)
    by reflexivity.
  assert (Hc : faults ctx_half Connect = None) by reflexivity.
  split; [exact Henv|]. split; [exact Hc|].
  exact (@stats_http_does_not_close Q exact ctx_half
           (fun _ => EmptyString) EmptyString empty_world _ Henv Hc).
Defined.

(** ** What the statistics hold *)

Section StatisticsContent.

Context {R : Type} {AR : Arith R}.

Lemma sql_min_in (xs : list R) : forall m,
  sql_min m xs = m \/ In (sql_min m xs) xs.
Proof.
  induction xs as [|x xs IH]; intros m; [left; reflexivity|].
  change (sql_min m (x :: xs))
    with (sql_min (if rltb x m then x else m) xs).
  destruct (rltb x m).
  - destruct (IH x) as [E|H]; [rewrite E|]; cbn; auto.
  - destruct (IH m) as [E|H]; cbn; auto.
Qed.

Lemma sql_max_in (xs : list R) : forall m,
  sql_max m xs = m \/ In (sql_max m xs) xs.
Proof.
  induction xs as [|x xs IH]; intros m; [left; reflexivity|].
  change (sql_max m (x :: xs))
    with (sql_max (if rltb m x then x else m) xs).
  destruct (rltb m x).
  - destruct (IH x) as [E|H]; [rewrite E|]; cbn; auto.
  - destruct (IH m) as [E|H]; cbn; auto.
Qed.

(** A value among those of the column [col] in the rows of sensor [k] is
    attained. *)
Lemma column_value_attained (col : row R -> R) k (t : list (row R)) r0 rs v :
  rows_of_sensor k t = r0 :: rs ->
  v = col r0 \/ In v (map col rs) ->
  attained col v k t.
Proof.
  intros Hrows Hv.
  assert (Hr : exists r, In r (r0 :: rs) /\ col r = v).
  { destruct Hv as [->|Hv].
    - exists r0. split; [left|]; reflexivity.
    - apply in_map_iff in Hv. destruct Hv as (r & E & Hr).
      exists r. split; [right; exact Hr|exact E]. }
  destruct Hr as (r & Hr & E). rewrite <- Hrows in Hr.
  apply rows_of_sensor_in in Hr. destruct Hr as (Hin & Hk).
  exists r. auto.
Qed.

(** X8: in either arithmetic, every minimum and every maximum that the
    statistics report for a sensor is the value of one of the rows of this
    sensor in the table: the query never reports an extreme that no
    reading has. *)
Theorem stats_extremes_attained (t : list (row R)) :
  Forall (extremes_attained t) (stats_data t).
Proof.
  apply Forall_forall. intros s Hs.
  destruct (stats_data_entry t s Hs) as (r0 & rs & Hrows & E).
  assert (Hmin : forall col : row R -> R,
             attained col (sql_min (col r0) (map col rs))
                      (stats_sensor_id s) t).
  { intros col. apply (@column_value_attained col _ _ _ _ _ Hrows), sql_min_in. }
  assert (Hmax : forall col : row R -> R,
             attained col (sql_max (col r0) (map col rs))
                      (stats_sensor_id s) t).
  { intros col. apply (@column_value_attained col _ _ _ _ _ Hrows), sql_max_in. }
  unfold extremes_attained. rewrite E at 1 3 5 7 9 11 13 15.
  cbn [format_row select_row aggregates fst snd float_of
       temperature_min temperature_max wind_min wind_max
       humidity_min humidity_max co2_min co2_max].
  repeat split; auto.
Qed.

End StatisticsContent.

(** ** Ingestion followed by statistics *)

Section IngestThenStats.

Context {R : Type} {AR : Arith R}.

Local Abbreviation keys := (map (@fst Z (row R * list (row R)))).

(** A row of a sensor that has no group yet starts a group of its own,
    after the others. *)
Lemma group_insert_fresh (r : row R) gs :
  ~ In (SensorId r) (keys gs) ->
  group_insert r gs = gs ++ [(SensorId r, (r, []))].
Proof.
  induction gs as [|[k [r0 rs]] gs IH]; cbn; intros H; [reflexivity|].
  destruct (Z.eqb_spec k (SensorId r)) as [E|_].
  - exfalso. apply H. left. exact E.
  - rewrite IH; [reflexivity|]. intros Hin. apply H. right. exact Hin.
Qed.

Lemma group_by_distinct (t : list (row R)) :
  NoDup (map (@SensorId R) t) ->
  group_by_SensorId t = map (fun r => (SensorId r, (r, []))) t.
Proof.
  induction t as [|r t IH] using rev_ind; intros ND; [reflexivity|].
  rewrite group_by_snoc, map_app. cbn [map].
  rewrite map_app in ND. cbn [map] in ND.
  apply NoDup_remove in ND. rewrite app_nil_r in ND.
  destruct ND as (ND & Hr).
  rewrite (IH ND). apply group_insert_fresh.
  rewrite map_map. cbn [fst]. exact Hr.
Qed.

Lemma order_by_sorted (gs : list (group (R := R))) :
  StronglySorted Z.lt (keys gs) -> order_by_SensorId gs = gs.
Proof.
  unfold order_by_SensorId.
  induction gs as [|g gs IH]; intros S; [reflexivity|].
  cbn [map] in S. inversion S as [|? ? S' Hall]; subst.
  cbn [fold_right]. rewrite (IH S').
  destruct gs as [|g' gs']; [reflexivity|].
  cbn [order_insert]. cbn [map] in Hall. inversion Hall; subst.
  destruct (Z.leb_spec (fst g) (fst g')); [reflexivity|lia].
Qed.

(** The statistics of a table that has one row per sensor, in ascending
    order of the sensors. *)
Lemma stats_data_one_row_each ts (rs : list (reading R)) :
  StronglySorted Z.lt (map (@sensor_id R) rs) ->
  stats_data (map (insert_params ts) rs) = map stats_of_reading rs.
Proof.
  intros S.
  assert (E : map (@SensorId R) (map (insert_params ts) rs)
              = map (@sensor_id R) rs)
    by (rewrite map_map; reflexivity).
  unfold stats_data, select_stats.
  rewrite group_by_distinct
    by (rewrite E; apply StronglySorted_lt_NoDup; exact S).
  rewrite order_by_sorted.
  - rewrite !map_map. apply map_ext. intros r. reflexivity.
  - rewrite !map_map. exact S.
Qed.

Lemma range_sorted lo hi : StronglySorted Z.lt (range lo hi).
Proof.
  unfold range. generalize 0%nat as s. generalize (Z.to_nat (hi - lo)) as n.
  induction n as [|n IH]; intros s; cbn [seq map]; constructor; [apply IH|].
  apply Forall_forall. intros x Hx. apply in_map_iff in Hx.
  destruct Hx as (i & <- & Hi). apply in_seq in Hi. lia.
Qed.

Lemma in_range_iff lo hi k : In k (range lo hi) <-> (lo <= k < hi)%Z.
Proof.
  unfold range. rewrite in_map_iff. split.
  - intros (i & <- & Hi). apply in_seq in Hi. lia.
  - intros H. exists (Z.to_nat (k - lo)). split; [lia|]. apply in_seq. lia.
Qed.

Lemma length_filter_map {A B} (g : A -> B) (p : B -> bool) (l : list A) :
  List.length (filter (fun x => p (g x)) l)
  = List.length (filter p (map g l)).
Proof.
  induction l as [|x l IH]; cbn; [reflexivity|].
  destruct (p (g x)); cbn; rewrite IH; reflexivity.
Qed.

Lemma count_in_seq (k lo : Z) n : forall s,
  List.length (filter (fun z => (z =? k)%Z)
                      (map (fun i => (lo + Z.of_nat i)%Z) (seq s n)))
  = if ((lo + Z.of_nat s <=? k) && (k <? lo + Z.of_nat s + Z.of_nat n))%Z
    then 1%nat else 0%nat.
Proof.
  induction n as [|n IH]; intros s; cbn [seq map filter].
  - destruct (Z.leb_spec (lo + Z.of_nat s) k),
             (Z.ltb_spec k (lo + Z.of_nat s + Z.of_nat 0));
      cbn; try reflexivity; lia.
  - destruct (Z.eqb_spec (lo + Z.of_nat s) k) as [E|E]; cbn [List.length];
      rewrite IH;
      destruct (Z.leb_spec (lo + Z.of_nat (S s)) k),
               (Z.ltb_spec k (lo + Z.of_nat (S s) + Z.of_nat n)),
               (Z.leb_spec (lo + Z.of_nat s) k),
               (Z.ltb_spec k (lo + Z.of_nat s + Z.of_nat (S n)));
      cbn; try reflexivity; lia.
Qed.

(** A batch has one row for each of the sensors 1 to 20 and no other. *)
Lemma batch_rows_of_sensor (ctx : context R) w k :
  List.length (rows_of_sensor k (batch_rows ctx w))
  = if ((1 <=? k) && (k <? 21))%Z then 1%nat else 0%nat.
Proof.
  unfold rows_of_sensor.
  rewrite (length_filter_map (@SensorId R) (fun z => (z =? k)%Z)).
  unfold batch_rows, batch_readings. rewrite map_map. cbn [insert_params SensorId].
  change (map (fun x : reading R => sensor_id x)) with (map (@sensor_id R)).
  rewrite map_sensor_id_readings_at. unfold range.
  rewrite count_in_seq. reflexivity.
Qed.

Lemma batch_rows_sensors (ctx : context R) w :
  Forall (fun r => (1 <= SensorId r <= 20)%Z) (batch_rows ctx w).
Proof.
  apply Forall_forall. intros r Hr.
  assert (H : In (SensorId r) (map (@SensorId R) (batch_rows ctx w)))
    by (apply in_map; exact Hr).
  unfold batch_rows, batch_readings in H. rewrite map_map in H.
  cbn [insert_params SensorId] in H.
  change (map (fun x : reading R => sensor_id x)) with (map (@sensor_id R)) in H.
  rewrite map_sensor_id_readings_at in H. apply in_range_iff in H.
  unfold num_sensors in H. lia.
Qed.

Variable json_dumps : list (sensor_stats R) -> string.

(** What one firing does to the table. *)
Lemma fire_table (cf : context R * firing) w :
  table (fire json_dumps cf w)
  = table w ++ (if ingests cf then batch_rows (fst cf) w else []).
Proof.
  destruct cf as [ctx f]. unfold fire, ingests, ingestion_succeeds.
  cbn [fst snd]. destruct f.
  - rewrite generate_http_run. destruct (environ ctx CONNECTION_KEY);
      [destruct (ingest_fault (faults ctx) 20)|];
      cbn [snd table]; rewrite ?app_nil_r; reflexivity.
  - rewrite stats_http_run. destruct (stats_error ctx);
      cbn [snd table set_txn]; rewrite ?app_nil_r; reflexivity.
  - rewrite generate_timer_run. destruct (environ ctx CONNECTION_KEY);
      [destruct (ingest_fault (faults ctx) 20)|];
      cbn [snd table]; rewrite ?app_nil_r; reflexivity.
  - rewrite stats_sql_trigger_run. cbn [snd table].
    rewrite app_nil_r. reflexivity.
Qed.

(** What a sequence of firings does to the table. *)
Lemma fire_all_table cfs : forall w,
  exists added,
    table (fire_all json_dumps cfs w) = table w ++ added
    /\ Forall (fun r => (1 <= SensorId r <= 20)%Z) added
    /\ List.length added = (20 * List.length (filter ingests cfs))%nat
    /\ forall k, (1 <= k <= 20)%Z ->
         List.length (rows_of_sensor k added)
         = List.length (filter ingests cfs).
Proof.
  induction cfs as [|cf cfs IH]; intros w.
  - exists []. cbn. rewrite app_nil_r. repeat split; auto.
  - cbn [fire_all fold_left]. fold (fire_all json_dumps cfs (fire json_dumps cf w)).
    destruct (IH (fire json_dumps cf w)) as (added & Et & Hs & Hl & Hk).
    rewrite Et, fire_table, <- app_assoc. cbn [filter].
    destruct (ingests cf).
    + exists (batch_rows (fst cf) w ++ added).
      split; [reflexivity|].
      split; [apply Forall_app; split; [apply batch_rows_sensors|exact Hs]|].
      split.
      * rewrite length_app, length_batch_rows, Hl. cbn [List.length]. lia.
      * intros k Hkr. unfold rows_of_sensor in *. rewrite filter_app, length_app.
        fold (rows_of_sensor k (batch_rows (fst cf) w)).
        rewrite batch_rows_of_sensor, (Hk k Hkr).
        destruct (Z.leb_spec 1 k), (Z.ltb_spec k 21); cbn; try reflexivity; lia.
    + exists added. cbn [app]. auto.
Qed.

Lemma sorted_same_members (l1 : list Z) : forall l2,
  StronglySorted Z.lt l1 -> StronglySorted Z.lt l2 ->
  (forall k, In k l1 <-> In k l2) -> l1 = l2.
Proof.
  induction l1 as [|x l1 IH]; intros [|y l2] S1 S2 H.
  - reflexivity.
  - exfalso. apply (proj2 (H y)). left. reflexivity.
  - exfalso. apply (proj1 (H x)). left. reflexivity.
  - inversion S1 as [|? ? S1' A1]; subst. inversion S2 as [|? ? S2' A2]; subst.
    rewrite Forall_forall in A1, A2.
    assert (E : x = y).
    { destruct (proj1 (H x) (or_introl eq_refl)) as [E|Hx]; [auto|].
      destruct (proj2 (H y) (or_introl eq_refl)) as [E|Hy]; [auto|].
      specialize (A1 _ Hy). specialize (A2 _ Hx). lia. }
    subst y. f_equal. apply IH; [exact S1'|exact S2'|].
    intros k. split; intros Hk.
    + destruct (proj1 (H k) (or_intror Hk)) as [E|Hk']; [|exact Hk'].
      specialize (A1 _ Hk). lia.
    + destruct (proj2 (H k) (or_intror Hk)) as [E|Hk']; [|exact Hk'].
      specialize (A2 _ Hk). lia.
Qed.

(** X9: the statistics served after the first ingestion are those of the
    readings that the ingestion has answered.  From an empty table, when
    [generate_http] goes through, it answers 200 with twenty readings, and
    a request to /stats that meets no failure then answers 200 with one
    element per reading, in the same order: the sensor of the reading,
    its value as minimum and as maximum of each metric, and its value
    divided by one as mean. *)
Theorem first_batch_statistics (ctx ctx' : context R) (w : world R) :
  table w = [] ->
  ingestion_succeeds ctx = true ->
  stats_error ctx' = None ->
  exists ts readings,
    fst (generate_http ctx w)
    = Ok (mkResponse 200 (GenerateJson 20 ts readings))
    /\ List.length readings = 20%nat
    /\ fst (stats_http ctx' (snd (generate_http ctx w)))
       = Ok (mkResponse 200 (StatsJson (map stats_of_reading readings))).
Proof.
  intros Ht Hok Hst.
  exists (clock ctx (clock_reads w)), (batch_readings ctx w).
  rewrite stats_http_run, Hst, generate_http_run.
  unfold ingestion_succeeds in Hok.
  destruct (environ ctx CONNECTION_KEY); [|discriminate].
  destruct (ingest_fault (faults ctx) 20); [discriminate|].
  cbn [fst snd table]. split; [reflexivity|].
  split; [apply length_batch_readings|].
  rewrite Ht. cbn [app]. unfold batch_rows.
  rewrite stats_data_one_row_each; [reflexivity|].
  unfold batch_readings. rewrite map_sensor_id_readings_at.
  apply range_sorted.
Qed.

(** X10: the table only grows, and by whole batches.  After any sequence
    of firings of the four triggers, each against a context of its own,
    the table is the table of before followed by new rows: twenty for
    each ingestion that went through, one of them for each of the sensors
    1 to 20, and none for a firing of a statistics handler or for an
    ingestion that failed.  No firing changes or removes a row. *)
Theorem firings_only_append (cfs : list (context R * firing)) (w : world R) :
  exists added,
    table (fire_all json_dumps cfs w) = table w ++ added
    /\ Forall (fun r => (1 <= SensorId r <= 20)%Z) added
    /\ List.length added = (20 * List.length (filter ingests cfs))%nat
    /\ forall k, (1 <= k <= 20)%Z ->
         List.length (rows_of_sensor k added)
         = List.length (filter ingests cfs).
Proof. apply fire_all_table. Qed.

(** X11: once an ingestion has gone through, the statistics have an
    element for each of the sensors 1 to 20 and for no other: after any
    sequence of firings of which one at least is an ingestion that went
    through, started from a table that has rows of these sensors only,
    the sensors of the statistics are 1, 2, ..., 20. *)
Theorem stats_cover_all_sensors (cfs : list (context R * firing))
  (w : world R) :
  Forall (fun r => (1 <= SensorId r <= 20)%Z) (table w) ->
  existsb ingests cfs = true ->
  map (@stats_sensor_id R)
      (stats_data (table (fire_all json_dumps cfs w)))
  = range 1 (num_sensors + 1).
Proof.
  intros Hw Hex.
  destruct (fire_all_table cfs w) as (added & Et & Hs & _ & Hk).
  destruct (stats_data_sensors (table (fire_all json_dumps cfs w)))
    as (Sorted & Hin).
  apply sorted_same_members; [exact Sorted|apply range_sorted|].
  intros k. rewrite Hin, Et, map_app, in_app_iff, in_range_iff.
  unfold num_sensors. rewrite Forall_forall in Hw, Hs. split.
  - intros [H|H]; apply in_map_iff in H; destruct H as (r & <- & Hr);
      [specialize (Hw r Hr)|specialize (Hs r Hr)]; lia.
  - intros Hr. right.
    assert (Hn : (0 < List.length (filter ingests cfs))%nat).
    { apply existsb_exists in Hex. destruct Hex as (cf & Hcf & Hi).
      assert (Hf : In cf (filter ingests cfs))
        by (apply filter_In; split; assumption).
      destruct (filter ingests cfs); [contradiction|cbn; lia]. }
    rewrite <- (Hk k) in Hn by lia.
    destruct (rows_of_sensor k added) as [|r rs] eqn:E; [cbn in Hn; lia|].
    assert (Hr' : In r (rows_of_sensor k added)) by (rewrite E; left; reflexivity).
    apply rows_of_sensor_in in Hr'. destruct Hr' as (Hin' & Hk').
    apply in_map_iff. exists r. split; assumption.
Qed.

End IngestThenStats.

Lemma first_batch_statistics_witness :
  table (@empty_world Q) = []
  /\ ingestion_succeeds ctx_half = true
  /\ stats_error ctx_half = None
  /\ exists ts readings,
       fst (generate_http ctx_half empty_world)
       = Ok (mkResponse 200 (GenerateJson 20 ts readings))
       /\ List.length readings = 20%nat
       /\ fst (stats_http ctx_half (snd (generate_http ctx_half empty_world)))
          = Ok (mkResponse 200 (StatsJson (map stats_of_reading readings))).
Proof.
  assert (Ht : table (@empty_world Q) = []) by reflexivity.
  assert (Hok : ingestion_succeeds ctx_half = true) by reflexivity.
  assert (Hst : stats_error ctx_half = None) by reflexivity.
  split; [exact Ht|]. split; [exact Hok|]. split; [exact Hst|].
  exact (@first_batch_statistics Q exact ctx_half ctx_half empty_world
                                 Ht Hok Hst).
Defined.

Lemma stats_cover_all_sensors_witness :
  Forall (fun r : row Q => (1 <= SensorId r <= 20)%Z) (table empty_world)
  /\ existsb ingests [(ctx_half, StatsHttp); (ctx_half, GenerateTimer)] = true
  /\ map (@stats_sensor_id Q)
         (stats_data
            (table (fire_all (fun _ => EmptyString)
                             [(ctx_half, StatsHttp); (ctx_half, GenerateTimer)]
                             empty_world)))
     = range 1 (num_sensors + 1).
Proof.
  assert (Hw : Forall (fun r : row Q => (1 <= SensorId r <= 20)%Z)
                      (table empty_world)) by (simpl; constructor).
  assert (Hex : existsb ingests
                        [(ctx_half, StatsHttp); (ctx_half, GenerateTimer)]
                = true) by reflexivity.
  split; [exact Hw|]. split; [exact Hex|].
  exact (@stats_cover_all_sensors Q exact (fun _ => EmptyString)
           [(ctx_half, StatsHttp); (ctx_half, GenerateTimer)] empty_world
           Hw Hex).
Defined.

(** ** Sensor and timestamp as a key *)

Section RowKeys.

Context {R : Type} {AR : Arith R}.
Variable json_dumps : list (sensor_stats R) -> string.

(** A firing of an ingestion handler reads the clock once, whether or not
    the ingestion goes through; the statistics handlers do not read it. *)
Lemma fire_clock_reads (cf : context R * firing) w :
  clock_reads (fire json_dumps cf w)
  = (clock_reads w + (if reads_clock (snd cf) then 1 else 0))%nat
  /\ (ingests cf = true -> reads_clock (snd cf) = true).
Proof.
  destruct cf as [ctx f]. unfold fire, ingests, ingestion_succeeds.
  cbn [fst snd]. destruct f; cbn [reads_clock].
  - rewrite generate_http_run. destruct (environ ctx CONNECTION_KEY);
      [destruct (ingest_fault (faults ctx) 20)|];
      cbn [snd clock_reads]; split; auto; lia.
  - rewrite stats_http_run. destruct (stats_error ctx);
      cbn [snd clock_reads set_txn]; split; auto; lia.
  - rewrite generate_timer_run. destruct (environ ctx CONNECTION_KEY);
      [destruct (ingest_fault (faults ctx) 20)|];
      cbn [snd clock_reads]; split; auto; lia.
  - rewrite stats_sql_trigger_run. cbn [snd clock_reads].
    split; auto; lia.
Qed.

Lemma batch_rows_keys (ctx : context R) w :
  map (@sensor_and_time R) (batch_rows ctx w)
  = map (fun k => (k, clock ctx (clock_reads w))) (range 1 (num_sensors + 1)).
Proof.
  unfold batch_rows, batch_readings. rewrite map_map.
  rewrite <- (map_sensor_id_readings_at ctx (range 1 (num_sensors + 1))
                                        (rand_pos w)) at 2.
  rewrite map_map. reflexivity.
Qed.

(** X12: sensor and timestamp identify a row.  When the clock never
    gives the same reading twice, no two of the rows that a sequence of
    firings adds to the table have the same sensor and the same
    timestamp.  The sequence reads the clock once for each firing of an
    ingestion handler, failed or not, and never for a statistics handler;
    the timestamp of every added row is one of these readings, neither
    one made before the sequence nor one made after it. *)
Theorem added_rows_keyed_by_sensor_and_time (clk : nat -> Z)
  (cfs : list (context R * firing)) :
  (forall p q, clk p = clk q -> p = q) ->
  Forall (fun cf => forall p, clock (fst cf) p = clk p) cfs ->
  forall w,
  exists added,
    table (fire_all json_dumps cfs w) = table w ++ added
    /\ NoDup (map (@sensor_and_time R) added)
    /\ clock_reads (fire_all json_dumps cfs w)
       = (clock_reads w + clock_readings cfs)%nat
    /\ Forall (fun r => exists p,
                 (clock_reads w <= p
                  < clock_reads (fire_all json_dumps cfs w))%nat
                 /\ ReadingTimeUtc r = clk p) added.
Proof.
  intros Hinj Hclk.
  induction Hclk as [|cf cfs Hcf _ IH]; intros w.
  - exists []. cbn. rewrite app_nil_r.
    split; [reflexivity|]. split; [constructor|].
    split; [unfold clock_readings; cbn; lia|constructor].
  - cbn [fire_all fold_left].
    fold (fire_all json_dumps cfs (fire json_dumps cf w)).
    destruct (IH (fire json_dumps cf w)) as (added & Et & ND & Ec & Hp).
    destruct (fire_clock_reads cf w) as (Ef & Hs).
    assert (Ecs : clock_readings (cf :: cfs)
                  = ((if reads_clock (snd cf) then 1 else 0)
                     + clock_readings cfs)%nat)
      by (unfold clock_readings; cbn [filter];
          destruct (reads_clock (snd cf)); reflexivity).
    rewrite Et, fire_table, <- app_assoc.
    rewrite Forall_forall in Hp.
    assert (Hend : clock_reads (fire_all json_dumps cfs (fire json_dumps cf w))
                   = (clock_reads w + clock_readings (cf :: cfs))%nat)
      by (rewrite Ec, Ef, Ecs; lia).
    assert (Hold : forall r, In r added ->
                   exists p,
                     (clock_reads (fire json_dumps cf w) <= p
                      < clock_reads (fire_all json_dumps cfs
                                       (fire json_dumps cf w)))%nat
                     /\ ReadingTimeUtc r = clk p) by exact Hp.
    destruct (ingests cf) eqn:Hi.
    + specialize (Hs eq_refl). rewrite Hs in Ef.
      assert (Hb : forall r, In r (batch_rows (fst cf) w) ->
                   ReadingTimeUtc r = clk (clock_reads w)).
      { intros r Hr. unfold batch_rows in Hr. apply in_map_iff in Hr.
        destruct Hr as (x & <- & _). cbn. apply Hcf. }
      exists (batch_rows (fst cf) w ++ added).
      split; [reflexivity|]. split; [|split; [exact Hend|]].
      * rewrite map_app. apply NoDup_app; [| exact ND |].
        -- apply (NoDup_map_inv fst). rewrite batch_rows_keys, map_map.
           cbn [fst]. rewrite map_id.
           apply StronglySorted_lt_NoDup, range_sorted.
        -- intros a Ha Ha'. apply in_map_iff in Ha, Ha'.
           destruct Ha as (r & <- & Hr). destruct Ha' as (r' & E & Hr').
           destruct (Hold r' Hr') as (p & Hpp & Ep).
           unfold sensor_and_time in E. injection E as _ Et'.
           rewrite (Hb r Hr), Ep in Et'. apply Hinj in Et'. lia.
      * apply Forall_forall. intros r Hr. apply in_app_iff in Hr.
        destruct Hr as [Hr|Hr].
        -- exists (clock_reads w). split; [|apply Hb; exact Hr].
           rewrite Ec, Ef. lia.
        -- destruct (Hold r Hr) as (p & Hpp & Ep). exists p.
           split; [lia|exact Ep].
    + exists added. cbn [app]. split; [reflexivity|]. split; [exact ND|].
      split; [exact Hend|].
      apply Forall_forall. intros r Hr.
      destruct (Hold r Hr) as (p & Hpp & Ep). exists p.
      split; [rewrite Ef in Hpp; lia|exact Ep].
Qed.

End RowKeys.

Lemma added_rows_keyed_by_sensor_and_time_witness :
  (forall p q, Z.of_nat p = Z.of_nat q -> p = q)
  /\ Forall (fun cf : context Q * firing =>
               forall p, clock (fst cf) p = Z.of_nat p)
            [(ctx_half, GenerateHttp); (ctx_half_unreachable, GenerateTimer);
             (ctx_half, GenerateTimer)]
  /\ exists added,
       table (fire_all (fun _ => EmptyString)
                [(ctx_half, GenerateHttp);
                 (ctx_half_unreachable, GenerateTimer);
                 (ctx_half, GenerateTimer)] empty_world)
       = table (@empty_world Q) ++ added
       /\ NoDup (map (@sensor_and_time Q) added)
       /\ clock_reads (fire_all (fun _ => EmptyString)
                         [(ctx_half, GenerateHttp);
                          (ctx_half_unreachable, GenerateTimer);
                          (ctx_half, GenerateTimer)] empty_world)
          = (clock_reads (@empty_world Q)
             + clock_readings [(ctx_half, GenerateHttp);
                               (ctx_half_unreachable, GenerateTimer);
                               (ctx_half, GenerateTimer)])%nat
       /\ Forall (fun r => exists p,
                    (clock_reads (@empty_world Q) <= p
                     < clock_reads (fire_all (fun _ => EmptyString)
                                      [(ctx_half, GenerateHttp);
                                       (ctx_half_unreachable, GenerateTimer);
                                       (ctx_half, GenerateTimer)]
                                      empty_world))%nat
                    /\ ReadingTimeUtc r = Z.of_nat p) added.
Proof.
  assert (Hinj : forall p q, Z.of_nat p = Z.of_nat q -> p = q)
    by (intros p q H; lia).
  assert (Hclk : Forall (fun cf : context Q * firing =>
                           forall p, clock (fst cf) p = Z.of_nat p)
                        [(ctx_half, GenerateHttp);
                         (ctx_half_unreachable, GenerateTimer);
                         (ctx_half, GenerateTimer)])
    by (repeat constructor).
  split; [exact Hinj|]. split; [exact Hclk|].
  exact (@added_rows_keyed_by_sensor_and_time Q exact (fun _ => EmptyString)
           (fun p => Z.of_nat p) _ Hinj Hclk empty_world).
Defined.

(** ** Concurrent invocations of which some fail *)

Section ConcurrentFailures.

Context {R : Type}.

(** One call of an invocation, failing or not: either the table is as
    before and the invocation will commit as it would before, or the
    call is the commit that goes through and the table receives the whole
    batch. *)
Lemma step_invocation_commits (t : list (row R)) v :
  consistent v ->
  consistent (snd (step_invocation t v))
  /\ inv_batch (snd (step_invocation t v)) = inv_batch v
  /\ ((fst (step_invocation t v) = t
       /\ will_commit (snd (step_invocation t v)) = will_commit v)
      \/ (fst (step_invocation t v) = t ++ inv_batch v
          /\ will_commit v = true
          /\ will_commit (snd (step_invocation t v)) = false)).
Proof.
  intros Hc. unfold step_invocation.
  destruct v as [f b p x]. unfold consistent, will_commit, ingest_fault in *.
  cbn [inv_pc inv_faults inv_txn inv_batch] in *.
  destruct p as [| |i [|r todo]| |].
  - destruct (f Connect); cbn; [auto 6|].
    destruct (f Cursor); cbn; [auto 6|].
    destruct (execute_fault f 0 (List.length b)); cbn; auto 6.
  - subst x. destruct (f Cursor); cbn; auto 6.
  - rewrite app_nil_r in Hc. subst x.
    destruct (f Commit); cbn; auto 6.
  - cbn [List.length execute_fault].
    destruct (f (Execute i)); cbn; [auto 6|].
    rewrite <- app_assoc. auto 6.
  - cbn. auto 6.
  - cbn. auto 6.
Qed.

Lemma pending_batches_app (l1 l2 : list (invocation R)) :
  pending_batches (l1 ++ l2) = pending_batches l1 ++ pending_batches l2.
Proof. unfold pending_batches. rewrite filter_app, map_app. reflexivity. Qed.

Lemma pending_batches_cons (v : invocation R) l :
  pending_batches (v :: l)
  = (if will_commit v then [inv_batch v] else []) ++ pending_batches l.
Proof. unfold pending_batches. cbn. destruct (will_commit v); reflexivity. Qed.

Lemma whole_batches_start t0
  (calls : list ((db_call -> option string) * list (row R))) :
  whole_batches t0 calls (t0, starts calls).
Proof.
  unfold whole_batches, starts. cbn [fst snd]. split.
  - apply Forall_forall. intros v Hv. apply in_map_iff in Hv.
    destruct Hv as (c & <- & _). reflexivity.
  - exists []. cbn [List.concat app]. rewrite app_nil_r. split; [reflexivity|].
    unfold pending_batches, committing.
    induction calls as [|c calls IH]; cbn [map filter]; [reflexivity|].
    unfold will_commit at 1. cbn [start inv_pc inv_faults inv_batch].
    destruct (raises_nothing (ingest_fault (fst c) (List.length (snd c))));
      cbn [map]; [apply perm_skip|]; exact IH.
Qed.

Lemma whole_batches_step t0 calls (s : system R) i :
  whole_batches t0 calls s -> whole_batches t0 calls (schedule_step s i).
Proof.
  destruct s as [t vs]. unfold whole_batches, schedule_step. cbn [fst snd].
  intros (Hc & bs & Et & Hp).
  destruct (nth_error vs i) as [v|] eqn:Hv; [|cbn [fst snd]; eauto].
  destruct (set_nth_split vs i (snd (step_invocation t v)) Hv)
    as (l1 & l2 & -> & E).
  apply Forall_app in Hc. destruct Hc as (Hc1 & Hc2).
  apply Forall_cons_iff in Hc2. destruct Hc2 as (Hcv & Hc2').
  destruct (@step_invocation_commits t v Hcv) as (Hcv' & Hb & Hstep).
  destruct (step_invocation t v) as [t' v'] eqn:Hs. cbn [fst snd] in *.
  rewrite E. split; [apply Forall_app; auto|].
  rewrite pending_batches_app, pending_batches_cons in Hp.
  rewrite pending_batches_app, pending_batches_cons, Hb.
  destruct Hstep as [(-> & ->)|(-> & Hw & ->)].
  - exists bs. split; [exact Et|exact Hp].
  - exists (bs ++ [inv_batch v]). split.
    + rewrite Et, concat_app, <- app_assoc. cbn [List.concat].
      rewrite app_nil_r. reflexivity.
    + rewrite Hw in Hp. rewrite <- Hp, <- app_assoc. cbn [app].
      apply Permutation_app_head. apply Permutation_middle.
Qed.

Lemma whole_batches_run t0 calls sched : forall s : system R,
  whole_batches t0 calls s -> whole_batches t0 calls (run_schedule sched s).
Proof.
  induction sched as [|i sched IH]; intros s H; cbn; [exact H|].
  apply IH. apply whole_batches_step. exact H.
Qed.

Lemma finished_none_pending (vs : list (invocation R)) :
  forallb (@is_finished R) vs = true -> pending_batches vs = [].
Proof.
  induction vs as [|v vs IH]; [reflexivity|]. cbn [forallb].
  intros H. apply andb_prop in H. destruct H as (Hv & Hvs).
  rewrite pending_batches_cons, (IH Hvs).
  unfold is_finished in Hv. unfold will_commit.
  destruct (inv_pc v); try discriminate. reflexivity.
Qed.

Lemma concat_batches_perm (bs bs' : list (list (row R))) :
  Permutation bs bs' -> Permutation (List.concat bs) (List.concat bs').
Proof.
  induction 1; cbn [List.concat].
  - reflexivity.
  - apply Permutation_app_head. assumption.
  - rewrite !app_assoc. apply Permutation_app_tail. apply Permutation_app_comm.
  - etransitivity; eassumption.
Qed.

(** The table once all the invocations have finished. *)
Lemma finished_run_committing (t0 : list (row R))
  (calls : list ((db_call -> option string) * list (row R)))
  (sched : list nat) :
  all_finished (run_schedule sched (t0, starts calls)) = true ->
  Permutation (fst (run_schedule sched (t0, starts calls)))
              (t0 ++ List.concat (committing calls)).
Proof.
  intros Hfin.
  destruct (whole_batches_run sched (whole_batches_start t0 calls))
    as (_ & bs & Et & Hp).
  unfold all_finished in Hfin.
  rewrite (finished_none_pending _ Hfin), app_nil_r in Hp.
  rewrite Et. apply Permutation_app_head, concat_batches_perm. exact Hp.
Qed.

(** One call of an invocation, by what the call is: a commit that does
    not raise appends the whole batch to the table, and any other call
    leaves the table as it is. *)
Lemma step_invocation_commit_cases (t : list (row R)) v :
  consistent v ->
  consistent (snd (step_invocation t v))
  /\ inv_batch (snd (step_invocation t v)) = inv_batch v
  /\ (if commits_next v
      then fst (step_invocation t v) = t ++ inv_batch v
           /\ will_commit v = true
           /\ will_commit (snd (step_invocation t v)) = false
      else fst (step_invocation t v) = t
           /\ will_commit (snd (step_invocation t v)) = will_commit v).
Proof.
  intros Hc. unfold step_invocation, commits_next.
  destruct v as [f b p x]. unfold consistent, will_commit, ingest_fault in *.
  cbn [inv_pc inv_faults inv_txn inv_batch] in *.
  destruct p as [| |i [|r todo]| |].
  - destruct (f Connect); cbn; [auto 6|].
    destruct (f Cursor); cbn; [auto 6|].
    destruct (execute_fault f 0 (List.length b)); cbn; auto 6.
  - subst x. destruct (f Cursor); cbn; auto 6.
  - rewrite app_nil_r in Hc. subst x.
    destruct (f Commit); cbn; auto 6.
  - cbn [List.length execute_fault].
    destruct (f (Execute i)); cbn; [auto 6|].
    rewrite <- app_assoc. auto 6.
  - cbn. auto 6.
  - cbn. auto 6.
Qed.

Lemma pending_batches_starts
  (calls : list ((db_call -> option string) * list (row R))) :
  pending_batches (starts calls) = committing calls.
Proof.
  unfold pending_batches, committing, starts.
  induction calls as [|c calls IH]; cbn [map filter]; [reflexivity|].
  unfold will_commit at 1. cbn [start inv_pc inv_faults inv_batch].
  destruct (raises_nothing (ingest_fault (fst c) (List.length (snd c))));
    cbn [map]; rewrite IH; reflexivity.
Qed.

Lemma starts_consistent
  (calls : list ((db_call -> option string) * list (row R))) :
  Forall (@consistent R) (starts calls).
Proof.
  apply Forall_forall. intros v Hv. apply in_map_iff in Hv.
  destruct Hv as (c & <- & _). reflexivity.
Qed.

(** One step of the scheduler: the table receives the batch committed at
    this step, if any, and this batch is no longer to come. *)
Lemma schedule_step_committed (s : system R) i :
  Forall (@consistent R) (snd s) ->
  Forall (@consistent R) (snd (schedule_step s i))
  /\ fst (schedule_step s i)
     = fst s ++ List.concat (committed_batches [i] s)
  /\ Permutation (committed_batches [i] s
                  ++ pending_batches (snd (schedule_step s i)))
                 (pending_batches (snd s)).
Proof.
  destruct s as [t vs]. unfold schedule_step. cbn [committed_batches fst snd].
  intros Hc. rewrite app_nil_r.
  destruct (nth_error vs i) as [v|] eqn:Hv;
    [|cbn [fst snd List.concat app]; rewrite app_nil_r; auto].
  destruct (set_nth_split vs i (snd (step_invocation t v)) Hv)
    as (l1 & l2 & -> & E).
  apply Forall_app in Hc. destruct Hc as (Hc1 & Hc2).
  apply Forall_cons_iff in Hc2. destruct Hc2 as (Hcv & Hc2').
  destruct (@step_invocation_commit_cases t v Hcv) as (Hcv' & Hb & Hstep).
  destruct (step_invocation t v) as [t' v'] eqn:Hs. cbn [fst snd] in *.
  rewrite E. split; [apply Forall_app; auto|].
  rewrite !pending_batches_app, !pending_batches_cons, Hb.
  destruct (commits_next v).
  - destruct Hstep as (-> & Hw & ->). rewrite Hw. cbn [List.concat app].
    rewrite app_nil_r. split; [reflexivity|].
    apply (Permutation_middle (pending_batches l1) (pending_batches l2)
                              (inv_batch v)).
  - destruct Hstep as (-> & ->). cbn [List.concat app].
    rewrite app_nil_r. split; reflexivity.
Qed.

Lemma committed_batches_cons i sched (s : system R) :
  committed_batches (i :: sched) s
  = committed_batches [i] s ++ committed_batches sched (schedule_step s i).
Proof. cbn [committed_batches]. rewrite app_nil_r. reflexivity. Qed.

(** A run of the scheduler: the table receives the batches committed in
    the run, in the order of the commits; with the batches still to come
    they are the batches that were to come before the run. *)
Lemma run_schedule_committed sched : forall s : system R,
  Forall (@consistent R) (snd s) ->
  fst (run_schedule sched s)
  = fst s ++ List.concat (committed_batches sched s)
  /\ Permutation (committed_batches sched s
                  ++ pending_batches (snd (run_schedule sched s)))
                 (pending_batches (snd s)).
Proof.
  induction sched as [|i sched IH]; intros s Hc.
  - cbn. rewrite app_nil_r. split; reflexivity.
  - destruct (@schedule_step_committed s i Hc) as (Hc' & Et & Hp).
    destruct (IH (schedule_step s i) Hc') as (Et' & Hp').
    rewrite committed_batches_cons. cbn [run_schedule fold_left].
    fold (run_schedule sched (schedule_step s i)).
    split.
    + rewrite Et', Et, concat_app, app_assoc. reflexivity.
    + rewrite <- Hp, <- app_assoc. apply Permutation_app_head. exact Hp'.
Qed.

(** X13: concurrent ingestions of which any may fail anywhere never show a
    part of a batch.  After any number of pyodbc calls of the
    invocations, made in any order, the table is the initial table
    followed by whole batches; every one of them is the batch of a call
    none of whose calls of the insert path raises, and no batch is there
    more often than it was sent. *)
Theorem concurrent_runs_show_whole_batches (t0 : list (row R))
  (calls : list ((db_call -> option string) * list (row R)))
  (sched : list nat) :
  exists bs rest,
    fst (run_schedule sched (t0, starts calls)) = t0 ++ List.concat bs
    /\ Permutation (bs ++ rest) (committing calls)
    /\ Forall (fun b => exists f,
                 In (f, b) calls
                 /\ ingest_fault f (List.length b) = None) bs.
Proof.
  destruct (whole_batches_run sched (whole_batches_start t0 calls))
    as (_ & bs & Et & Hp).
  exists bs, (pending_batches (snd (run_schedule sched (t0, starts calls)))).
  split; [exact Et|]. split; [exact Hp|].
  apply Forall_forall. intros b Hb.
  assert (Hin : In b (committing calls)).
  { apply (Permutation_in _ Hp). apply in_or_app. left. exact Hb. }
  unfold committing in Hin. apply in_map_iff in Hin.
  destruct Hin as ([f b'] & E & Hin). cbn [snd] in E. subst b'.
  apply filter_In in Hin. cbn [fst snd] in Hin. destruct Hin as (Hin & Hf).
  exists f. split; [exact Hin|].
  destruct (ingest_fault f (List.length b)); [discriminate|reflexivity].
Qed.

(** X14: once all the concurrent invocations have finished, the table is
    the initial table followed by the batches of exactly the calls that
    met no failure, each whole and once, in the order of their commits
    (the order in which the scheduler let the invocations make a commit
    that did not raise): a call that failed at connect, at an INSERT or
    at the commit has left no row, and no call that went through has lost
    one. *)
Theorem concurrent_failures_leave_no_rows (t0 : list (row R))
  (calls : list ((db_call -> option string) * list (row R)))
  (sched : list nat) :
  all_finished (run_schedule sched (t0, starts calls)) = true ->
  exists bs,
    fst (run_schedule sched (t0, starts calls)) = t0 ++ List.concat bs
    /\ Permutation bs (committing calls)
    /\ Permutation (fst (run_schedule sched (t0, starts calls)))
                   (t0 ++ List.concat (committing calls))
    /\ bs = committed_batches sched (t0, starts calls).
Proof.
  intros Hfin.
  destruct (@run_schedule_committed sched (t0, starts calls)
              (starts_consistent calls)) as (Et & Hp).
  cbn [fst snd] in Et, Hp.
  unfold all_finished in Hfin.
  rewrite (finished_none_pending _ Hfin), app_nil_r in Hp.
  rewrite pending_batches_starts in Hp.
  exists (committed_batches sched (t0, starts calls)).
  split; [exact Et|]. split; [exact Hp|]. split; [|reflexivity].
  rewrite Et. apply Permutation_app_head, concat_batches_perm. exact Hp.
Qed.

End ConcurrentFailures.

Lemma concurrent_failures_leave_no_rows_witness :
  all_finished (run_schedule interleaved ([], starts two_calls)) = true
  /\ exists bs,
       fst (run_schedule interleaved ([], starts two_calls))
       = [] ++ List.concat bs
       /\ Permutation bs (committing two_calls)
       /\ Permutation (fst (run_schedule interleaved ([], starts two_calls)))
                      ([] ++ List.concat (committing two_calls))
       /\ bs = committed_batches interleaved ([], starts two_calls).
Proof.
  assert (Hfin : all_finished (run_schedule interleaved ([], starts two_calls))
                 = true) by reflexivity.
  split; [exact Hfin|].
  exact (@concurrent_failures_leave_no_rows Q [] two_calls interleaved Hfin).
Defined.

(** ** Statistics and the order of the rows *)

Section OrderOfRows.

Lemma Permutation_filter {A} (f : A -> bool) (l l' : list A) :
  Permutation l l' -> Permutation (filter f l) (filter f l').
Proof.
  induction 1 as [|x l l' _ IH|x y l|l l' l'' _ IH1 _ IH2]; cbn.
  - constructor.
  - destruct (f x); [apply perm_skip|]; exact IH.
  - destruct (f x), (f y); try apply Permutation_refl. apply perm_swap.
  - etransitivity; eassumption.
Qed.

Lemma Forall2_by_key {A} (key : A -> Z) (P : A -> A -> Prop) (l1 : list A) :
  forall l2,
  map key l1 = map key l2 ->
  (forall a b, In a l1 -> In b l2 -> key a = key b -> P a b) ->
  Forall2 P l1 l2.
Proof.
  induction l1 as [|a l1 IH]; intros [|b l2] E H; try discriminate E.
  - constructor.
  - cbn in E. injection E as Ek E. constructor.
    + apply H; [left; reflexivity|left; reflexivity|exact Ek].
    + apply IH; [exact E|]. intros a' b' Ha Hb. apply H; right; assumption.
Qed.

Lemma Forall2_maps {A B} (f : A -> B) (P : B -> B -> Prop) (l1 l2 : list A) :
  Forall2 (fun a b => P (f a) (f b)) l1 l2 -> Forall2 P (map f l1) (map f l2).
Proof. induction 1; cbn; constructor; assumption. Qed.

Lemma fold_left_Qplus (xs : list Q) : forall acc,
  fold_left Qplus xs acc == acc + fold_right Qplus 0 xs.
Proof.
  induction xs as [|x xs IH]; intros acc; cbn; [lra|].
  rewrite IH. lra.
Qed.

Lemma total_perm (l l' : list Q) :
  Permutation l l' -> fold_right Qplus 0 l == fold_right Qplus 0 l'.
Proof. induction 1; cbn; lra. Qed.

(** The aggregates of a group do not depend on the order of its
    values. *)
Lemma sql_sum_perm x0 xs y0 ys :
  Permutation (x0 :: xs) (y0 :: ys) -> sql_sum x0 xs == sql_sum y0 ys.
Proof.
  intros H. unfold sql_sum. cbn [radd exact]. rewrite !fold_left_Qplus.
  apply total_perm in H. cbn in H. exact H.
Qed.

Lemma sql_min_member (x0 : Q) xs : In (sql_min x0 xs) (x0 :: xs).
Proof.
  destruct (@sql_min_in Q exact xs x0) as [E|H]; [left; auto|right; exact H].
Qed.

Lemma sql_max_member (x0 : Q) xs : In (sql_max x0 xs) (x0 :: xs).
Proof.
  destruct (@sql_max_in Q exact xs x0) as [E|H]; [left; auto|right; exact H].
Qed.

Lemma sql_min_least (x0 : Q) xs y : In y (x0 :: xs) -> sql_min x0 xs <= y.
Proof.
  intros [<-|H]; [apply sql_min_le_start|apply sql_min_le; exact H].
Qed.

Lemma sql_max_greatest (x0 : Q) xs y : In y (x0 :: xs) -> y <= sql_max x0 xs.
Proof.
  intros [<-|H]; [apply sql_max_ge_start|apply sql_max_ge; exact H].
Qed.

Lemma sql_min_perm x0 xs y0 ys :
  Permutation (x0 :: xs) (y0 :: ys) -> sql_min x0 xs == sql_min y0 ys.
Proof.
  intros H. apply Qle_antisym; apply sql_min_least.
  - apply (Permutation_in _ (Permutation_sym H)), sql_min_member.
  - apply (Permutation_in _ H), sql_min_member.
Qed.

Lemma sql_max_perm x0 xs y0 ys :
  Permutation (x0 :: xs) (y0 :: ys) -> sql_max x0 xs == sql_max y0 ys.
Proof.
  intros H. apply Qle_antisym; apply sql_max_greatest.
  - apply (Permutation_in _ H), sql_max_member.
  - apply (Permutation_in _ (Permutation_sym H)), sql_max_member.
Qed.

Lemma sql_avg_perm x0 xs y0 ys :
  Permutation (x0 :: xs) (y0 :: ys) -> sql_avg x0 xs == sql_avg y0 ys.
Proof.
  intros H. unfold sql_avg. cbn [rdiv lit exact].
  pose proof (Permutation_length H) as Hl. cbn [List.length] in Hl.
  rewrite Hl, (sql_sum_perm H). reflexivity.
Qed.

Lemma aggregates_perm (col : row Q -> Q) (g1 g2 : group (R := Q)) :
  Permutation (fst (snd g1) :: snd (snd g1)) (fst (snd g2) :: snd (snd g2)) ->
  aggregates_eq (aggregates col g1) (aggregates col g2).
Proof.
  intros H. apply (Permutation_map col) in H. cbn [map] in H.
  unfold aggregates_eq, aggregates. cbn [fst snd].
  split; [apply sql_min_perm; exact H|].
  split; [apply sql_max_perm; exact H|apply sql_avg_perm; exact H].
Qed.

Lemma select_row_perm (g1 g2 : group (R := Q)) :
  fst g1 = fst g2 ->
  Permutation (fst (snd g1) :: snd (snd g1)) (fst (snd g2) :: snd (snd g2)) ->
  stats_eq (format_row (select_row g1)) (format_row (select_row g2)).
Proof.
  intros Ek H.
  pose proof (aggregates_perm (@Temperature Q) g1 g2 H) as (T1 & T2 & T3).
  pose proof (aggregates_perm (@WindSpeed Q) g1 g2 H) as (W1 & W2 & W3).
  pose proof (aggregates_perm (@Humidity Q) g1 g2 H) as (H1 & H2 & H3).
  pose proof (aggregates_perm (@CO2 Q) g1 g2 H) as (C1 & C2 & C3).
  unfold stats_eq, format_row, select_row, float_of.
  destruct (aggregates (@Temperature Q) g1) as [[? ?] ?],
           (aggregates (@Temperature Q) g2) as [[? ?] ?],
           (aggregates (@WindSpeed Q) g1) as [[? ?] ?],
           (aggregates (@WindSpeed Q) g2) as [[? ?] ?],
           (aggregates (@Humidity Q) g1) as [[? ?] ?],
           (aggregates (@Humidity Q) g2) as [[? ?] ?],
           (aggregates (@CO2 Q) g1) as [[? ?] ?],
           (aggregates (@CO2 Q) g2) as [[? ?] ?].
  cbn in *. repeat split; assumption.
Qed.

(** Without rounding, the statistics depend on the rows of the table and
    not on their order. *)
Lemma stats_data_permutation (t1 t2 : list (row Q)) :
  Permutation t1 t2 -> Forall2 stats_eq (stats_data t1) (stats_data t2).
Proof.
  intros Hp. unfold stats_data, select_stats. rewrite !map_map.
  apply Forall2_maps with (f := fun g => format_row (select_row g)).
  apply Forall2_by_key with (key := @fst Z (row Q * list (row Q))).
  - rewrite <- !map_stats_sensor_id.
    destruct (stats_data_sensors t1) as (S1 & M1).
    destruct (stats_data_sensors t2) as (S2 & M2).
    apply sorted_same_members; [exact S1|exact S2|].
    intros k. rewrite M1, M2.
    split; apply Permutation_in, Permutation_map;
      [exact Hp|apply Permutation_sym; exact Hp].
  - intros [k1 [r1 rs1]] [k2 [r2 rs2]] H1 H2 Ek. cbn [fst] in Ek. subst k2.
    apply select_row_perm; [reflexivity|]. cbn [fst snd].
    apply (proj1 (in_order_by _ _)) in H1, H2.
    destruct (group_by_groups t1) as (_ & _ & G1).
    destruct (group_by_groups t2) as (_ & _ & G2).
    rewrite (G1 _ _ _ H1), (G2 _ _ _ H2).
    apply Permutation_filter. exact Hp.
Qed.

(** X15: without rounding, the statistics do not depend on the order in
    which concurrent ingestions commit.  For the same concurrent calls,
    of which any may fail, two interleavings of their pyodbc calls that
    let all of them finish leave tables of which the statistics have the
    same sensors in the same order and, for every sensor and metric,
    equal minimum, maximum and mean. *)
Theorem concurrent_statistics_independent_of_schedule
  (t0 : list (row Q))
  (calls : list ((db_call -> option string) * list (row Q)))
  (sched1 sched2 : list nat) :
  all_finished (run_schedule sched1 (t0, starts calls)) = true ->
  all_finished (run_schedule sched2 (t0, starts calls)) = true ->
  Forall2 stats_eq
          (stats_data (fst (run_schedule sched1 (t0, starts calls))))
          (stats_data (fst (run_schedule sched2 (t0, starts calls)))).
Proof.
  intros H1 H2. apply stats_data_permutation.
  etransitivity; [apply finished_run_committing; exact H1|].
  apply Permutation_sym, finished_run_committing. exact H2.
Qed.

End OrderOfRows.

Lemma concurrent_statistics_independent_of_schedule_witness :
  all_finished (run_schedule interleaved ([], starts two_calls_through)) = true
  /\ all_finished
       (run_schedule one_after_the_other ([], starts two_calls_through)) = true
  /\ fst (run_schedule interleaved ([], starts two_calls_through))
     <> fst (run_schedule one_after_the_other ([], starts two_calls_through))
  /\ Forall2 stats_eq
       (stats_data
          (fst (run_schedule interleaved ([], starts two_calls_through))))
       (stats_data
          (fst (run_schedule one_after_the_other
                             ([], starts two_calls_through)))).
Proof.
  assert (H1 : all_finished
                 (run_schedule interleaved ([], starts two_calls_through))
               = true) by reflexivity.
  assert (H2 : all_finished
                 (run_schedule one_after_the_other
                               ([], starts two_calls_through))
               = true) by reflexivity.
  split; [exact H1|]. split; [exact H2|]. split; [discriminate|].
  exact (@concurrent_statistics_independent_of_schedule
           [] two_calls_through interleaved one_after_the_other H1 H2).
Defined.

(** ** Statistics during concurrent ingestions *)

Section ConcurrentStatistics.

Context {R : Type} {AR : Arith R}.

(** Batches of the handlers, one after the other: rows of the sensors 1
    to 20 only, as many of each sensor as there are batches. *)
Lemma concat_handler_batches (bs : list (list (row R))) :
  Forall (fun b => exists ctx w, b = batch_rows ctx w) bs ->
  Forall (fun r => (1 <= SensorId r <= 20)%Z) (List.concat bs)
  /\ List.length (List.concat bs) = (20 * List.length bs)%nat
  /\ forall k, (1 <= k <= 20)%Z ->
       List.length (rows_of_sensor k (List.concat bs)) = List.length bs.
Proof.
  induction 1 as [|b bs (ctx & w & ->) _ (IHs & IHl & IHk)];
    cbn [List.concat List.length].
  - split; [constructor|]. split; [reflexivity|]. intros k _. reflexivity.
  - split; [apply Forall_app; split; [apply batch_rows_sensors|exact IHs]|].
    split; [rewrite length_app, length_batch_rows, IHl; lia|].
    intros k Hk. unfold rows_of_sensor in *. rewrite filter_app, length_app.
    fold (rows_of_sensor k (batch_rows ctx w)).
    rewrite batch_rows_of_sensor, (IHk k Hk).
    destruct (Z.leb_spec 1 k), (Z.ltb_spec k 21); cbn; try reflexivity; lia.
Qed.

(** X16: a request to /stats never sees a part of the sensors.  At every
    point of every interleaving of concurrent calls of the ingestion
    handlers, of which any may fail, on a table that was empty, every
    sensor from 1 to 20 has the same number [n] of rows, the table has
    [20 * n] rows, and the statistics of the table are empty when [n] is
    0 and have the sensors 1, 2, ..., 20 otherwise. *)
Theorem concurrent_statistics_all_sensors_or_none
  (cs : list (context R * world R)) (sched : list nat) :
  let t := fst (run_schedule sched ([], starts (ingestion_calls cs))) in
  exists n : nat,
    (forall k, (1 <= k <= 20)%Z -> List.length (rows_of_sensor k t) = n)
    /\ List.length t = (20 * n)%nat
    /\ map (@stats_sensor_id R) (stats_data t)
       = match n with
         | O => []
         | S _ => range 1 (num_sensors + 1)
         end.
Proof.
  cbv zeta.
  destruct (whole_batches_run sched
              (whole_batches_start [] (ingestion_calls cs)))
    as (_ & bs & Et & Hp).
  cbn [app] in Et. rewrite Et.
  assert (Hbs : Forall (fun b => exists ctx w, b = batch_rows ctx w) bs).
  { apply Forall_forall. intros b Hb.
    assert (Hin : In b (committing (ingestion_calls cs))).
    { apply (Permutation_in _ Hp). apply in_or_app. left. exact Hb. }
    unfold committing, ingestion_calls in Hin. apply in_map_iff in Hin.
    destruct Hin as (c & <- & Hc). apply filter_In in Hc.
    destruct Hc as (Hc & _). apply in_map_iff in Hc.
    destruct Hc as ([ctx w] & <- & _). exists ctx, w. reflexivity. }
  destruct (concat_handler_batches Hbs) as (Hs & Hl & Hk).
  exists (List.length bs). split; [exact Hk|]. split; [exact Hl|].
  destruct bs as [|b bs]; [reflexivity|]. cbn [List.length].
  destruct (stats_data_sensors (List.concat (b :: bs))) as (Sorted & Hin).
  apply sorted_same_members; [exact Sorted|apply range_sorted|].
  intros k. rewrite Hin, in_range_iff. unfold num_sensors.
  rewrite Forall_forall in Hs. split.
  - intros H. apply in_map_iff in H. destruct H as (r & <- & Hr).
    specialize (Hs r Hr). lia.
  - intros Hr. assert (Hr' : (1 <= k <= 20)%Z) by lia.
    specialize (Hk k Hr'). cbn [List.length] in Hk.
    destruct (rows_of_sensor k (List.concat (b :: bs))) as [|r rs] eqn:E;
      [discriminate Hk|].
    assert (Hrin : In r (rows_of_sensor k (List.concat (b :: bs))))
      by (rewrite E; left; reflexivity).
    apply rows_of_sensor_in in Hrin. destruct Hrin as (Hin' & Hk').
    apply in_map_iff. exists r. split; assumption.
Qed.

End ConcurrentStatistics.

(** * The load harness *)

(** ** The labels of call_function *)

Lemma to_int_not_nil z :
  Z.to_int z <> Decimal.Pos Decimal.Nil
  /\ Z.to_int z <> Decimal.Neg Decimal.Nil.
Proof.
  split; intros E; pose proof (DecimalZ.of_to z) as H; rewrite E in H;
    cbn in H; subst z; discriminate E.
Qed.

Lemma str_of_int_inj z1 z2 : str_of_int z1 = str_of_int z2 -> z1 = z2.
Proof.
  unfold str_of_int. intros E.
  apply (f_equal DecimalString.NilZero.int_of_string) in E.
  rewrite !DecimalString.NilZero.isi in E by apply to_int_not_nil.
  injection E as E. apply (f_equal Z.of_int) in E.
  rewrite !DecimalZ.of_to in E. exact E.
Qed.

Lemma label_success o : label o = "Success"%string <-> o = Responds 200.
Proof.
  destruct o as [status_code| |type_name]; cbn -[str_of_int].
  - destruct (Z.eqb_spec status_code 200) as [->|Hne].
    + split; reflexivity.
    + split; intros E; [discriminate E|].
      injection E as E. contradiction.
  - split; discriminate.
  - split; discriminate.
Qed.

Lemma label_inj o1 o2 : label o1 = label o2 -> o1 = o2.
Proof.
  destruct o1 as [s1| |n1], o2 as [s2| |n2]; cbn -[str_of_int];
    try destruct (Z.eqb_spec s1 200) as [->|H1];
    try destruct (Z.eqb_spec s2 200) as [->|H2];
    intros E; try discriminate E; try reflexivity.
  - injection E as E. apply str_of_int_inj in E. subst. reflexivity.
  - injection E as E. subst. reflexivity.
Qed.

Section HarnessFacts.

Context {R : Type} {AR : Arith R}.
Variable h : harness R.

Lemma call_function_run b :
  call_function h b
  = (label (get_outcomes h (sent b)),
     mkBench (S (sent b)) (time_reads b) (stdout b) (sleeps b) (plt b)).
Proof.
  unfold call_function, client_get, label.
  destruct (get_outcomes h (sent b)) as [status_code| |type_name];
    [destruct (status_code =? 200)%Z| |]; reflexivity.
Qed.

Lemma gather_run n : forall b,
  gather h n b
  = (map label (outcomes_from h (sent b) n),
     mkBench (sent b + n) (time_reads b) (stdout b) (sleeps b) (plt b)).
Proof.
  induction n as [|n IH]; intros [s t o sl p]; cbn [gather].
  - cbn. rewrite Nat.add_0_r. reflexivity.
  - rewrite call_function_run, IH. cbn. rewrite Nat.add_succ_r. reflexivity.
Qed.

(** ** Counter *)

Lemma counts_get_counter_add x c k :
  counts_get (counter_add x c) k 0
  = (counts_get c k 0 + (if String.eqb x k then 1 else 0))%Z.
Proof.
  induction c as [|[y n] c IH]; cbn.
  - destruct (String.eqb x k); reflexivity.
  - destruct (String.eqb_spec y x) as [->|Hyx]; cbn.
    + destruct (String.eqb x k); lia.
    + destruct (String.eqb_spec y k) as [->|Hyk].
      * destruct (String.eqb_spec x k); [congruence|lia].
      * exact IH.
Qed.

Lemma keys_counter_add x c k :
  In k (map fst (counter_add x c)) <-> k = x \/ In k (map fst c).
Proof.
  induction c as [|[y n] c IH]; cbn.
  - intuition auto.
  - destruct (String.eqb_spec y x) as [->|Hyx]; cbn; [intuition auto|].
    rewrite IH. intuition auto.
Qed.

Lemma NoDup_counter_add x c :
  NoDup (map fst c) -> NoDup (map fst (counter_add x c)).
Proof.
  induction c as [|[y n] c IH]; cbn; intros ND.
  - constructor; [intros []|constructor].
  - destruct (String.eqb_spec y x) as [->|Hyx]; cbn; [exact ND|].
    inversion ND as [|? ? Hy ND']; subst. constructor; [|apply IH; exact ND'].
    rewrite keys_counter_add. intros [E|Hin]; [congruence|contradiction].
Qed.

Lemma sum_counter_add x c :
  sum_counts (counter_add x c) = (sum_counts c + 1)%Z.
Proof.
  unfold sum_counts. induction c as [|[y n] c IH]; cbn; [reflexivity|].
  destruct (String.eqb y x); cbn; [|rewrite IH]; lia.
Qed.

Lemma Counter_snoc xs x : Counter (xs ++ [x]) = counter_add x (Counter xs).
Proof. unfold Counter. rewrite fold_left_app. reflexivity. Qed.

Lemma list_count_snoc xs x k :
  list_count (xs ++ [x]) k
  = (list_count xs k + (if String.eqb x k then 1 else 0))%Z.
Proof.
  unfold list_count. rewrite count_occ_app. cbn.
  destruct (string_dec x k) as [->|Hne].
  - rewrite String.eqb_refl. lia.
  - destruct (String.eqb_spec x k); [contradiction|lia].
Qed.

(** What a Counter holds. *)
Lemma Counter_counts xs :
  NoDup (map fst (Counter xs))
  /\ (forall k, In k (map fst (Counter xs)) <-> In k xs)
  /\ (forall k, counts_get (Counter xs) k 0 = list_count xs k)
  /\ sum_counts (Counter xs) = Z.of_nat (List.length xs).
Proof.
  induction xs as [|x xs (ND & Hk & Hg & Hs)] using rev_ind.
  - cbn. repeat split; try constructor; try contradiction.
  - rewrite Counter_snoc. split; [apply NoDup_counter_add; exact ND|].
    split; [|split].
    + intros k. rewrite keys_counter_add, Hk, in_app_iff. cbn. intuition auto.
    + intros k. rewrite counts_get_counter_add, Hg, list_count_snoc.
      reflexivity.
    + rewrite sum_counter_add, Hs, length_app. cbn. lia.
Qed.

Lemma counts_get_absent c k d :
  ~ In k (map fst c) -> counts_get c k d = d.
Proof.
  induction c as [|[y n] c IH]; cbn; intros H; [reflexivity|].
  destruct (String.eqb_spec y k) as [->|_]; [|apply IH]; intuition auto.
Qed.

Lemma counts_get_in c k n d :
  NoDup (map fst c) -> In (k, n) c -> counts_get c k d = n.
Proof.
  induction c as [|[y m] c IH]; cbn; intros ND H; [contradiction|].
  inversion ND as [|? ? Hy ND']; subst.
  destruct H as [E|H].
  - injection E as -> ->. rewrite String.eqb_refl. reflexivity.
  - destruct (String.eqb_spec y k) as [->|_]; [|apply IH; assumption].
    exfalso. apply Hy. apply in_map_iff. exists (k, n). split; [reflexivity|exact H].
Qed.

Lemma in_counts_get c k d :
  In k (map fst c) -> In (k, counts_get c k d) c.
Proof.
  induction c as [|[y m] c IH]; cbn; intros H; [contradiction|].
  destruct (String.eqb_spec y k) as [->|Hne]; [left; reflexivity|].
  right. apply IH. destruct H as [E|H]; [contradiction|exact H].
Qed.

Lemma sum_others key c :
  NoDup (map fst c) ->
  sum_counts (others key c) = (sum_counts c - counts_get c key 0)%Z.
Proof.
  unfold sum_counts, others.
  induction c as [|[y n] c IH]; cbn; intros ND; [reflexivity|].
  inversion ND as [|? ? Hy ND']; subst.
  destruct (String.eqb_spec y key) as [->|Hne]; cbn.
  - rewrite (IH ND'), (@counts_get_absent c key 0%Z Hy). lia.
  - rewrite (IH ND'). lia.
Qed.

Lemma print_failure_details_run items : forall b : bench R,
  print_failure_details items b
  = mkBench (sent b) (time_reads b)
            (stdout b ++ map (@detail_line R) (others "Success" items))
            (sleeps b) (plt b).
Proof.
  unfold others.
  induction items as [|[reason count] items IH]; intros [s t o sl p].
  - cbn. rewrite app_nil_r. reflexivity.
  - cbn [print_failure_details filter fst]. rewrite IH.
    destruct (negb (String.eqb reason "Success")); cbn; [|reflexivity].
    rewrite <- app_assoc. reflexivity.
Qed.

(** The calls that [results] counts as successes are the requests
    answered with status 200. *)
Lemma list_count_success (os : list get_outcome) :
  list_count (map label os) "Success"
  = Z.of_nat (List.length (filter answers_200 os)).
Proof.
  unfold list_count. f_equal.
  induction os as [|o os IH]; cbn [map count_occ filter]; [reflexivity|].
  destruct (string_dec (label o) "Success") as [E|E].
  - apply label_success in E. subst o. cbn. rewrite IH. reflexivity.
  - destruct (answers_200 o) eqn:Ha; [|exact IH].
    exfalso. apply E. apply label_success.
    destruct o as [status_code| |]; cbn in Ha; try discriminate.
    apply Z.eqb_eq in Ha. subst. reflexivity.
Qed.

Lemma successes_bounds from n :
  (0 <= successes h from n <= Z.of_nat n)%Z.
Proof.
  unfold successes, outcomes_from.
  pose proof (filter_length_le answers_200 (map (get_outcomes h) (seq from n)))
    as H.
  rewrite length_map, length_seq in H. lia.
Qed.

(** What [run_test] returns and the state it leaves, for every
    [num_calls]. *)
Lemma run_test_run num_calls b :
  let results := map label (outcomes_from h (sent b) (Z.to_nat num_calls)) in
  let duration :=
    rsub (time_time h (S (time_reads b))) (time_time h (time_reads b)) in
  let success_count := list_count results "Success" in
  let fail_count := (num_calls - success_count)%Z in
  let total := (success_count * 20)%Z in
  let tps := if rltb (lit 0) duration
             then PyFloat (rdiv (lit total) duration)
             else PyInt 0 in
  run_test h num_calls b
  = ((duration, total, tps, fail_count),
     mkBench (sent b + Z.to_nat num_calls) (S (S (time_reads b)))
       (stdout b
        ++ [FString [PStr (newline ++ "Running PARALLEL test: ");
                     PInt num_calls; PStr " concurrent calls"];
            FString [PStr "Duration: "; PFixed2 (PyFloat duration);
                     PStr " seconds"];
            FString [PStr "Total Succeeded: "; PInt success_count];
            FString [PStr "Total Failed: "; PInt fail_count]]
        ++ (if (0 <? fail_count)%Z
            then FString [PStr "Failure Details:"]
                 :: map (@detail_line R) (others "Success" (Counter results))
            else [])
        ++ [FString [PStr "Throughput (successful): "; PFixed2 tps;
                     PStr " readings/sec"]])
       (sleeps b) (plt b)).
Proof.
  cbv zeta. destruct b as [s t o sl p]. unfold run_test.
  cbn [print time_now sent time_reads stdout sleeps plt].
  rewrite gather_run.
  cbn [print time_now sent time_reads stdout sleeps plt].
  destruct (Counter_counts (map label (outcomes_from h s (Z.to_nat num_calls))))
    as (_ & _ & Hg & _).
  rewrite Hg. unfold SENSORS_PER_READING.
  destruct (0 <? num_calls
                 - list_count
                     (map label (outcomes_from h s (Z.to_nat num_calls)))
                     "Success")%Z.
  - rewrite print_failure_details_run. unfold print.
    cbn [sent time_reads stdout sleeps plt].
    f_equal. f_equal. rewrite <- !app_assoc. reflexivity.
  - unfold print. cbn [sent time_reads stdout sleeps plt app].
    f_equal. f_equal. rewrite <- !app_assoc. reflexivity.
Qed.

Lemma NoDup_keys_filter (p : string * Z -> bool) c :
  NoDup (map fst c) -> NoDup (map fst (filter p c)).
Proof.
  induction c as [|x c IH]; cbn; intros ND; [constructor|].
  inversion ND as [|? ? Hx ND']; subst.
  destruct (p x); cbn; [|apply IH; exact ND'].
  constructor; [|apply IH; exact ND'].
  intros H. apply Hx. apply in_map_iff in H. destruct H as (y & E & Hy).
  apply filter_In in Hy. apply in_map_iff. exists y. tauto.
Qed.

Lemma warmup_run b :
  exists line1 line2,
    warmup h b
    = mkBench (sent b + 15) (S (S (time_reads b)))
              (stdout b ++ [line1; line2]) (sleeps b) (plt b).
Proof.
  destruct b as [s t o sl p]. unfold warmup.
  cbn [time_now sent time_reads stdout sleeps plt]. unfold print at 2.
  cbn [time_now sent time_reads stdout sleeps plt].
  rewrite gather_run. unfold print.
  cbn [time_now sent time_reads stdout sleeps plt].
  do 2 eexists. rewrite <- app_assoc. reflexivity.
Qed.

Lemma print_summary_run lines : forall b : bench R,
  print_summary lines b
  = mkBench (sent b) (time_reads b)
            (stdout b ++ map (@TupleLine R) lines) (sleeps b) (plt b).
Proof.
  unfold print_summary.
  induction lines as [|l lines IH]; intros [s t o sl p]; cbn [fold_left map].
  - cbn. rewrite app_nil_r. reflexivity.
  - rewrite IH. unfold print. cbn. rewrite <- app_assoc. reflexivity.
Qed.

(** The loop of [main], for any list of workloads. *)
Lemma main_loop_run workloads : forall summary throughputs conc_levels b,
  Forall (fun n => (0 <= n)%Z) workloads ->
  exists lines out,
    main_loop h workloads summary throughputs conc_levels b
    = ((summary ++ lines, throughputs ++ map (@line_tps R) lines,
        conc_levels ++ workloads),
       mkBench (sent b + requests_of workloads)
               (time_reads b + 2 * List.length workloads)
               (stdout b ++ out)
               (sleeps b ++ repeat 1%Z (List.length workloads))
               (plt b))
    /\ map (@line_num_calls R) lines = workloads
    /\ Forall (@line_accounts R) lines.
Proof.
  induction workloads as [|n workloads IH];
    intros summary throughputs conc_levels b Hpos.
  - exists [], []. cbn. rewrite !app_nil_r, !Nat.add_0_r.
    destruct b; repeat split. constructor.
  - apply Forall_cons_iff in Hpos. destruct Hpos as (Hn & Hpos).
    cbn [main_loop]. rewrite run_test_run. cbv zeta.
    match goal with
    | |- context [main_loop h workloads ?s ?t ?c ?b'] =>
        destruct (IH s t c b' Hpos) as (lines & out & E & Hl & Ha)
    end.
    rewrite E. unfold asyncio_sleep. cbn [sent time_reads stdout sleeps plt].
    match goal with
    | |- context [(summary ++ [?l]) ++ lines] => exists (l :: lines)
    end.
    match goal with
    | |- context [(stdout b ++ ?o) ++ out] => exists (o ++ out)
    end.
    split; [|split].
    + rewrite <- !app_assoc. cbn [app map line_tps].
      f_equal. f_equal.
      * unfold requests_of. cbn [map fold_right]. lia.
      * cbn [List.length]. lia.
    + cbn [map line_num_calls]. rewrite Hl. reflexivity.
    + constructor; [|exact Ha]. unfold line_accounts.
      rewrite list_count_success.
      pose proof (successes_bounds (sent b) (Z.to_nat n)) as Hb.
      unfold successes in Hb. lia.
Qed.

(** X17: what [run_test] measures.  For [num_calls >= 0] the function
    sends [num_calls] requests and reads the clock twice; of the tuple it
    returns, [total_successful_readings] is twenty times the number of
    requests answered with status 200, and [fail_count] is the number of
    all the other requests, whether they were answered with another
    status, timed out or raised; [duration] is the difference of the two
    clock readings, and [tps] the quotient of the total by the duration,
    or the int 0 when the duration is not positive. *)
Theorem run_test_counts num_calls b :
  (0 <= num_calls)%Z ->
  let ok := successes h (sent b) (Z.to_nat num_calls) in
  let duration :=
    rsub (time_time h (S (time_reads b))) (time_time h (time_reads b)) in
  fst (run_test h num_calls b)
  = (duration, (ok * 20)%Z,
     (if rltb (lit 0) duration
      then PyFloat (rdiv (lit (ok * 20)) duration)
      else PyInt 0),
     (num_calls - ok)%Z)
  /\ (0 <= ok <= num_calls)%Z
  /\ (num_calls - ok)%Z
     = Z.of_nat (List.length
                   (filter (fun o => negb (answers_200 o))
                           (outcomes_from h (sent b) (Z.to_nat num_calls))))
  /\ sent (snd (run_test h num_calls b)) = (sent b + Z.to_nat num_calls)%nat
  /\ time_reads (snd (run_test h num_calls b)) = S (S (time_reads b)).
Proof.
  intros Hpos. cbv zeta. rewrite run_test_run. cbv zeta.
  cbn [fst snd sent time_reads]. rewrite list_count_success.
  fold (successes h (sent b) (Z.to_nat num_calls)).
  pose proof (successes_bounds (sent b) (Z.to_nat num_calls)) as Hb.
  split; [reflexivity|]. split; [lia|]. split; [|split; reflexivity].
  unfold successes.
  pose proof (filter_length answers_200
                (outcomes_from h (sent b) (Z.to_nat num_calls))) as Hf.
  unfold outcomes_from in Hf at 3. rewrite length_map, length_seq in Hf. lia.
Qed.

(** X18: [run_test] of a negative [num_calls] sends no request, as
    [range(num_calls)] is empty, and returns the negative [num_calls]
    itself as [fail_count], with no successful reading; since this count
    is not positive, no failure details are printed. *)
Theorem run_test_negative num_calls b :
  (num_calls < 0)%Z ->
  let duration :=
    rsub (time_time h (S (time_reads b))) (time_time h (time_reads b)) in
  let tps := if rltb (lit 0) duration
             then PyFloat (rdiv (lit 0) duration)
             else PyInt 0 in
  run_test h num_calls b
  = ((duration, 0%Z, tps, num_calls),
     mkBench (sent b) (S (S (time_reads b)))
       (stdout b
        ++ [FString [PStr (newline ++ "Running PARALLEL test: ");
                     PInt num_calls; PStr " concurrent calls"];
            FString [PStr "Duration: "; PFixed2 (PyFloat duration);
                     PStr " seconds"];
            FString [PStr "Total Succeeded: "; PInt 0];
            FString [PStr "Total Failed: "; PInt num_calls];
            FString [PStr "Throughput (successful): "; PFixed2 tps;
                     PStr " readings/sec"]])
       (sleeps b) (plt b)).
Proof.
  intros Hneg. cbv zeta. rewrite run_test_run. cbv zeta.
  assert (E : Z.to_nat num_calls = 0%nat) by lia. rewrite E.
  unfold outcomes_from. cbn [seq map]. unfold list_count. cbn [count_occ Z.of_nat].
  rewrite Z.sub_0_r, Nat.add_0_r.
  destruct (Z.ltb_spec 0 num_calls) as [Hlt|_]; [lia|].
  cbn [Z.mul app]. reflexivity.
Qed.

(** X19: the failure details account for every failed call exactly once.
    For [num_calls >= 0], after the four lines of the run, [run_test]
    prints the header and one line per distinct label other than
    "Success" among the results when [fail_count] is positive, and
    nothing otherwise; no label has two lines, the count of a line is the
    number of calls with its label, and the counts add up to
    [fail_count]. *)
Theorem failure_details_account_for_failures num_calls b :
  (0 <= num_calls)%Z ->
  let results := map label (outcomes_from h (sent b) (Z.to_nat num_calls)) in
  let fail_count :=
    (num_calls - successes h (sent b) (Z.to_nat num_calls))%Z in
  exists head items last,
    stdout (snd (run_test h num_calls b))
    = stdout b ++ head
      ++ (if (0 <? fail_count)%Z
          then FString [PStr "Failure Details:"]
               :: map (@detail_line R) items
          else [])
      ++ [last]
    /\ List.length head = 4%nat
    /\ NoDup (map fst items)
    /\ (forall reason count,
          In (reason, count) items
          <-> reason <> "Success"%string
              /\ In reason results
              /\ count = list_count results reason)
    /\ sum_counts items = fail_count
    /\ (items = [] <-> fail_count = 0%Z).
Proof.
  intros Hpos. cbv zeta. rewrite run_test_run. cbv zeta. cbn [snd stdout].
  rewrite list_count_success.
  fold (successes h (sent b) (Z.to_nat num_calls)).
  set (results := map label (outcomes_from h (sent b) (Z.to_nat num_calls))).
  destruct (Counter_counts results) as (ND & Hk & Hg & Hs).
  assert (Hsum : sum_counts (others "Success" (Counter results))
                 = (num_calls - successes h (sent b) (Z.to_nat num_calls))%Z).
  { rewrite (@sum_others "Success" _ ND), Hs, Hg. unfold results.
    rewrite list_count_success, length_map. unfold outcomes_from.
    rewrite length_map, length_seq. unfold successes, outcomes_from. lia. }
  assert (Hitems : forall reason count,
             In (reason, count) (others "Success" (Counter results))
             <-> reason <> "Success"%string
                 /\ In reason results
                 /\ count = list_count results reason).
  { intros reason count. unfold others. rewrite filter_In. cbn [fst]. split.
    - intros (Hin & Hne). split; [|split].
      + destruct (String.eqb_spec reason "Success"); [discriminate|assumption].
      + apply Hk. apply in_map_iff. exists (reason, count). auto.
      + rewrite <- Hg. symmetry. apply (@counts_get_in _ _ _ 0%Z ND Hin).
    - intros (Hne & Hin & ->). split.
      + rewrite <- Hg. apply in_counts_get. apply Hk. exact Hin.
      + destruct (String.eqb_spec reason "Success"); [contradiction|reflexivity]. }
  eexists _, (others "Success" (Counter results)), _.
  split; [reflexivity|]. split; [reflexivity|].
  split; [apply NoDup_keys_filter; exact ND|].
  split; [exact Hitems|]. split; [exact Hsum|].
  split.
  - intros E. rewrite E in Hsum. cbn in Hsum. lia.
  - intros E. destruct (others "Success" (Counter results)) as [|[reason count] items] eqn:Eo;
      [reflexivity|exfalso].
    assert (Hin : In (reason, count) ((reason, count) :: items)) by (left; reflexivity).
    apply Hitems in Hin. destruct Hin as (Hne & Hin & _).
    unfold results in Hin. apply in_map_iff in Hin.
    destruct Hin as (o & Eo' & Ho).
    assert (Hf : In o (filter (fun o => negb (answers_200 o))
                              (outcomes_from h (sent b) (Z.to_nat num_calls)))).
    { apply filter_In. split; [exact Ho|].
      destruct (answers_200 o) eqn:Ha; [|reflexivity].
      exfalso. apply Hne. rewrite <- Eo'. apply label_success.
      destruct o as [status_code| |]; cbn in Ha; try discriminate.
      apply Z.eqb_eq in Ha. subst. reflexivity. }
    pose proof (filter_length answers_200
                  (outcomes_from h (sent b) (Z.to_nat num_calls))) as Hl.
    unfold outcomes_from in Hl at 3. rewrite length_map, length_seq in Hl.
    unfold successes in E.
    destruct (filter (fun o => negb (answers_200 o))
                     (outcomes_from h (sent b) (Z.to_nat num_calls)));
      [contradiction|]. cbn [List.length] in Hl. lia.
Qed.

(** X20: what [main] reports.  Whatever the outcomes of the requests and
    the readings of the clock, [main] sends 15 requests of warm-up and
    then 3833 requests, sleeps nineteen times one second, and ends its
    output with the header of the summary, one line per workload and the
    closing line; the lines are in the order of WORKLOADS, each starts
    with its workload and accounts for all its calls (twenty readings for
    each call not counted as failed, and a failure count between 0 and
    the workload); the plot has WORKLOADS as abscissae and the [tps] of
    the lines as ordinates. *)
Theorem main_reports b :
  exists before lines,
    stdout (main h b)
    = before
      ++ [FString [PStr (newline ++ "   Summary (concurrency, duration, total_readings, tps, fails) ---")]]
      ++ map (@TupleLine R) lines
      ++ [FString [PStr (newline ++ "    Test Complete")]]
    /\ map (@line_num_calls R) lines = WORKLOADS
    /\ Forall (@line_accounts R) lines
    /\ plt (main h b)
       = plt b
         ++ [PltFigure 9 5; PltPlot WORKLOADS (map (@line_tps R) lines);
             PltTitle ("Azure Function Scalability" ++ newline
                       ++ "Throughput vs Concurrent Requests");
             PltXlabel "Concurrent Requests";
             PltYlabel "Throughput (readings/sec)";
             PltGrid; PltTightLayout; PltShow]
    /\ Z.of_nat (sent (main h b)) = (Z.of_nat (sent b) + 15 + 3833)%Z
    /\ sleeps (main h b) = sleeps b ++ repeat 1%Z 19.
Proof.
  unfold main.
  destruct (warmup_run
              (print (FString [PStr "Target URL: "; PStr FUNCTION_URL])
                 (print (FString [PStr "     Starting Parallel Scalability Test"])
                        b)))
    as (w1 & w2 & Ew).
  rewrite Ew. clear Ew.
  assert (Hpos : Forall (fun n => (0 <= n)%Z) WORKLOADS)
    by (unfold WORKLOADS; repeat constructor; lia).
  match goal with
  | |- context [main_loop h WORKLOADS [] [] [] ?b'] =>
      destruct (main_loop_run [] [] [] b' Hpos) as (lines & out & E & Hl & Ha)
  end.
  rewrite E. clear E. rewrite print_summary_run.
  cbn [sent time_reads stdout sleeps plt print plt_do].
  exists ((((stdout b
             ++ [FString [PStr "     Starting Parallel Scalability Test"]])
            ++ [FString [PStr "Target URL: "; PStr FUNCTION_URL]])
           ++ [w1; w2]) ++ out), lines.
  cbn [app].
  split; [rewrite <- !app_assoc; reflexivity|].
  split; [exact Hl|]. split; [exact Ha|].
  split; [rewrite <- !app_assoc; reflexivity|].
  split.
  - assert (Er : requests_of WORKLOADS = Z.to_nat 3833) by reflexivity.
    rewrite Er. lia.
  - reflexivity.
Qed.

(** X21: what [warmup] does.  It sends 15 requests, reads the clock
    before and after them, and prints two lines, of which the second
    reports the number of the 15 requests that were answered with status
    200 and the difference of the two clock readings; it returns
    nothing, and nothing of it enters the measurements that follow but
    the requests and clock readings it has used up. *)
Theorem warmup_reports b :
  warmup h b
  = mkBench (sent b + 15) (S (S (time_reads b)))
      (stdout b
       ++ [FString [PStr (newline ++ "   Warmup Phase")];
           FString [PStr "Warmup completed ("; PInt 15; PStr " calls, ";
                    PInt (successes h (sent b) 15); PStr " succeeded, ";
                    PFixed2 (PyFloat
                               (rsub (time_time h (S (time_reads b)))
                                     (time_time h (time_reads b))));
                    PStr ("s)" ++ newline)]])
      (sleeps b) (plt b)
  /\ (0 <= successes h (sent b) 15 <= 15)%Z.
Proof.
  split; [|apply (successes_bounds (sent b) 15)].
  destruct b as [s t o sl p]. unfold warmup.
  cbn [time_now sent time_reads stdout sleeps plt]. unfold print at 2.
  cbn [time_now sent time_reads stdout sleeps plt].
  rewrite gather_run. unfold print.
  cbn [time_now sent time_reads stdout sleeps plt].
  rewrite list_count_success, <- app_assoc. reflexivity.
Qed.

End HarnessFacts.

(** X22: the label that [call_function] returns tells the outcome of its
    request.  The label is "Success" exactly when the request was
    answered with status 200, and two calls return the same label only
    if their requests had the same outcome: the same status, a read
    timeout both, or an exception of the same type name.  Each call sends
    one request. *)
Theorem call_function_labels {R : Type} (h1 h2 : harness R)
  (b1 b2 : bench R) :
  (fst (call_function h1 b1) = "Success"%string
   <-> get_outcomes h1 (sent b1) = Responds 200)
  /\ (fst (call_function h1 b1) = fst (call_function h2 b2)
      -> get_outcomes h1 (sent b1) = get_outcomes h2 (sent b2))
  /\ sent (snd (call_function h1 b1)) = S (sent b1).
Proof.
  rewrite !call_function_run. cbn [fst snd sent].
  split; [apply label_success|]. split; [apply label_inj|reflexivity].
Qed.

Lemma run_test_counts_witness :
  (0 <= 4)%Z
  /\ fst (run_test harness_thirds 4 empty_bench)
     = (2, 40%Z, PyFloat (40 # 2), 2%Z).
Proof.
  assert (Hpos : (0 <= 4)%Z) by lia.
  split; [exact Hpos|].
  destruct (@run_test_counts Q exact harness_thirds 4 empty_bench Hpos)
    as (E & _).
  rewrite E. reflexivity.
Defined.

Lemma run_test_negative_witness :
  (-3 < 0)%Z
  /\ fst (run_test harness_thirds (-3) empty_bench)
     = (2, 0%Z, PyFloat (0 # 2), (-3)%Z).
Proof.
  assert (Hneg : (-3 < 0)%Z) by lia.
  split; [exact Hneg|].
  rewrite (@run_test_negative Q exact harness_thirds (-3) empty_bench Hneg).
  reflexivity.
Defined.

Lemma failure_details_account_for_failures_witness :
  (0 <= 4)%Z
  /\ exists head items last,
       stdout (snd (run_test harness_thirds 4 empty_bench))
       = stdout (@empty_bench Q) ++ head
         ++ (if (0 <? 4 - successes harness_thirds
                            (sent (@empty_bench Q)) (Z.to_nat 4))%Z
             then FString [PStr "Failure Details:"]
                  :: map (@detail_line Q) items
             else [])
         ++ [last]
       /\ sum_counts items
          = (4 - successes harness_thirds (sent (@empty_bench Q))
                           (Z.to_nat 4))%Z.
Proof.
  assert (Hpos : (0 <= 4)%Z) by lia.
  split; [exact Hpos|].
  destruct (@failure_details_account_for_failures Q exact harness_thirds 4
              empty_bench Hpos)
    as (head & items & last & E & _ & _ & _ & Hs & _).
  exists head, items, last. split; [exact E|exact Hs].
Defined.
